(** * miniray: the camera and render engine of [camera.h]

    A shallow embedding of the threaded [camera] class (the second, complete
    version of the header): viewport construction, primary rays, the
    recursive integrator [ray_color], the row partition of [render], the
    worker [render_thread], the progress monitor and the bitmap writer;
    and of the [render] of the earlier, one-thread class that the header
    opens with.

    Conventions.
    - A C++ [int] is a [Z]; every arithmetic operation of the source goes
      through [Int]'s operations, which write the 32-bit two's complement
      wrap-around out.
    - A C++ [double] is a primitive binary64 [float]; the source's operators
      are the IEEE operations of [PrimFloat].
    - A [std::vector] is a [list]; an access outside its bounds is a
      [Fault], as is an exception thrown by [resize].
    - The collaborators that live in other headers (the scene, the
      materials, the random source, libm) are parameters of the
      development. *)

From Stdlib Require Import ZArith Lia Floats Uint63.
From stdpp Require Import base list.

#[local] Open Scope Z_scope.

(** ** C++ [int] *)

Module Int.

Definition min_int : Z := - 2 ^ 31.
Definition max_int : Z := 2 ^ 31 - 1.

Definition in_range (z : Z) : Prop := min_int <= z <= max_int.

(** Reduction of a mathematical integer to its 32-bit signed value. *)
Definition wrap (z : Z) : Z := (z + 2 ^ 31) mod 2 ^ 32 - 2 ^ 31.

Definition add (a b : Z) : Z := wrap (a + b).
Definition sub (a b : Z) : Z := wrap (a - b).
Definition mul (a b : Z) : Z := wrap (a * b).

(** [a / b] truncates towards zero. *)
Definition div (a b : Z) : Z := wrap (Z.quot a b).

(** [a % b] has the sign of the dividend. *)
Definition rem (a b : Z) : Z := wrap (Z.rem a b).

(** [a >> k] on a signed value is the arithmetic shift. *)
Definition shr (a k : Z) : Z := Z.shiftr a k.

(** [(unsigned char) a] keeps the low eight bits. *)
Definition to_uchar (a : Z) : Z := a mod 256.

End Int.

(** ** Faults: what the source leaves to an exception or to undefined
    behaviour *)

Inductive fault : Set :=
  | LengthError      (* [std::vector::resize] with a size above [max_size] *)
  | OutOfBounds      (* [operator[]] outside the vector *)
  | BadConversion    (* a [double] to [int] conversion of a value no [int] holds *)
  | OutOfFuel        (* the evaluator's bound on nested calls was reached *)
  | NullStream.      (* [fwrite] on the null pointer that [fopen] returned *)

Inductive result (A : Type) : Type :=
  | Ok (a : A)
  | Fault (f : fault).

Arguments Ok {A} a.
Arguments Fault {A} f.

Definition bind {A B : Type} (m : result A) (k : A -> result B) : result B :=
  match m with
  | Ok a => k a
  | Fault f => Fault f
  end.

Notation "'let*' x ':=' m 'in' k" := (bind m (fun x => k))
  (at level 10, x pattern, m at level 100, k at level 200).

(** ** [std::vector] *)

Module Vector.

(** [v.resize(n)]: an [int] argument becomes a [size_t]; a negative one
    becomes a size above [max_size()] and [resize] throws. *)
Definition resize {A : Type} (n : Z) (d : A) (v : list A) : result (list A) :=
  if n <? 0 then Fault LengthError
  else Ok (take (Z.to_nat n) v ++ replicate (Z.to_nat n - length v) d).

(** [std::fill(v.begin(), v.end(), x)]. *)
Definition fill {A : Type} (x : A) (v : list A) : list A :=
  replicate (length v) x.

(** [v[i]] read. *)
Definition get {A : Type} (i : Z) (v : list A) : result A :=
  if i <? 0 then Fault OutOfBounds
  else match v !! Z.to_nat i with
       | Some x => Ok x
       | None => Fault OutOfBounds
       end.

(** [v[i] = f(v[i])], the shape of [v[i] += x]. *)
Definition update {A : Type} (i : Z) (f : A -> A) (v : list A) : result (list A) :=
  let* x := get i v in Ok (<[Z.to_nat i := f x]> v).

End Vector.

(** ** C++ [double] *)

(** [(double) n] for an [int] [n]. *)
Definition double_of_int (z : Z) : float :=
  if z <? 0 then PrimFloat.opp (PrimFloat.of_uint63 (Uint63.of_Z (- z)))
  else PrimFloat.of_uint63 (Uint63.of_Z z).

(** [(int) x]: truncation towards zero; undefined when the truncated value
    is no [int] (a NaN, an infinity, a value out of range). *)
Definition int_of_double (x : float) : result Z :=
  match Prim2SF x with
  | S754_zero _ => Ok 0
  | S754_finite s m e =>
      let mag := if 0 <=? e then Z.shiftl (Z.pos m) e else Z.shiftr (Z.pos m) (- e) in
      let z := if s then - mag else mag in
      if (Int.min_int <=? z) && (z <=? Int.max_int) then Ok z else Fault BadConversion
  | _ => Fault BadConversion
  end.

(** ** Vectors, points and colours *)

Record vector3d : Set := vec { x : float; y : float; z : float }.

Abbreviation point3d := vector3d (only parsing).
Abbreviation color := vector3d (only parsing).

(** The vector header is not part of the sources: its operations are
    modelled from the words of the spec, component by component in the
    arithmetic of [double]. *)

(** Modelled from the spec: the vector header is missing; the addition of
    two vectors or colours. *)
Definition vadd (a b : vector3d) : vector3d :=
  vec (x a + x b) (y a + y b) (z a + z b).

(** Modelled from the spec: the vector header is missing; the difference
    of two points or vectors. *)
Definition vsub (a b : vector3d) : vector3d :=
  vec (x a - x b) (y a - y b) (z a - z b).

(** Modelled from the spec: the vector header is missing; the negation of
    a vector. *)
Definition vneg (a : vector3d) : vector3d :=
  vec (- x a) (- y a) (- z a).

(** Modelled from the spec: the vector header is missing; the scalar
    multiplication [t * a] (and [a * t]). *)
Definition smul (t : float) (a : vector3d) : vector3d :=
  vec (t * x a) (t * y a) (t * z a).

(** Modelled from the spec: the vector header is missing; the division
    [a / t] of a vector by a scalar. *)
Definition vdiv (a : vector3d) (t : float) : vector3d :=
  vec (x a / t) (y a / t) (z a / t).

(** Modelled from the spec: the vector header is missing; the elementwise
    product of two colours, used for attenuation. *)
Definition cmul (a b : vector3d) : vector3d :=
  vec (x a * x b) (y a * y b) (z a * z b).

(** Modelled from the spec: the vector header is missing; the dot
    product. *)
Definition dot (a b : vector3d) : float :=
  (x a * x b + y a * y b + z a * z b)%float.

(** Modelled from the spec: the vector header is missing; the cross
    product. *)
Definition cross (a b : vector3d) : vector3d :=
  vec (y a * z b - z a * y b)
      (z a * x b - x a * z b)
      (x a * y b - y a * x b).

(** Modelled from the spec: the vector header is missing; the squared
    length and the length of a vector. *)
Definition length_squared (a : vector3d) : float := dot a a.

Definition vlength (a : vector3d) : float := PrimFloat.sqrt (length_squared a).

(** Modelled from the spec: the vector header is missing; the
    normalisation of a vector, its division by its length. *)
Definition unit_vector (a : vector3d) : vector3d := vdiv a (vlength a).

Declare Scope vec_scope.
Delimit Scope vec_scope with vec.
Bind Scope vec_scope with vector3d.
Infix "+" := vadd : vec_scope.
Infix "-" := vsub : vec_scope.
Notation "- a" := (vneg a) : vec_scope.
Notation "t *: a" := (smul t a) : vec_scope.
Notation "a /: t" := (vdiv a t) (at level 40, left associativity) : vec_scope.

Definition black : color := vec 0 0 0.

(** ** Rays and intervals *)

Record ray : Set := mk_ray { origin : point3d; direction : vector3d }.

Record interval : Set := mk_interval { imin : float; imax : float }.

(** ** The camera object

    The fields of [class camera], private ones first, as the header
    declares them. *)

Record camera : Set := mk_camera {
  center : point3d;              (* Camera center *)
  pixel00_loc : point3d;         (* Location of pixel 0, 0 *)
  pixel_delta_u : vector3d;      (* Offset to pixel to the right *)
  pixel_delta_v : vector3d;      (* Offset to pixel below *)
  u : vector3d;                  (* Camera frame basis vectors *)
  v : vector3d;
  w : vector3d;
  defocus_disk_u : vector3d;     (* Defocus disk horizontal radius *)
  defocus_disk_v : vector3d;     (* Defocus disk vertical radius *)
  image : list color;            (* Image result *)
  render_progress : list Z;      (* Rows rendered by each thread *)
  image_width : Z;
  image_height : Z;
  samples_per_pixel : Z;
  max_depth : Z;
  vfov : float;
  lookfrom : point3d;
  lookat : point3d;
  vup : vector3d;
  defocus_angle : float;
  focus_dist : float;
  max_threads : Z
}.

Definition set_image (img : list color) (c : camera) : camera :=
  mk_camera (center c) (pixel00_loc c) (pixel_delta_u c) (pixel_delta_v c)
    (u c) (v c) (w c) (defocus_disk_u c) (defocus_disk_v c)
    img (render_progress c)
    (image_width c) (image_height c) (samples_per_pixel c) (max_depth c)
    (vfov c) (lookfrom c) (lookat c) (vup c) (defocus_angle c) (focus_dist c)
    (max_threads c).

Definition set_render_progress (pr : list Z) (c : camera) : camera :=
  mk_camera (center c) (pixel00_loc c) (pixel_delta_u c) (pixel_delta_v c)
    (u c) (v c) (w c) (defocus_disk_u c) (defocus_disk_v c)
    (image c) pr
    (image_width c) (image_height c) (samples_per_pixel c) (max_depth c)
    (vfov c) (lookfrom c) (lookat c) (vup c) (defocus_angle c) (focus_dist c)
    (max_threads c).

(** The camera as the header's member initialisers leave it. *)
Definition default_camera : camera :=
  mk_camera black black black black black black black black black
    [] []
    1366 720 10 10 90 (vec 0 0 (-1)) (vec 0 0 0) (vec 0 1 0) 0 10 1.

(** ** The [for] loop over [int]s

    [for (int k = lo; k < hi; k++)] visits [lo], [lo + 1], ..., [hi - 1];
    the increment never leaves the [int]s because [k < hi]. *)

Definition int_range (lo hi : Z) : list Z := seqZ lo (hi - lo).

Fixpoint for_each {S : Type} (ks : list Z) (body : Z -> S -> result S) (s : S)
  : result S :=
  match ks with
  | [] => Ok s
  | k :: ks' => let* s' := body k s in for_each ks' body s'
  end.

Definition for_int {S : Type} (lo hi : Z) (body : Z -> S -> result S) (s : S)
  : result S :=
  for_each (int_range lo hi) body s.

(** ** The render engine *)

Section Renderer.

(** The collaborators of the other headers. *)

(** [rtweekend.h] and libm. *)
Variable degrees_to_radians : float -> float.
Variable tan : float -> float.

(** The random source: [random_double()] draws from a global generator,
    here a state that every draw advances. *)
Variable rng : Type.
Variable random_double : rng -> float * rng.
Variable random_in_unit_disk : rng -> vector3d * rng.

(** The scene ([hittable.h]) and its materials ([material.h]): [hit] is
    [world.hit(r, ray_t, rec)], [None] for [false]; [scatter] is
    [rec.mat->scatter(r, rec, attenuation, scattered)]. *)
Variable hittable : Type.
Variable hit_record : Type.
Variable hit : hittable -> ray -> interval -> option hit_record.
Variable scatter : hit_record -> ray -> rng -> option (color * ray) * rng.

(** [color.h]. *)
Variable gamma_correction : color -> Z -> color.

(** *** [initialize] *)

Definition initialize (c : camera) : result camera :=
  (* Setup viewport *)
  let center := lookfrom c in
  let theta := degrees_to_radians (vfov c) in
  let h := tan (theta / 2)%float in
  let viewport_height := (2 * h * focus_dist c)%float in
  let viewport_width :=
    (viewport_height
     * (double_of_int (image_width c) / double_of_int (image_height c)))%float in
  (* The u, v, w unit basis vectors of the camera coordinate frame *)
  let w := unit_vector (lookfrom c - lookat c) in
  let u := unit_vector (cross (vup c) w) in
  let v := cross w u in
  (* The vectors across the horizontal and down the vertical viewport edges *)
  let viewport_u := (viewport_width *: u)%vec in
  let viewport_v := (viewport_height *: - v)%vec in
  (* The horizontal and vertical delta vectors from pixel to pixel *)
  let pixel_delta_u := (viewport_u /: double_of_int (image_width c))%vec in
  let pixel_delta_v := (viewport_v /: double_of_int (image_height c))%vec in
  (* The location of the upper left pixel *)
  let viewport_upper_left :=
    (center - (focus_dist c *: w) - viewport_u /: 2 - viewport_v /: 2)%vec in
  let pixel00_loc :=
    (viewport_upper_left + 0.5 *: (pixel_delta_u + pixel_delta_v))%vec in
  (* The camera defocus disk basis vectors *)
  let defocus_radius :=
    (focus_dist c * tan (degrees_to_radians (defocus_angle c / 2)))%float in
  let defocus_disk_u := (defocus_radius *: u)%vec in
  let defocus_disk_v := (defocus_radius *: v)%vec in
  (* Initialize output image *)
  let* image0 :=
    Vector.resize (Int.mul (image_height c) (image_width c)) black (image c) in
  let image := Vector.fill black image0 in
  (* Initialize render progress vector *)
  let* progress0 := Vector.resize (max_threads c) 0 (render_progress c) in
  let render_progress := Vector.fill 0 progress0 in
  (* Ensure there is at least one thread for rendering the scene *)
  let max_threads := if 0 <? max_threads c then max_threads c else 1 in
  Ok (mk_camera center pixel00_loc pixel_delta_u pixel_delta_v u v w
        defocus_disk_u defocus_disk_v image render_progress
        (image_width c) (image_height c) (samples_per_pixel c) (max_depth c)
        (vfov c) (lookfrom c) (lookat c) (vup c) (defocus_angle c)
        (focus_dist c) max_threads).

(** *** [ray_color]

    [fuel] bounds the number of nested activations: the outermost call
    takes one unit and every recursive call one more.  The literals
    [0.001] and [0.7] are written as the doubles they denote. *)

Fixpoint ray_color_fuel (fuel : nat) (r : ray) (depth : Z) (world : hittable)
    (g : rng) : result (color * rng) :=
  match fuel with
  | O => Fault OutOfFuel
  | S fuel' =>
      (* Return early if no more light bounces are allowed *)
      if depth <=? 0 then Ok (black, g)
      else
        (* interval(0.001, infinity) *)
        match hit world r (mk_interval 0x1.0624dd2f1a9fcp-10 infinity) with
        | Some rec =>
            match scatter rec r g with
            | (Some (attenuation, scattered), g1) =>
                let* (c, g2) :=
                  ray_color_fuel fuel' scattered (Int.sub depth 1) world g1 in
                Ok (cmul attenuation c, g2)
            | (None, g1) => Ok (black, g1)
            end
        | None =>
            let unit_direction := unit_vector (direction r) in
            let a := (0.5 * (y unit_direction + 1))%float in
            (* (1.0 - a) * color(1.0, 1.0, 1.0) + a * color(0.5, 0.7, 1.0) *)
            Ok (((1 - a)%float *: vec 1 1 1
                 + a *: vec 0.5 0x1.6666666666666p-1 1)%vec, g)
        end
  end.

(** A call with budget [depth] is given [depth + 1] activations. *)
Definition ray_color (r : ray) (depth : Z) (world : hittable) (g : rng)
  : result (color * rng) :=
  ray_color_fuel (S (Z.to_nat depth)) r depth world g.

(** *** [get_ray] and its samplers *)

Definition pixel_sample_square (c : camera) (g : rng) : vector3d * rng :=
  let '(d1, g1) := random_double g in
  let px := (0.5 + d1)%float in
  let '(d2, g2) := random_double g1 in
  let py := (0.5 + d2)%float in
  ((px *: pixel_delta_u c) + (py *: pixel_delta_v c), g2)%vec.

(** A random point in the camera defocus disk. *)
Definition defocus_disk_sample (c : camera) (g : rng) : point3d * rng :=
  let '(p, g1) := random_in_unit_disk g in
  (center c + (x p *: defocus_disk_u c) + (y p *: defocus_disk_v c), g1)%vec.

(** The point of the viewport that the sampled ray goes through. *)
Definition pixel_sample (c : camera) (i j : Z) (g : rng) : point3d * rng :=
  let pixel_center :=
    (pixel00_loc c + (double_of_int i *: pixel_delta_u c)
     + (double_of_int j *: pixel_delta_v c))%vec in
  let '(sq, g1) := pixel_sample_square c g in
  ((pixel_center + sq)%vec, g1).

Definition get_ray (c : camera) (i j : Z) (g : rng) : ray * rng :=
  let '(sample, g1) := pixel_sample c i j g in
  let '(ray_origin, g2) :=
    if (defocus_angle c <=? 0)%float then (center c, g1)
    else defocus_disk_sample c g1 in
  let ray_direction := (sample - ray_origin)%vec in
  (mk_ray ray_origin ray_direction, g2).

(** *** [render_thread]

    A worker owns no state of its own: it works on the camera object and
    on the random source it shares with the other workers. *)

(** The slot of pixel [(i, j)] in [image]. *)
Definition pixel_index (c : camera) (i j : Z) : Z :=
  Int.add (Int.mul j (image_width c)) i.

(** One pass of the innermost loop: [image[j * image_width + i] +=
    ray_color(get_ray(i, j), max_depth, world)]. *)
Definition render_sample (world : hittable) (i j : Z) (sample : Z)
    (s : camera * rng) : result (camera * rng) :=
  let '(c, g) := s in
  let '(r, g1) := get_ray c i j g in
  let* (col, g2) := ray_color r (max_depth c) world g1 in
  let* img := Vector.update (pixel_index c i j) (fun p => (p + col)%vec) (image c) in
  Ok (set_image img c, g2).

(** One pass of the outermost loop: a row, then the progress counter. *)
Definition render_row (world : hittable) (threadId : Z) (j : Z)
    (s : camera * rng) : result (camera * rng) :=
  let* s1 :=
    for_int 0 (image_width (fst s))
      (fun i s' =>
         for_int 0 (samples_per_pixel (fst s')) (render_sample world i j) s')
      s in
  let* pr :=
    Vector.update threadId (fun n => Int.add n 1) (render_progress (fst s1)) in
  Ok (set_render_progress pr (fst s1), snd s1).

Definition render_thread (world : hittable) (threadId minRow maxRow : Z)
    (s : camera * rng) : result (camera * rng) :=
  for_int minRow maxRow (render_row world threadId) s.

(** *** [print_render_progress] *)

(** The locals of the monitor, and what it has written to [std::clog]
    (the percentages, in order). *)
Record monitor : Set := mk_monitor {
  percent : Z;
  lastPercent : Z;
  rawProgress : Z;
  clog : list Z
}.

Definition monitor_start : monitor := mk_monitor 0 (-1) 0 [].

(** One pass of the body of [while (percent < 100)]. *)
Definition monitor_pass (s : camera * monitor) : result (camera * monitor) :=
  let '(c, m) := s in
  let raw := foldl Int.add (rawProgress m) (render_progress c) in
  let* pct :=
    int_of_double
      (double_of_int raw / double_of_int (image_height c) * 100)%float in
  (* Print progress only if it has changed *)
  let '(last, out) :=
    if pct =? lastPercent m then (lastPercent m, clog m)
    else (pct, clog m ++ [pct]) in
  Ok (c, mk_monitor pct last 0 out).

(** The loop, run on its own: [fuel] bounds the number of passes. *)
Fixpoint monitor_loop (fuel : nat) (s : camera * monitor)
  : result (camera * monitor) :=
  if percent (snd s) <? 100 then
    match fuel with
    | O => Fault OutOfFuel
    | S fuel' => let* s' := monitor_pass s in monitor_loop fuel' s'
    end
  else Ok s.

Definition print_render_progress (fuel : nat) (c : camera)
  : result (camera * list Z) :=
  let* (c1, m) := monitor_loop fuel (c, monitor_start) in
  let out := clog m ++ [percent m] in
  Ok (set_render_progress (Vector.fill 0 (render_progress c1)) c1, out).

(** *** [render] *)

(** The arguments [(threadId, minRow, maxRow)] of the [i]-th worker. *)
Definition thread_args (c : camera) (i : Z) : Z * Z * Z :=
  let offset := Int.div (image_height c) (max_threads c) in
  let minRow := Int.mul i offset in
  let maxRow :=
    if i <? Int.sub (max_threads c) 1 then Int.add minRow offset
    else image_height c in
  (i, minRow, maxRow).

(** The spawn loop: the workers in the order of [threads]. *)
Definition spawn_threads (c : camera) : list (Z * Z * Z) :=
  thread_args c <$> int_range 0 (max_threads c).

(** The state of [render] when the spawn loop is over: the initialized
    camera and the workers that were started. *)
Definition render_spawn (c : camera) : result (camera * list (Z * Z * Z)) :=
  let* c1 := initialize c in
  Ok (c1, spawn_threads c1).

(** One schedule of the workers: each runs to its end, in spawn order. *)
Fixpoint run_threads (world : hittable) (threads : list (Z * Z * Z))
    (s : camera * rng) : result (camera * rng) :=
  match threads with
  | [] => Ok s
  | (threadId, minRow, maxRow) :: rest =>
      let* s' := render_thread world threadId minRow maxRow s in
      run_threads world rest s'
  end.

(** [render] under that schedule, the monitor polling once the workers
    are done. *)
Definition render (fuel : nat) (world : hittable) (c : camera) (g : rng)
  : result (camera * rng) :=
  let* (c1, threads) := render_spawn c in
  let* (c2, g2) := run_threads world threads (c1, g) in
  let* (c3, _) := print_render_progress fuel c2 in
  Ok (c3, g2).

(** *** [get_bitmap_data] and [write_image] *)

(** [(unsigned char) x] for a [double] [x]: the truncated value, which
    has to be one an [unsigned char] holds. *)
Definition uchar_of_double (d : float) : result Z :=
  let* n := int_of_double d in
  if (0 <=? n) && (n <=? 255) then Ok n else Fault BadConversion.

(** The image as bytes [b,g,r, b,g,r, ...]. *)
Fixpoint bitmap_bytes (spp : Z) (pixels : list color) : result (list Z) :=
  match pixels with
  | [] => Ok []
  | pixel :: rest =>
      let pixel_color := gamma_correction pixel spp in
      let* blue := uchar_of_double (z pixel_color * 255)%float in
      let* green := uchar_of_double (y pixel_color * 255)%float in
      let* red := uchar_of_double (x pixel_color * 255)%float in
      let* tail := bitmap_bytes spp rest in
      Ok (blue :: green :: red :: tail)
  end.

Definition get_bitmap_data (c : camera) : result (list Z) :=
  bitmap_bytes (samples_per_pixel c) (image c).

(** [int file_size = 54 + 3 * image_width * image_height]. *)
Definition file_size (c : camera) : Z :=
  Int.add 54 (Int.mul (Int.mul 3 (image_width c)) (image_height c)).

(** The four bytes [(unsigned char)(n), (unsigned char)(n >> 8), ...]
    stored at [pos], [pos + 1], [pos + 2] and [pos + 3]. *)
Definition store_int (pos : nat) (n : Z) (bytes : list Z) : list Z :=
  <[(pos + 3)%nat := Int.to_uchar (Int.shr n 24)]>
    (<[(pos + 2)%nat := Int.to_uchar (Int.shr n 16)]>
       (<[(pos + 1)%nat := Int.to_uchar (Int.shr n 8)]>
          (<[pos := Int.to_uchar n]> bytes))).

Definition bmp_header (c : camera) : list Z :=
  store_int 2 (file_size c)
    [ 66; 77;       (* 'B','M' *)
      0; 0; 0; 0;   (* Size in bytes *)
      0; 0; 0; 0;   (* App data *)
      54; 0; 0; 0   (* Data offset start *) ].

Definition bmp_info (c : camera) : list Z :=
  store_int 8 (image_height c)
    (store_int 4 (image_width c)
       ([ 40; 0; 0; 0;  (* Info HD size *)
          0; 0; 0; 0;   (* Width *)
          0; 0; 0; 0;   (* Height *)
          1; 0;         (* # color planes *)
          24; 0         (* Bits per pixel *) ] ++ replicate 24 0)).

(** [(4 - (image_width * 3) % 4) % 4], the number of padding bytes that
    follow a row. *)
Definition row_padding (c : camera) : Z :=
  Int.rem (Int.sub 4 (Int.rem (Int.mul (image_width c) 3) 4)) 4.

(** [fwrite(data + off, 1, n, f)]: the [n] bytes of [data] from [off]
    on, all of which have to be there. *)
Definition read_block (off n : Z) (data : list Z) : result (list Z) :=
  if (0 <=? off) && (0 <=? n) && (off + n <=? Z.of_nat (length data))
  then Ok (take (Z.to_nat n) (drop (Z.to_nat off) data))
  else Fault OutOfBounds.

(** The body of the row loop: the [i]-th row from the bottom and its
    padding, appended to what the file holds. *)
Definition write_row (c : camera) (data : list Z) (i : Z) (file : list Z)
  : result (list Z) :=
  let off :=
    Int.mul
      (Int.mul (image_width c) (Int.sub (Int.sub (image_height c) i) 1)) 3 in
  let* row := read_block off (3 * image_width c) data in
  Ok (file ++ row ++ replicate (Z.to_nat (row_padding c)) 0).

(** The bytes that [write_image] writes to the file it opens. *)
Definition write_image (c : camera) : result (list Z) :=
  let* data := get_bitmap_data c in
  for_int 0 (image_height c) (write_row c data) (bmp_header c ++ bmp_info c).

End Renderer.

Arguments initialize degrees_to_radians tan c : assert.
Arguments ray_color_fuel {rng hittable hit_record} hit scatter fuel r depth world g.
Arguments ray_color {rng hittable hit_record} hit scatter r depth world g.
Arguments pixel_sample_square {rng} random_double c g.
Arguments defocus_disk_sample {rng} random_in_unit_disk c g.
Arguments pixel_sample {rng} random_double c i j g.
Arguments get_ray {rng} random_double random_in_unit_disk c i j g.
Arguments render_sample {rng} random_double random_in_unit_disk
  {hittable hit_record} hit scatter world i j sample s.
Arguments render_row {rng} random_double random_in_unit_disk
  {hittable hit_record} hit scatter world threadId j s.
Arguments render_thread {rng} random_double random_in_unit_disk
  {hittable hit_record} hit scatter world threadId minRow maxRow s.
Arguments render_spawn degrees_to_radians tan c : assert.
Arguments run_threads {rng} random_double random_in_unit_disk
  {hittable hit_record} hit scatter world threads s.
Arguments render degrees_to_radians tan {rng} random_double random_in_unit_disk
  {hittable hit_record} hit scatter fuel world c g.
Arguments bitmap_bytes gamma_correction spp pixels : assert.
Arguments get_bitmap_data gamma_correction c : assert.
Arguments write_image gamma_correction c : assert.

(** [write_image] with the answer of [fopen]: the stream is used as it
    comes, so that on a file that cannot be opened ([opened = false], the
    null pointer) the first [fwrite] is undefined; on a file that is
    opened the bytes are those of [write_image].  The bitmap data is made
    before the file is opened. *)
Definition write_image_file (gamma_correction : color -> Z -> color)
    (opened : bool) (c : camera) : result (list Z) :=
  if opened then write_image gamma_correction c
  else let* _ := get_bitmap_data gamma_correction c in Fault NullStream.

(** ** The earlier, one-thread class

    The header opens with an earlier revision of the class, whose
    [render] takes the pixels row by row on the calling thread and writes
    them as text.  Its [ray_color] is the one above, word for word. *)

Module Sequential.

Record camera : Set := mk_camera {
  center : point3d;
  pixel00_loc : point3d;
  pixel_delta_u : vector3d;
  pixel_delta_v : vector3d;
  u : vector3d;
  v : vector3d;
  w : vector3d;
  image_width : Z;
  image_height : Z;
  samples_per_pixel : Z;
  max_depth : Z;
  vfov : float;
  lookfrom : point3d;
  lookat : point3d;
  vup : vector3d
}.

(** What [render] has written: the two numbers of the header of the
    image and the calls of [write_color] on [std::cout], and the
    percentages on [std::clog].  A percentage is printed as the conversion
    of a [double] gives it: [Ok n] for the number [n], and [Fault
    BadConversion] for the value, which the language leaves open, of a
    conversion that is undefined; nothing but the output depends on it.
    [write_color] is not part of the sources: a call is recorded with its
    arguments. *)
Record output : Set := mk_output {
  ppm_size : Z * Z;
  cout : list (color * Z);
  clog : list (result Z)
}.

Section Renderer.

Variables degrees_to_radians tan : float -> float.
Context {rng hittable hit_record : Type}.
Variable random_double : rng -> float * rng.
Variable hit : hittable -> ray -> interval -> option hit_record.
Variable scatter : hit_record -> ray -> rng -> option (color * ray) * rng.

Definition initialize (c : camera) : camera :=
  (* Setup viewport *)
  let center := lookfrom c in
  let focal_length := vlength (lookfrom c - lookat c) in
  let theta := degrees_to_radians (vfov c) in
  let h := tan (theta / 2)%float in
  let viewport_height := (2 * h * focal_length)%float in
  let viewport_width :=
    (viewport_height
     * (double_of_int (image_width c) / double_of_int (image_height c)))%float in
  (* The u, v, w unit basis vectors of the camera coordinate frame *)
  let w := unit_vector (lookfrom c - lookat c) in
  let u := unit_vector (cross (vup c) w) in
  let v := cross w u in
  (* The vectors across the horizontal and down the vertical viewport edges *)
  let viewport_u := (viewport_width *: u)%vec in
  let viewport_v := (viewport_height *: - v)%vec in
  (* The horizontal and vertical delta vectors from pixel to pixel *)
  let pixel_delta_u := (viewport_u /: double_of_int (image_width c))%vec in
  let pixel_delta_v := (viewport_v /: double_of_int (image_height c))%vec in
  (* The location of the upper left pixel *)
  let viewport_upper_left :=
    (center - (focal_length *: w) - viewport_u /: 2 - viewport_v /: 2)%vec in
  let pixel00_loc :=
    (viewport_upper_left + 0.5 *: (pixel_delta_u + pixel_delta_v))%vec in
  mk_camera center pixel00_loc pixel_delta_u pixel_delta_v u v w
    (image_width c) (image_height c) (samples_per_pixel c) (max_depth c)
    (vfov c) (lookfrom c) (lookat c) (vup c).

Definition pixel_sample_square (c : camera) (g : rng) : vector3d * rng :=
  let '(d1, g1) := random_double g in
  let px := (0.5 + d1)%float in
  let '(d2, g2) := random_double g1 in
  let py := (0.5 + d2)%float in
  ((px *: pixel_delta_u c) + (py *: pixel_delta_v c), g2)%vec.

(** A randomly sampled camera ray for the pixel location [i, j]. *)
Definition get_ray (c : camera) (i j : Z) (g : rng) : ray * rng :=
  let pixel_center :=
    (pixel00_loc c + (double_of_int i *: pixel_delta_u c)
     + (double_of_int j *: pixel_delta_v c))%vec in
  let '(sq, g1) := pixel_sample_square c g in
  let pixel_sample := (pixel_center + sq)%vec in
  let ray_origin := center c in
  let ray_direction := (pixel_sample - ray_origin)%vec in
  (mk_ray ray_origin ray_direction, g1).

(** One pass of the sample loop:
    [pixel_color += ray_color(get_ray(i, j), max_depth, world)]. *)
Definition render_sample (world : hittable) (c : camera) (i j : Z)
    (sample : Z) (s : color * rng) : result (color * rng) :=
  let '(pixel_color, g) := s in
  let '(r, g1) := get_ray c i j g in
  let* (col, g2) := ray_color hit scatter r (max_depth c) world g1 in
  Ok ((pixel_color + col)%vec, g2).

(** One pass of the column loop: the samples of a pixel from black on,
    then [write_color]. *)
Definition render_pixel (world : hittable) (c : camera) (j : Z) (i : Z)
    (s : output * rng) : result (output * rng) :=
  let '(out, g) := s in
  let* (pixel_color, g1) :=
    for_int 0 (samples_per_pixel c) (render_sample world c i j) (black, g) in
  Ok (mk_output (ppm_size out)
        (cout out ++ [(pixel_color, samples_per_pixel c)]) (clog out), g1).

(** One pass of the row loop: the percentage
    [(int)((double)(j) / (image_height - 1) * 100)] is printed, then the
    pixels of the row are rendered. *)
Definition render_row (world : hittable) (c : camera) (j : Z)
    (s : output * rng) : result (output * rng) :=
  let '(out, g) := s in
  let percentage :=
    int_of_double
      (double_of_int j / double_of_int (Int.sub (image_height c) 1)
       * 100)%float in
  let out1 := mk_output (ppm_size out) (cout out) (clog out ++ [percentage]) in
  for_int 0 (image_width c) (render_pixel world c j) (out1, g).

Definition render (world : hittable) (c : camera) (g : rng)
  : result (output * rng) :=
  let c1 := initialize c in
  for_int 0 (image_height c1) (render_row world c1)
    (mk_output (image_width c1, image_height c1) [] [], g).

End Renderer.

Arguments initialize degrees_to_radians tan c : assert.
Arguments get_ray {rng} random_double c i j g.
Arguments render_sample {rng hittable hit_record} random_double hit scatter
  world c i j sample s.
Arguments render_pixel {rng hittable hit_record} random_double hit scatter
  world c j i s.
Arguments render_row {rng hittable hit_record} random_double hit scatter
  world c j s.
Arguments render degrees_to_radians tan {rng hittable hit_record}
  random_double hit scatter world c g.

End Sequential.

(** ** A concrete setting

    Collaborators to run the engine with: a tape of draws for the random
    source, three one-object scenes, and the arithmetic of the utility
    header. *)

Module Scenario.

(** The random source as the tape of the draws to come; an empty tape
    draws [0.5]. *)
Definition tape : Set := list float.

Definition random_double (g : tape) : float * tape :=
  match g with
  | [] => (0.5%float, [])
  | d :: g' => (d, g')
  end.

(** A point of the unit disk from two draws, each mapped to [-1, 1) and
    halved so that no draw is rejected. *)
Definition random_in_unit_disk (g : tape) : vector3d * tape :=
  let '(a, g1) := random_double g in
  let '(b, g2) := random_double g1 in
  (vec (a - 0.5) (b - 0.5) 0, g2).

Definition pi : float := 0x1.921fb54442d18p+1.

Definition degrees_to_radians (degrees : float) : float :=
  (degrees * pi / 180)%float.

(** The tangent by the quotient of two polynomials (a Pade approximant),
    good to seven digits on the half angles of a field of view of up to
    ninety degrees. *)
Definition tan (t : float) : float :=
  let t2 := (t * t)%float in
  (t * (945 - 105 * t2 + t2 * t2) / (945 - 420 * t2 + 15 * (t2 * t2)))%float.

(** An empty scene, a hall of mirrors in which every ray hits a surface
    that reflects all of it, and a surface that absorbs every ray. *)
Inductive scene : Set := Empty | Mirrors | Absorber.

Definition hit (world : scene) (r : ray) (ray_t : interval) : option scene :=
  match world with
  | Empty => None
  | _ => Some world
  end.

Definition scatter (rec : scene) (r : ray) (g : tape)
  : option (color * ray) * tape :=
  match rec with
  | Mirrors => (Some (vec 1 1 1, mk_ray (origin r) (- direction r)%vec), g)
  | _ => (None, g)
  end.

(** Average over the samples, then the square root. *)
Definition gamma_correction (pixel : color) (spp : Z) : color :=
  let s := double_of_int spp in
  vec (PrimFloat.sqrt (x pixel / s)) (PrimFloat.sqrt (y pixel / s))
      (PrimFloat.sqrt (z pixel / s)).

(** A camera at the origin that looks down the negative [z] axis at a
    two by two image, one sample per pixel, one worker. *)
Definition small_camera : camera :=
  mk_camera black black black black black black black black black [] []
    2 2 1 2 90 (vec 0 0 0) (vec 0 0 (-1)) (vec 0 1 0) 0 1 1.

(** The same camera with the point it looks at moved into the eye. *)
Definition degenerate_camera : camera :=
  mk_camera black black black black black black black black black [] []
    2 2 1 2 90 (vec 0 0 0) (vec 0 0 0) (vec 0 1 0) 0 1 1.

(** The same camera asked to render with no thread. *)
Definition unthreaded_camera : camera :=
  mk_camera black black black black black black black black black [] []
    2 2 1 2 90 (vec 0 0 0) (vec 0 0 (-1)) (vec 0 1 0) 0 1 0.

(** [small_camera] as [initialize] leaves it, and as its worker leaves it
    when it has rendered the two rows of the empty scene with the draws of
    the empty tape. *)
Definition small_initialized : camera :=
  Eval vm_compute in
    match initialize degrees_to_radians tan small_camera with
    | Ok c => c
    | Fault _ => small_camera
    end.

Definition small_rendered : camera :=
  Eval vm_compute in
    match
      run_threads random_double random_in_unit_disk hit scatter Empty
        (spawn_threads small_initialized) (small_initialized, [])
    with
    | Ok (c, _) => c
    | Fault _ => small_camera
    end.

(** A camera with two workers for the five rows of three pixels of its
    image: the first worker gets two rows and the second three.  Then the
    camera as [initialize] leaves it, and as the first worker leaves it
    when it has rendered its rows of the empty scene. *)
Definition two_workers : camera :=
  mk_camera black black black black black black black black black [] []
    3 5 1 2 90 (vec 0 0 0) (vec 0 0 (-1)) (vec 0 1 0) 0 1 2.

Definition two_workers_initialized : camera :=
  Eval vm_compute in
    match initialize degrees_to_radians tan two_workers with
    | Ok c => c
    | Fault _ => two_workers
    end.

Definition two_workers_first_done : camera :=
  Eval vm_compute in
    match
      render_thread random_double random_in_unit_disk hit scatter Empty
        0 0 2 (two_workers_initialized, [])
    with
    | Ok (c, _) => c
    | Fault _ => two_workers
    end.

(** A camera whose rows of three pixels need three padding bytes each. *)
Definition three_by_two : camera :=
  mk_camera black black black black black black black black black
    (replicate 6 (vec 1 1 1)) []
    3 2 1 2 90 (vec 0 0 0) (vec 0 0 (-1)) (vec 0 1 0) 0 1 1.

(** [small_camera] as [render] hands it back for the empty scene. *)
Definition small_finished : camera :=
  Eval vm_compute in
    match
      render degrees_to_radians tan random_double random_in_unit_disk
        hit scatter 1 Empty small_camera []
    with
    | Ok (c, _) => c
    | Fault _ => small_camera
    end.



(** [small_camera] with an image of no row. *)
Definition no_row_camera : camera :=
  mk_camera black black black black black black black black black [] []
    2 0 1 2 90 (vec 0 0 0) (vec 0 0 (-1)) (vec 0 1 0) 0 1 1.

(** [no_row_camera] as [initialize] leaves it. *)
Definition no_row_initialized : camera :=
  Eval vm_compute in
    match initialize degrees_to_radians tan no_row_camera with
    | Ok c => c
    | Fault _ => no_row_camera
    end.

(** The same view for the one-thread class, on two rows of two pixels and
    on a single row. *)
Definition sequential_camera : Sequential.camera :=
  Sequential.mk_camera black black black black black black black
    2 2 1 2 90 (vec 0 0 0) (vec 0 0 (-1)) (vec 0 1 0).

Definition single_row_camera : Sequential.camera :=
  Sequential.mk_camera black black black black black black black
    2 1 1 2 90 (vec 0 0 0) (vec 0 0 (-1)) (vec 0 1 0).

End Scenario.

(** ** Notions the properties are stated with *)

(** The interval of admissible hit distances that [ray_color] asks for. *)
Definition ray_t : interval := mk_interval 0x1.0624dd2f1a9fcp-10 infinity.

(** The blend [(1-a)*(1,1,1) + a*(0.5,0.7,1.0)] with [a = 0.5*(y+1)], as a
    function of the vertical component [yd] alone. *)
Definition sky_blend (yd : float) : color :=
  let a := (0.5 * (yd + 1))%float in
  ((1 - a)%float *: vec 1 1 1 + a *: vec 0.5 0x1.6666666666666p-1 1)%vec.

(** The rows that the outer loop of [render_thread] visits for the
    arguments [t] of a worker. *)
Definition thread_rows (t : Z * Z * Z) : list Z :=
  let '(_, minRow, maxRow) := t in int_range minRow maxRow.

(** The slots [image[j * image_width + i]] that the loops of
    [render_thread] address for the arguments [t]. *)
Definition thread_slots (c : camera) (t : Z * Z * Z) : list Z :=
  j ← thread_rows t; (fun i => pixel_index c i j) <$> int_range 0 (image_width c).

(** Where the rows of worker [k] end when nothing wraps around: at the
    start of the next worker's rows, and at the last row for the last
    worker. *)
Definition row_end (c : camera) (k : Z) : Z :=
  if k <? max_threads c - 1
  then (k + 1) * (image_height c / max_threads c)
  else image_height c.

(** The value of the four bytes at [pos], [pos + 1], [pos + 2] and
    [pos + 3] read as a little-endian unsigned number. *)
Definition le32 (pos : nat) (bytes : list Z) : Z :=
  bytes !!! pos
  + 2 ^ 8 * bytes !!! (pos + 1)%nat
  + 2 ^ 16 * bytes !!! (pos + 2)%nat
  + 2 ^ 24 * bytes !!! (pos + 3)%nat.

(** The local [pixel_center] of [get_ray]: the centre of pixel [(i, j)]. *)
Definition pixel_center (c : camera) (i j : Z) : point3d :=
  (pixel00_loc c + (double_of_int i *: pixel_delta_u c)
   + (double_of_int j *: pixel_delta_v c))%vec.

(** The top-left corner of pixel [(i, j)]: [initialize] puts the centre of
    a pixel half a pixel to the right of and below its corner. *)
Definition pixel_corner (c : camera) (i j : Z) : point3d :=
  (pixel_center c i j - 0.5 *: (pixel_delta_u c + pixel_delta_v c))%vec.

(** Where a point [p] of the viewport lies with respect to a point
    [corner]: the multiples of [pixel_delta_u] and of [pixel_delta_v] that
    lead from [corner] to [p]. *)
Definition square_coordinates (c : camera) (corner p : point3d)
  : float * float :=
  let d := (p - corner)%vec in
  ((dot d (pixel_delta_u c) / dot (pixel_delta_u c) (pixel_delta_u c))%float,
   (dot d (pixel_delta_v c) / dot (pixel_delta_v c) (pixel_delta_v c))%float).

(** [p] is inside the square of one pixel whose top-left corner is
    [corner], sides included. *)
Definition in_square (c : camera) (corner p : point3d) : bool :=
  let '(s, t) := square_coordinates c corner p in
  ((0 <=? s) && (s <=? 1) && (0 <=? t) && (t <=? 1))%float.

(** The footprint of pixel [(i, j)]: the square at its corner. *)
Definition in_footprint (c : camera) (i j : Z) (p : point3d) : bool :=
  in_square c (pixel_corner c i j) p.

(** The fields of the camera other than [image] and [render_progress]. *)
Definition same_settings (c1 c2 : camera) : Prop :=
  set_render_progress [] (set_image [] c1)
  = set_render_progress [] (set_image [] c2).

(** What the worker with the arguments [t] keeps of a camera [c0]: the
    settings, the sizes of the two vectors, the slots of the image that are
    not among its own, and the progress counters of the other workers. *)
Definition kept (c0 : camera) (t : Z * Z * Z) (c1 : camera) : Prop :=
  same_settings c0 c1
  /\ length (image c1) = length (image c0)
  /\ length (render_progress c1) = length (render_progress c0)
  /\ (forall n : nat,
        Z.of_nat n ∉ thread_slots c0 t -> image c1 !! n = image c0 !! n)
  /\ (forall n : nat,
        Z.of_nat n <> t.1.1 -> render_progress c1 !! n = render_progress c0 !! n).

(** The number of rows that the counters say are rendered. *)
Definition rows_done (progress : list Z) : Z := foldr Z.add 0 progress.

(** A camera that [render] can be called on: sizes that are [int]s, at
    least one row and one thread. *)
Definition renderable (c : camera) : Prop :=
  Int.in_range (image_height c) /\ 1 <= image_height c
  /\ 0 <= image_width c
  /\ Int.in_range (image_height c * image_width c)
  /\ Int.in_range (max_threads c) /\ 1 <= max_threads c
  /\ Int.in_range (max_depth c).

(** The rows that are rendered when the workers before worker [k] are
    done. *)
Definition rows_before (c : camera) (k : Z) : Z :=
  if k <? max_threads c
  then k * (image_height c / max_threads c)
  else image_height c.

(** A camera that [initialize] has made ready for the workers: sizes that
    are [int]s, at least one row and one thread, and the two vectors
    sized and cleared for them. *)
Definition ready (c1 : camera) : Prop :=
  Int.in_range (image_height c1) /\ 1 <= image_height c1
  /\ 0 <= image_width c1
  /\ Int.in_range (image_height c1 * image_width c1)
  /\ Int.in_range (max_threads c1) /\ 1 <= max_threads c1
  /\ Int.in_range (max_depth c1)
  /\ length (image c1) = Z.to_nat (image_height c1 * image_width c1)
  /\ render_progress c1 = replicate (Z.to_nat (max_threads c1)) 0.

(** The state [c] of a render that started from [c1], with [done] rows
    rendered so far. *)
Definition rendering (c1 : camera) (done : Z) (c : camera) : Prop :=
  same_settings c1 c
  /\ length (image c) = length (image c1)
  /\ length (render_progress c) = length (render_progress c1)
  /\ Forall (fun n => 0 <= n) (render_progress c)
  /\ rows_done (render_progress c) = done.

(** ** Notions the further properties are stated with *)

(** The colours of [n] samples of pixel [(i, j)], in the order of the
    sample loop: for each sample a ray from [get_ray], followed by
    [ray_color] with the budget [max_depth]. *)
Fixpoint sample_colours {rng hittable hit_record : Type}
    (random_double : rng -> float * rng)
    (random_in_unit_disk : rng -> vector3d * rng)
    (hit : hittable -> ray -> interval -> option hit_record)
    (scatter : hit_record -> ray -> rng -> option (color * ray) * rng)
    (world : hittable) (c : camera) (i j : Z) (n : nat) (g : rng)
  : result (list color * rng) :=
  match n with
  | O => Ok ([], g)
  | S n' =>
      let '(r, g1) := get_ray random_double random_in_unit_disk c i j g in
      let* (col, g2) := ray_color hit scatter r (max_depth c) world g1 in
      let* (cols, g3) :=
        sample_colours random_double random_in_unit_disk hit scatter
          world c i j n' g2 in
      Ok (col :: cols, g3)
  end.

(** A path of light: from the ray [r] the scene is hit and the material
    scatters, once for each attenuation of the list, down to the ray
    [r']. *)
Inductive bounces {rng hittable hit_record : Type}
    (hit : hittable -> ray -> interval -> option hit_record)
    (scatter : hit_record -> ray -> rng -> option (color * ray) * rng)
    (world : hittable)
  : ray -> rng -> list color -> ray -> rng -> Prop :=
  | bounces_done (r : ray) (g : rng) :
      bounces hit scatter world r g [] r g
  | bounces_more (r r1 r' : ray) (g g1 g' : rng) (rec : hit_record)
      (attenuation : color) (attenuations : list color) :
      hit world r ray_t = Some rec ->
      scatter rec r g = (Some (attenuation, r1), g1) ->
      bounces hit scatter world r1 g1 attenuations r' g' ->
      bounces hit scatter world r g (attenuation :: attenuations) r' g'.

(** The slot of pixel [(i, j)] of the image [img] holds the sum, from
    black on, of the colours of [samples_per_pixel] samples of that pixel
    taken with the geometry of the camera [c1], from some state [g0] of
    the random source on. *)
Definition sampled {rng hittable hit_record : Type}
    (random_double : rng -> float * rng)
    (random_in_unit_disk : rng -> vector3d * rng)
    (hit : hittable -> ray -> interval -> option hit_record)
    (scatter : hit_record -> ray -> rng -> option (color * ray) * rng)
    (world : hittable) (c1 : camera) (img : list color) (i j : Z) : Prop :=
  exists (g0 g1 : rng) (cols : list color),
    sample_colours random_double random_in_unit_disk hit scatter
      world c1 i j (Z.to_nat (samples_per_pixel c1)) g0 = Ok (cols, g1)
    /\ length cols = Z.to_nat (samples_per_pixel c1)
    /\ img !! Z.to_nat (j * image_width c1 + i) = Some (foldl vadd black cols).

(** The image of [c] when the slots below [n] are rendered and the
    others are still black. *)
Definition painted {rng hittable hit_record : Type}
    (random_double : rng -> float * rng)
    (random_in_unit_disk : rng -> vector3d * rng)
    (hit : hittable -> ray -> interval -> option hit_record)
    (scatter : hit_record -> ray -> rng -> option (color * ray) * rng)
    (world : hittable) (c1 : camera) (n : Z) (c : camera) : Prop :=
  same_settings c1 c
  /\ (forall i j : Z,
        0 <= i < image_width c1 -> 0 <= j ->
        j * image_width c1 + i < n ->
        sampled random_double random_in_unit_disk hit scatter
          world c1 (image c) i j)
  /\ (forall m : Z,
        n <= m < image_height c1 * image_width c1 ->
        image c !! Z.to_nat m = Some black).


(** Whether the point that [get_ray] samples for pixel [(i, j)], with the
    draws [du] and [dv], lies in the footprint of pixel [(i', j')]. *)
Definition sample_lands (c : camera) (i j i' j' : Z) (du dv : float) : bool :=
  in_footprint c i' j'
    (fst (pixel_sample Scenario.random_double c i j [du; dv])).

(** * Properties *)

(** ** Arithmetic of [int] *)

(** The bounds of the [int]s, for [lia] and [nia]. *)
Ltac int_bounds := unfold Int.in_range, Int.min_int, Int.max_int in *.

(** A closed instance of [Int.in_range]. *)
Ltac int_literal := vm_compute; split; discriminate.

Section IntFacts.

Lemma wrap_id (n : Z) : Int.in_range n -> Int.wrap n = n.
Proof.
  unfold Int.in_range, Int.wrap, Int.min_int, Int.max_int. intros Hn.
  rewrite Z.mod_small by lia. lia.
Qed.

Lemma wrap_in_range (n : Z) : Int.in_range (Int.wrap n).
Proof.
  unfold Int.in_range, Int.wrap, Int.min_int, Int.max_int.
  pose proof (Z.mod_pos_bound (n + 2 ^ 31) (2 ^ 32) ltac:(lia)). lia.
Qed.

Lemma wrap_mod (n : Z) : Int.wrap n mod 2 ^ 32 = n mod 2 ^ 32.
Proof.
  unfold Int.wrap.
  replace (n + 2 ^ 31) with (n - 2 ^ 31 + 1 * 2 ^ 32) by lia.
  rewrite Z.mod_add by lia.
  rewrite Zminus_mod_idemp_l.
  replace (n - 2 ^ 31 - 2 ^ 31) with (n + (- 1) * 2 ^ 32) by lia.
  apply Z.mod_add. lia.
Qed.

End IntFacts.

(** ** The integrator *)

Section RayColor.

Context {rng hittable hit_record : Type}.
Variable hit : hittable -> ray -> interval -> option hit_record.
Variable scatter : hit_record -> ray -> rng -> option (color * ray) * rng.

(** C2: with a budget [depth <= 0], [ray_color] returns black, whatever
    the scene and the ray are, and draws nothing from the random source. *)
Theorem ray_color_exhausted_is_black
    (r : ray) (depth : Z) (world : hittable) (g : rng) :
  depth <= 0 ->
  ray_color hit scatter r depth world g = Ok (black, g).
Proof.
  intros Hd. unfold ray_color. cbn [ray_color_fuel].
  destruct (Z.leb_spec depth 0); [reflexivity | lia].
Qed.

(** C3: a ray that hits nothing, followed with a budget [depth > 0], gets
    the blend [sky_blend] of the vertical component of its normalised
    direction; two such rays with the same component get the same colour,
    whatever else differs between the two calls. *)
Theorem ray_color_miss_is_sky_blend
    (r : ray) (depth : Z) (world : hittable) (g : rng) :
  0 < depth ->
  hit world r ray_t = None ->
  ray_color hit scatter r depth world g
    = Ok (sky_blend (y (unit_vector (direction r))), g)
  /\ forall (r' : ray) (depth' : Z) (world' : hittable) (g' : rng),
      0 < depth' ->
      hit world' r' ray_t = None ->
      y (unit_vector (direction r')) = y (unit_vector (direction r)) ->
      exists col : color,
        ray_color hit scatter r' depth' world' g' = Ok (col, g')
        /\ ray_color hit scatter r depth world g = Ok (col, g).
Proof.
  assert (miss : forall r0 d0 w0 g0, 0 < d0 -> hit w0 r0 ray_t = None ->
            ray_color hit scatter r0 d0 w0 g0
              = Ok (sky_blend (y (unit_vector (direction r0))), g0)).
  { intros r0 d0 w0 g0 Hd Hh. unfold ray_color. cbn [ray_color_fuel].
    destruct (Z.leb_spec d0 0); [lia |].
    fold ray_t. rewrite Hh. reflexivity. }
  intros Hd Hh. split; [now apply miss |].
  intros r' depth' world' g' Hd' Hh' Hy.
  exists (sky_blend (y (unit_vector (direction r)))). split.
  - rewrite <- Hy. now apply miss.
  - now apply miss.
Qed.

(** The equations of the evaluator. *)
Lemma ray_color_fuel_exhausted (n : nat) (r : ray) (depth : Z)
    (world : hittable) (g : rng) :
  depth <= 0 -> ray_color_fuel hit scatter (S n) r depth world g = Ok (black, g).
Proof.
  intros Hd. cbn [ray_color_fuel].
  destruct (Z.leb_spec depth 0); [reflexivity | lia].
Qed.

Lemma ray_color_fuel_bounce (n : nat) (r : ray) (depth : Z)
    (world : hittable) (g : rng) rec attenuation scattered g1 :
  0 < depth -> Int.in_range depth ->
  hit world r ray_t = Some rec ->
  scatter rec r g = (Some (attenuation, scattered), g1) ->
  ray_color_fuel hit scatter (S n) r depth world g
    = let* (c, g2) := ray_color_fuel hit scatter n scattered (depth - 1) world g1 in
      Ok (cmul attenuation c, g2).
Proof.
  intros Hd Hr Hh Hs. cbn [ray_color_fuel].
  destruct (Z.leb_spec depth 0); [lia |].
  fold ray_t. rewrite Hh, Hs.
  unfold Int.sub. rewrite wrap_id; [reflexivity |].
  int_bounds. lia.
Qed.

(** With [n] activations more than the budget, the call returns. *)
Lemma ray_color_fuel_returns (n : nat) :
  forall (r : ray) (depth : Z) (world : hittable) (g : rng),
    Int.in_range depth -> depth <= Z.of_nat n ->
    exists (col : color) (g' : rng),
      forall extra : nat,
        ray_color_fuel hit scatter (S (n + extra)) r depth world g
          = Ok (col, g').
Proof.
  induction n as [| n IH]; intros r depth world g Hr Hd.
  - exists black, g. intros extra. apply ray_color_fuel_exhausted. lia.
  - destruct (Z.leb_spec depth 0) as [Hle | Hgt].
    { exists black, g. intros extra. now apply ray_color_fuel_exhausted. }
    destruct (hit world r ray_t) as [rec |] eqn:Hh.
    + destruct (scatter rec r g) as [[[attenuation scattered] |] g1] eqn:Hs.
      * destruct (IH scattered (depth - 1) world g1) as (c & g2 & Hrec).
        { int_bounds. lia. }
        { lia. }
        exists (cmul attenuation c), g2. intros extra.
        replace (S (S n + extra)) with (S (S (n + extra))) by lia.
        rewrite (ray_color_fuel_bounce _ _ _ _ _ _ _ _ _ Hgt Hr Hh Hs).
        rewrite Hrec. reflexivity.
      * exists black, g1. intros extra. cbn [ray_color_fuel].
        destruct (Z.leb_spec depth 0); [lia |].
        fold ray_t. rewrite Hh, Hs. reflexivity.
    + exists (sky_blend (y (unit_vector (direction r)))), g. intros extra. cbn [ray_color_fuel].
      destruct (Z.leb_spec depth 0); [lia |].
      fold ray_t. rewrite Hh. reflexivity.
Qed.

(** C5: for every ray, scene and budget [d], [ray_color] returns, and it
    does so within [d] nested recursive calls: the outermost activation
    and [max 0 d] more are enough, and more make no difference.  A
    recursive call is made with budget [d - 1]; a call with an exhausted
    budget is a single activation. *)
Theorem ray_color_terminates
    (r : ray) (d : Z) (world : hittable) (g : rng) :
  Int.in_range d ->
  (exists (col : color) (g' : rng),
      ray_color hit scatter r d world g = Ok (col, g')
      /\ forall fuel : nat,
          (Z.to_nat d < fuel)%nat ->
          ray_color_fuel hit scatter fuel r d world g = Ok (col, g'))
  /\ (forall n rec attenuation scattered g1,
        0 < d ->
        hit world r ray_t = Some rec ->
        scatter rec r g = (Some (attenuation, scattered), g1) ->
        ray_color_fuel hit scatter (S n) r d world g
          = let* (c, g2) :=
              ray_color_fuel hit scatter n scattered (d - 1) world g1 in
            Ok (cmul attenuation c, g2))
  /\ (d <= 0 -> ray_color_fuel hit scatter 1 r d world g = Ok (black, g)).
Proof.
  intros Hr. split; [| split].
  - destruct (ray_color_fuel_returns (Z.to_nat d) r d world g Hr ltac:(lia))
      as (col & g' & Hall).
    exists col, g'. split.
    + unfold ray_color. specialize (Hall O).
      now rewrite Nat.add_0_r in Hall.
    + intros fuel Hf.
      replace fuel with (S (Z.to_nat d + (fuel - S (Z.to_nat d)))) by lia.
      apply Hall.
  - intros n rec attenuation scattered g1 Hd Hh Hs.
    exact (ray_color_fuel_bounce n r d world g _ _ _ _ Hd Hr Hh Hs).
  - intros Hd. now apply ray_color_fuel_exhausted.
Qed.

End RayColor.

(** ** Loops *)

Section Loops.

Lemma elem_of_int_range (lo hi k : Z) : k ∈ int_range lo hi <-> lo <= k < hi.
Proof. unfold int_range. rewrite elem_of_seqZ. lia. Qed.


Lemma length_int_range (lo hi : Z) : length (int_range lo hi) = Z.to_nat (hi - lo).
Proof. apply length_seqZ. Qed.

(** What holds before a loop and is kept by every pass holds after it. *)
Lemma for_each_invariant {S : Type} (P : S -> Prop) (ks : list Z)
    (body : Z -> S -> result S) :
  (forall k s s', k ∈ ks -> P s -> body k s = Ok s' -> P s') ->
  forall s s', P s -> for_each ks body s = Ok s' -> P s'.
Proof.
  induction ks as [| k ks IH]; intros Hbody s s' Hs Hrun; cbn in Hrun.
  - congruence.
  - destruct (body k s) as [s1 | f] eqn:Hk; cbn in Hrun; [| discriminate].
    apply (IH (fun k' t t' Hin => Hbody k' t t' (list_elem_of_further _ _ _ Hin)) s1 s');
      [| assumption].
    apply (Hbody k s s1); [left | assumption | assumption].
Qed.

Lemma for_int_invariant {S : Type} (P : S -> Prop) (lo hi : Z)
    (body : Z -> S -> result S) :
  (forall k s s', lo <= k < hi -> P s -> body k s = Ok s' -> P s') ->
  forall s s', P s -> for_int lo hi body s = Ok s' -> P s'.
Proof.
  intros Hbody. apply for_each_invariant.
  intros k s s' Hin. apply Hbody. now apply elem_of_int_range.
Qed.

End Loops.

(** ** The row partition of [render] *)

Section Partition.

Variable c : camera.

Let H := image_height c.
Let T := max_threads c.
Let W := image_width c.

Hypothesis H_int : Int.in_range H.
Hypothesis T_int : Int.in_range T.
Hypothesis H_pos : 1 <= H.
Hypothesis T_pos : 1 <= T.

Let offset := H / T.

Lemma offset_bounds : 0 <= offset /\ offset * T <= H < offset * T + T.
Proof.
  unfold offset.
  pose proof (Z.mul_div_le H T ltac:(lia)).
  pose proof (Z.mul_succ_div_gt H T ltac:(lia)).
  pose proof (Z.div_pos H T ltac:(lia) ltac:(lia)).
  lia.
Qed.

(** The arguments of worker [k], without the wrap-around. *)
Lemma thread_args_exact (k : Z) :
  0 <= k < T ->
  thread_args c k
    = (k, k * offset, if k <? T - 1 then (k + 1) * offset else H).
Proof.
  intros Hk. pose proof offset_bounds as Ho.
  int_bounds.
  unfold thread_args. fold H T.
  assert (Hdiv : Int.div H T = offset).
  { unfold Int.div. rewrite Z.quot_div_nonneg by lia. fold offset.
    apply wrap_id. int_bounds. nia. }
  rewrite Hdiv.
  assert (Hmul : Int.mul k offset = k * offset).
  { apply wrap_id. int_bounds. nia. }
  rewrite Hmul.
  assert (Hsub : Int.sub T 1 = T - 1).
  { apply wrap_id. int_bounds. lia. }
  rewrite Hsub.
  destruct (Z.ltb_spec k (T - 1)); [| reflexivity].
  assert (Hadd : Int.add (k * offset) offset = (k + 1) * offset).
  { unfold Int.add. rewrite wrap_id; [lia |].
    int_bounds. nia. }
  now rewrite Hadd.
Qed.


Let upper := row_end c.


Lemma upper_bounds (k : Z) :
  0 <= k < T -> k * offset <= upper k <= H.
Proof.
  intros Hk. pose proof offset_bounds. unfold upper, row_end. fold H T offset.
  destruct (Z.ltb_spec k (T - 1)); nia.
Qed.





(** The slot of a pixel of the image, without the wrap-around. *)
Lemma pixel_index_exact (i j : Z) :
  Int.in_range (H * W) -> 0 <= j < H -> 0 <= i < W ->
  pixel_index c i j = j * W + i.
Proof.
  intros Hr Hj Hi. unfold pixel_index, Int.add, Int.mul. fold W.
  int_bounds.
  assert (Int.wrap (j * W) = j * W) as ->.
  { apply wrap_id. int_bounds. nia. }
  apply wrap_id. int_bounds. nia.
Qed.

Lemma elem_of_thread_slots (t : Z * Z * Z) (p : Z) :
  p ∈ thread_slots c t
  <-> exists j i, j ∈ thread_rows t /\ 0 <= i < W /\ p = pixel_index c i j.
Proof.
  unfold thread_slots. rewrite list_elem_of_bind. fold W. split.
  - intros (j & Hp & Hj). apply list_elem_of_fmap in Hp as (i & -> & Hi).
    apply elem_of_int_range in Hi. now exists j, i.
  - intros (j & i & Hj & Hi & ->). exists j. split; [| assumption].
    apply list_elem_of_fmap. exists i. split; [reflexivity |].
    now apply elem_of_int_range.
Qed.

End Partition.

(** ** What a worker writes *)

Section Worker.

Context {rng hittable hit_record : Type}.
Variable random_double : rng -> float * rng.
Variable random_in_unit_disk : rng -> vector3d * rng.
Variable hit : hittable -> ray -> interval -> option hit_record.
Variable scatter : hit_record -> ray -> rng -> option (color * ray) * rng.

(** A successful access [v[i]] is inside [v]. *)
Lemma vector_update_ok {A : Type} (i : Z) (f : A -> A) (v v' : list A) :
  Vector.update i f v = Ok v' ->
  exists a, 0 <= i /\ v !! Z.to_nat i = Some a /\ v' = <[Z.to_nat i := f a]> v.
Proof.
  unfold Vector.update, Vector.get.
  destruct (Z.ltb_spec i 0); cbn; [discriminate |].
  destruct (v !! Z.to_nat i) as [a |] eqn:E; cbn; [| discriminate].
  intros [= <-]. now exists a.
Qed.

Lemma kept_refl (c0 : camera) (t : Z * Z * Z) : kept c0 t c0.
Proof. repeat split; reflexivity. Qed.

Lemma same_settings_fields (c1 c2 : camera) :
  same_settings c1 c2 ->
  image_width c1 = image_width c2
  /\ samples_per_pixel c1 = samples_per_pixel c2.
Proof.
  unfold same_settings, set_render_progress, set_image. cbn.
  intros E. now inversion E.
Qed.

Lemma render_sample_kept (world : hittable) (c0 : camera) (t : Z * Z * Z)
    (i j sample : Z) (s s' : camera * rng) :
  j ∈ thread_rows t -> 0 <= i < image_width c0 ->
  kept c0 t (fst s) ->
  render_sample random_double random_in_unit_disk hit scatter
    world i j sample s = Ok s' ->
  kept c0 t (fst s').
Proof.
  intros Hj Hi (Hset & Hlen & Hlenp & Himg & Hpr) Hrun.
  destruct s as [c1 g]. cbn [fst] in *. unfold render_sample in Hrun.
  destruct (get_ray _ _ c1 i j g) as [r g1].
  destruct (ray_color hit scatter r (max_depth c1) world g1)
    as [[col g2] | f]; cbn in Hrun; [| discriminate].
  destruct (Vector.update _ _ (image c1)) as [img | f] eqn:Hup;
    cbn in Hrun; [| discriminate].
  injection Hrun as <-. cbn [fst].
  apply vector_update_ok in Hup as (a & Hpos & Ha & ->).
  destruct (same_settings_fields _ _ Hset) as [Hw _].
  repeat split.
  - unfold same_settings in *. rewrite Hset. reflexivity.
  - cbn. now rewrite length_insert.
  - assumption.
  - intros n Hn. cbn. rewrite list_lookup_insert_ne; [now apply Himg |].
    intros <-. apply Hn. rewrite Z2Nat.id by assumption.
    apply elem_of_thread_slots. exists j, i.
    split; [assumption |]. split; [assumption |].
    unfold pixel_index. now rewrite Hw.
  - intros n Hn. cbn. now apply Hpr.
Qed.



End Worker.

(** ** The rows and the slots of the workers *)

Section RenderPartition.

Context {rng hittable hit_record : Type}.
Variable random_double : rng -> float * rng.
Variable random_in_unit_disk : rng -> vector3d * rng.
Variable hit : hittable -> ray -> interval -> option hit_record.
Variable scatter : hit_record -> ray -> rng -> option (color * ray) * rng.



End RenderPartition.

(** ** C9: the size field of the bitmap header *)

Section Bitmap.

Variable gamma_correction : color -> Z -> color.

(** The four bytes that [store_int] writes hold [n] modulo [2^32]. *)
Lemma le32_store_int (pos : nat) (n : Z) (bytes : list Z) :
  (pos + 3 < length bytes)%nat ->
  le32 pos (store_int pos n bytes) = n mod 2 ^ 32.
Proof.
  intros Hlen. unfold le32, store_int.
  rewrite !list_lookup_total_alt.
  rewrite list_lookup_insert_ne by lia.
  rewrite list_lookup_insert_ne by lia.
  rewrite list_lookup_insert_ne by lia.
  rewrite list_lookup_insert_eq by lia.
  rewrite (list_lookup_insert_ne _ (pos + 3)) by lia.
  rewrite (list_lookup_insert_ne _ (pos + 2)) by lia.
  rewrite list_lookup_insert_eq by (rewrite length_insert; lia).
  rewrite (list_lookup_insert_ne _ (pos + 3)) by lia.
  rewrite list_lookup_insert_eq by (rewrite !length_insert; lia).
  rewrite list_lookup_insert_eq by (rewrite !length_insert; lia).
  cbn [default from_option id].
  unfold Int.to_uchar, Int.shr. rewrite !Z.shiftr_div_pow2 by lia.
  change (2 ^ 32) with (2 ^ 8 * (2 ^ 8 * (2 ^ 8 * 2 ^ 8))).
  rewrite !Z.rem_mul_r by lia.
  change (2 ^ 16) with (2 ^ 8 * 2 ^ 8).
  change (2 ^ 24) with (2 ^ 8 * (2 ^ 8 * 2 ^ 8)).
  rewrite <- !Z.div_div by lia.
  change (2 ^ 8) with 256. lia.
Qed.

Lemma file_size_mod (c : camera) :
  file_size c mod 2 ^ 32
  = (54 + 3 * image_width c * image_height c) mod 2 ^ 32.
Proof.
  unfold file_size, Int.add, Int.mul. rewrite wrap_mod.
  rewrite Z.add_mod by lia. rewrite wrap_mod.
  rewrite (Z.mul_mod (Int.wrap _)) by lia. rewrite wrap_mod.
  rewrite <- Z.mul_mod by lia. rewrite <- Z.add_mod by lia. reflexivity.
Qed.

Lemma row_padding_bounds (c : camera) : 0 <= row_padding c <= 3.
Proof.
  unfold row_padding, Int.rem, Int.sub, Int.mul.
  set (n := Int.wrap (image_width c * 3)).
  assert (Hr : - 3 <= Z.rem n 4 <= 3).
  { destruct (Z.le_ge_cases 0 n) as [Hn | Hn].
    - pose proof (Z.rem_bound_pos n 4 Hn ltac:(lia)). lia.
    - pose proof (Z.rem_bound_pos_neg n 4 ltac:(lia) Hn). lia. }
  rewrite (wrap_id (Z.rem n 4))
    by (int_bounds; lia).
  rewrite (wrap_id (4 - Z.rem n 4))
    by (int_bounds; lia).
  pose proof (Z.rem_bound_pos (4 - Z.rem n 4) 4 ltac:(lia) ltac:(lia)).
  rewrite wrap_id by (int_bounds; lia).
  lia.
Qed.

Lemma read_block_length (off n : Z) (data row : list Z) :
  read_block off n data = Ok row -> 0 <= n /\ Z.of_nat (length row) = n.
Proof.
  unfold read_block.
  destruct (Z.leb_spec 0 off); cbn; [| discriminate].
  destruct (Z.leb_spec 0 n); cbn; [| discriminate].
  destruct (Z.leb_spec (off + n) (Z.of_nat (length data))); [| discriminate].
  intros [= <-]. rewrite length_take, length_drop. lia.
Qed.

(** The row loop appends to the file, a row and its padding per pass. *)
Lemma write_rows_append (c : camera) (data : list Z) (ks : list Z) :
  forall file file' : list Z,
    for_each ks (write_row c data) file = Ok file' ->
    exists rows : list Z,
      file' = file ++ rows
      /\ Z.of_nat (length rows)
         = Z.of_nat (length ks) * (3 * image_width c + row_padding c).
Proof.
  pose proof (row_padding_bounds c) as Hp.
  induction ks as [| k ks IH]; intros file file' Hrun; cbn in Hrun.
  - injection Hrun as <-. exists []. now rewrite app_nil_r.
  - unfold write_row at 1 in Hrun.
    destruct (read_block _ _ data) as [row | f] eqn:Hrow; cbn in Hrun;
      [| discriminate].
    apply read_block_length in Hrow as [Hn Hlen].
    destruct (IH _ _ Hrun) as (rows & -> & Hrows).
    exists ((row ++ replicate (Z.to_nat (row_padding c)) 0) ++ rows).
    split; [now rewrite <- !app_assoc |].
    rewrite !length_app, length_replicate. cbn [length]. lia.
Qed.

Lemma le32_app (pos : nat) (l1 l2 : list Z) :
  (pos + 3 < length l1)%nat -> le32 pos (l1 ++ l2) = le32 pos l1.
Proof.
  intros Hlen. unfold le32. rewrite !list_lookup_total_alt.
  now rewrite !lookup_app_l by lia.
Qed.

(** C9: the four bytes of the size field of the header, read as a
    little-endian number, are [54 + 3 * image_width * image_height]
    reduced modulo [2^32], hence exactly that number whenever it is a
    non-negative [int]; they stand at offset 2 of the file that
    [write_image] writes, and they do not count the padding: the file is
    longer than the field says by [row_padding] bytes for every row. *)
Theorem file_size_field (c : camera) :
  le32 2 (bmp_header c)
    = (54 + 3 * image_width c * image_height c) mod 2 ^ 32
  /\ (0 <= 54 + 3 * image_width c * image_height c <= Int.max_int ->
      le32 2 (bmp_header c) = 54 + 3 * image_width c * image_height c)
  /\ (forall file : list Z,
        write_image gamma_correction c = Ok file ->
        0 <= image_height c ->
        0 <= 54 + 3 * image_width c * image_height c <= Int.max_int ->
        le32 2 file = 54 + 3 * image_width c * image_height c
        /\ Z.of_nat (length file)
           = le32 2 file + image_height c * row_padding c
        /\ 0 <= row_padding c <= 3).
Proof.
  assert (Hfield : le32 2 (bmp_header c)
                   = (54 + 3 * image_width c * image_height c) mod 2 ^ 32).
  { unfold bmp_header. rewrite le32_store_int by (cbn; lia).
    apply file_size_mod. }
  assert (Hexact : 0 <= 54 + 3 * image_width c * image_height c <= Int.max_int ->
                   le32 2 (bmp_header c)
                   = 54 + 3 * image_width c * image_height c).
  { intros Hr. rewrite Hfield. apply Z.mod_small.
    unfold Int.max_int in Hr. lia. }
  split; [exact Hfield |]. split; [exact Hexact |].
  intros file Hrun HH Hr. unfold write_image in Hrun.
  destruct (get_bitmap_data gamma_correction c) as [data | f];
    cbn [bind] in Hrun; [| discriminate].
  unfold for_int in Hrun.
  apply write_rows_append in Hrun as (rows & -> & Hrows).
  rewrite length_int_range, Z2Nat.id in Hrows by lia.
  assert (Hh : length (bmp_header c) = 14%nat).
  { unfold bmp_header, store_int. now rewrite !length_insert. }
  assert (Hi : length (bmp_info c) = 40%nat).
  { unfold bmp_info, store_int. now rewrite !length_insert. }
  assert (Hle : le32 2 ((bmp_header c ++ bmp_info c) ++ rows)
                = 54 + 3 * image_width c * image_height c).
  { rewrite <- app_assoc, le32_app by lia. now apply Hexact. }
  split; [exact Hle |]. split; [| apply row_padding_bounds].
  rewrite Hle, !length_app, Hh, Hi. lia.
Qed.

End Bitmap.

(** ** C10: [initialize] clears the image and the counters *)

Section Initialize.

Variable degrees_to_radians : float -> float.
Variable tan : float -> float.

Context {rng hittable hit_record : Type}.
Variable random_double : rng -> float * rng.
Variable random_in_unit_disk : rng -> vector3d * rng.
Variable hit : hittable -> ray -> interval -> option hit_record.
Variable scatter : hit_record -> ray -> rng -> option (color * ray) * rng.

(** [resize] followed by [fill] forgets what the vector held. *)
Lemma resize_fill {A : Type} (n : Z) (d a : A) (v : list A) :
  (let* v0 := Vector.resize n d v in Ok (Vector.fill a v0))
  = if n <? 0 then Fault LengthError else Ok (replicate (Z.to_nat n) a).
Proof.
  unfold Vector.resize, Vector.fill.
  destruct (Z.ltb_spec n 0); cbn [bind]; [reflexivity |].
  do 2 f_equal. rewrite length_app, length_take, length_replicate. lia.
Qed.

Lemma initialize_vectors (c c1 : camera) :
  initialize degrees_to_radians tan c = Ok c1 ->
  image c1
    = replicate (Z.to_nat (Int.mul (image_height c) (image_width c))) black
  /\ render_progress c1 = replicate (Z.to_nat (max_threads c)) 0
  /\ 0 <= Int.mul (image_height c) (image_width c)
  /\ 0 <= max_threads c
  /\ max_threads c1 = (if 0 <? max_threads c then max_threads c else 1)
  /\ image_height c1 = image_height c
  /\ image_width c1 = image_width c.
Proof.
  unfold initialize, Vector.resize.
  destruct (Z.ltb_spec (Int.mul (image_height c) (image_width c)) 0);
    cbn [bind]; [discriminate |].
  destruct (Z.ltb_spec (max_threads c) 0); cbn [bind]; [discriminate |].
  intros [= <-]. cbn. unfold Vector.fill.
  rewrite !length_app, !length_take, !length_replicate.
  repeat split; try assumption; f_equal; lia.
Qed.

(** [initialize] does not read [image] or [render_progress]. *)
Lemma initialize_forgets (c : camera) (img : list color) (pr : list Z) :
  initialize degrees_to_radians tan (set_render_progress pr (set_image img c))
  = initialize degrees_to_radians tan c.
Proof.
  unfold initialize. cbn.
  pose proof (resize_fill (Int.mul (image_height c) (image_width c))
                black black) as Hi.
  pose proof (resize_fill (max_threads c) 0 0) as Hp.
  unfold Vector.resize, Vector.fill in *.
  destruct (Z.ltb_spec (Int.mul (image_height c) (image_width c)) 0);
    cbn [bind] in *; [reflexivity |].
  destruct (Z.ltb_spec (max_threads c) 0); cbn [bind] in *; [reflexivity |].
  specialize (Hi img) as Hi1. specialize (Hi (image c)) as Hi2.
  specialize (Hp pr) as Hp1. specialize (Hp (render_progress c)) as Hp2.
  injection Hi1 as ->. injection Hi2 as ->.
  injection Hp1 as ->. injection Hp2 as ->.
  reflexivity.
Qed.

(** C10: when [render] gets to spawn its workers, every slot of [image]
    is black and every progress counter is [0], whatever the two vectors
    held when [render] was called: the state the workers start from, and
    with it the outcome of the call, is the same for a camera that has
    rendered before as for one that has not. *)
Theorem render_starts_from_black (c c1 : camera) (threads : list (Z * Z * Z)) :
  render_spawn degrees_to_radians tan c = Ok (c1, threads) ->
  (forall (n : nat) (p : color), image c1 !! n = Some p -> p = black)
  /\ length (image c1)
     = Z.to_nat (Int.mul (image_height c) (image_width c))
  /\ (forall (n : nat) (k : Z), render_progress c1 !! n = Some k -> k = 0)
  /\ (forall (img : list color) (pr : list Z),
        render_spawn degrees_to_radians tan
          (set_render_progress pr (set_image img c)) = Ok (c1, threads))
  /\ (forall (img : list color) (pr : list Z) (fuel : nat)
             (world : hittable) (g : rng),
        render degrees_to_radians tan random_double random_in_unit_disk
          hit scatter fuel world (set_render_progress pr (set_image img c)) g
        = render degrees_to_radians tan random_double random_in_unit_disk
            hit scatter fuel world c g).
Proof.
  intros Hspawn.
  assert (Hforget : forall img pr,
             render_spawn degrees_to_radians tan
               (set_render_progress pr (set_image img c))
             = render_spawn degrees_to_radians tan c).
  { intros img pr. unfold render_spawn. now rewrite initialize_forgets. }
  unfold render_spawn in Hspawn.
  destruct (initialize degrees_to_radians tan c) as [c' | f] eqn:Hinit;
    cbn [bind] in Hspawn; [| discriminate].
  injection Hspawn as -> <-.
  destruct (initialize_vectors _ _ Hinit) as (Himg & Hpr & _).
  split; [| split; [| split; [| split]]].
  - intros n p. rewrite Himg. intros Hn.
    now apply lookup_replicate in Hn as [-> _].
  - now rewrite Himg, length_replicate.
  - intros n k. rewrite Hpr. intros Hn.
    now apply lookup_replicate in Hn as [-> _].
  - intros img pr. rewrite Hforget. unfold render_spawn.
    now rewrite Hinit.
  - intros img pr fuel world g. unfold render. now rewrite Hforget.
Qed.

End Initialize.

(** ** Arithmetic of [double] *)

Section DoubleFacts.

Lemma digits2_pos_iter_xO (p k : positive) :
  digits2_pos (Pos.iter xO p k) = (digits2_pos p + k)%positive.
Proof.
  induction k as [| k IH] using Pos.peano_ind.
  - cbn. lia.
  - rewrite Pos.iter_succ. cbn [digits2_pos]. rewrite IH. lia.
Qed.

Lemma digits2_pos_lower (p : positive) :
  2 ^ (Z.pos (digits2_pos p) - 1) <= Z.pos p.
Proof.
  induction p as [p IH | p IH |]; cbn [digits2_pos].
  - rewrite Pos2Z.inj_succ.
    replace (Z.succ (Z.pos (digits2_pos p)) - 1)
      with (Z.succ (Z.pos (digits2_pos p) - 1)) by lia.
    rewrite Z.pow_succ_r by lia. lia.
  - rewrite Pos2Z.inj_succ.
    replace (Z.succ (Z.pos (digits2_pos p)) - 1)
      with (Z.succ (Z.pos (digits2_pos p) - 1)) by lia.
    rewrite Z.pow_succ_r by lia. lia.
  - cbn. lia.
Qed.

(** A positive number of at most 52 bits rounds to a finite [double]. *)
Lemma normalize_small (p : positive) :
  Z.pos p < 2 ^ 52 ->
  exists m e,
    binary_normalize prec emax (Z.pos p) 0 false = S754_finite false m e.
Proof.
  intros Hp.
  pose proof (digits2_pos_lower p) as Hd.
  set (d := digits2_pos p) in *.
  assert (Hd52 : Z.pos d <= 52).
  { destruct (Z.le_gt_cases (Z.pos d) 52) as [| Hgt]; [assumption |].
    assert (2 ^ 52 <= 2 ^ (Z.pos d - 1)) by (apply Z.pow_le_mono_r; lia).
    lia. }
  unfold binary_normalize, binary_round. fold d.
  assert (Hf : fexp prec emax (Z.pos d + 0) = Z.pos d - 53).
  { unfold fexp, emin, prec, emax. lia. }
  rewrite Hf. unfold shl_align.
  destruct (Z.pos d - 53 - 0) as [| k | k] eqn:Hk; try lia.
  unfold binary_round_aux, shr_fexp.
  assert (Hdig : Zdigits2 (Z.pos (Pos.iter xO p k)) = 53).
  { cbn [Zdigits2]. rewrite digits2_pos_iter_xO. fold d. lia. }
  rewrite Hdig.
  assert (Hf2 : fexp prec emax (53 + (Z.pos d - 53)) - (Z.pos d - 53) = 0).
  { unfold fexp, emin, prec, emax. lia. }
  rewrite Hf2.
  cbn [shr shr_record_of_loc shr_m loc_of_shr_record round_nearest_even].
  rewrite Hdig, Hf2. cbn [shr shr_m].
  assert (Hle : (Z.pos d - 53 <=? emax - prec) = true).
  { apply Z.leb_le. unfold emax, prec. lia. }
  rewrite Hle. eauto.
Qed.

(** [(double) n] is finite and positive for a positive [int] [n]. *)
Lemma double_of_int_finite (n : Z) :
  1 <= n <= Int.max_int ->
  exists m e, Prim2SF (double_of_int n) = S754_finite false m e.
Proof.
  unfold Int.max_int. intros Hn. unfold double_of_int.
  destruct (Z.ltb_spec n 0); [lia |].
  rewrite of_uint63_spec, Uint63.of_Z_spec.
  assert (HwB : wB = 2 ^ 63) by reflexivity.
  rewrite Z.mod_small by (rewrite HwB; lia).
  destruct n as [| p | p]; try lia.
  apply normalize_small. lia.
Qed.

(** A finite [double] other than zero divided by itself is [1]. *)
Lemma div_self (d : float) (s : bool) (m : positive) (e : Z) :
  Prim2SF d = S754_finite s m e -> (d / d)%float = 1%float.
Proof.
  intros Hx. apply Prim2SF_inj. rewrite FloatAxioms.div_spec, Hx.
  unfold SF64div, SFdiv, SFdiv_core_binary.
  replace (Zdigits2 (Z.pos m) + e - (Zdigits2 (Z.pos m) + e)) with 0 by lia.
  replace (e - e) with 0 by lia.
  change (Z.min (fexp prec emax 0) 0) with (-53).
  change (0 - -53) with 53.
  cbv iota beta.
  assert (Hq : Z.div_eucl (Z.shiftl (Z.pos m) 53) (Z.pos m) = (2 ^ 53, 0)).
  { rewrite Z.shiftl_mul_pow2 by lia. rewrite Z.mul_comm.
    assert (Hpair : forall a b, Z.div_eucl a b = (a / b, a mod b)).
    { intros a b. unfold Z.div, Z.modulo. now destruct (Z.div_eucl a b). }
    rewrite Hpair, Z.div_mul, Z.mod_mul by lia. reflexivity. }
  rewrite Hq.
  assert (Hl : new_location (Z.pos m) 0 = loc_Exact).
  { unfold new_location, new_location_even, new_location_odd.
    destruct (Z.even (Z.pos m)); reflexivity. }
  rewrite Hl. destruct s; reflexivity.
Qed.

(** The percentage of [n] rows out of [n] is [100]. *)
Lemma percent_of_all (n : Z) :
  1 <= n <= Int.max_int ->
  int_of_double (double_of_int n / double_of_int n * 100)%float = Ok 100.
Proof.
  intros Hn. destruct (double_of_int_finite n Hn) as (m & e & Hfin).
  rewrite (div_self _ _ _ _ Hfin). reflexivity.
Qed.

End DoubleFacts.

(** ** The progress monitor, pass by pass *)

Section Monitor.

Lemma monitor_pass_camera (c c' : camera) (m m' : monitor) :
  monitor_pass (c, m) = Ok (c', m') -> c' = c /\ rawProgress m' = 0.
Proof.
  unfold monitor_pass.
  destruct (int_of_double _) as [pct | f]; cbn [bind]; [| discriminate].
  destruct (pct =? lastPercent m); intros [= <- <-]; now split.
Qed.

Lemma monitor_loop_camera (fuel : nat) :
  forall (c c' : camera) (m m' : monitor),
    monitor_loop fuel (c, m) = Ok (c', m') -> c' = c.
Proof.
  induction fuel as [| fuel IH]; intros c c' m m'; cbn [monitor_loop snd].
  - destruct (percent m <? 100); [discriminate | now intros [= <- _]].
  - destruct (percent m <? 100); [| now intros [= <- _]].
    destruct (monitor_pass (c, m)) as [[c1 m1] | f] eqn:Hp; cbn [bind];
      [| discriminate].
    apply monitor_pass_camera in Hp as [-> _]. apply IH.
Qed.

(** A pass that finds every row rendered is the last one. *)
Lemma monitor_pass_all_done (c : camera) (m : monitor) :
  Int.in_range (image_height c) ->
  1 <= image_height c ->
  rawProgress m = 0 ->
  foldl Int.add 0 (render_progress c) = image_height c ->
  exists m' : monitor,
    monitor_pass (c, m) = Ok (c, m')
    /\ percent m' = 100
    /\ (forall fuel : nat, monitor_loop fuel (c, m') = Ok (c, m'))
    /\ (percent m < 100 ->
        forall fuel : nat, monitor_loop (S fuel) (c, m) = Ok (c, m')).
Proof.
  intros [_ Hmax] Hpos Hraw Hsum.
  assert (Hpass : exists m', monitor_pass (c, m) = Ok (c, m')
                             /\ percent m' = 100).
  { unfold monitor_pass. rewrite Hraw, Hsum.
    rewrite percent_of_all by lia. cbn [bind].
    destruct (100 =? lastPercent m); eexists; split; reflexivity. }
  destruct Hpass as (m' & Hpass & Hpct).
  assert (Hstop : forall fuel, monitor_loop fuel (c, m') = Ok (c, m')).
  { intros [| fuel]; cbn [monitor_loop snd]; now rewrite Hpct. }
  exists m'. repeat split; try assumption.
  intros Hlt fuel. cbn [monitor_loop snd].
  destruct (Z.ltb_spec (percent m) 100); [| lia].
  rewrite Hpass. cbn [bind]. apply Hstop.
Qed.

(** When its loop is over, [print_render_progress] clears the counters. *)
Lemma print_render_progress_resets (fuel : nat) (c c' : camera) (out : list Z) :
  print_render_progress fuel c = Ok (c', out) ->
  c' = set_render_progress (replicate (length (render_progress c)) 0) c.
Proof.
  unfold print_render_progress.
  destruct (monitor_loop fuel (c, monitor_start)) as [[c1 m] | f] eqn:Hloop;
    cbn [bind]; [| discriminate].
  apply monitor_loop_camera in Hloop as ->. now intros [= <- _].
Qed.

End Monitor.

(** ** Where [get_ray] samples *)

Section Sampling.

Context {rng : Type}.
Variable random_double : rng -> float * rng.
Variable random_in_unit_disk : rng -> vector3d * rng.

(** Where [get_ray] samples: for the draws [du] and [dv] that
    [pixel_sample_square] makes, the point that [get_ray] samples is the
    centre of pixel [(i, j)] plus [(0.5 + du) * pixel_delta_u +
    (0.5 + dv) * pixel_delta_v]; the ray goes from its origin through that
    point, and its origin is the camera centre when the lens is off. *)
Lemma get_ray_samples_from_center
    (c : camera) (i j : Z) (g g1 g2 : rng) (du dv : float) :
  random_double g = (du, g1) ->
  random_double g1 = (dv, g2) ->
  pixel_sample random_double c i j g
    = ((pixel_center c i j
        + ((0.5 + du)%float *: pixel_delta_u c
           + (0.5 + dv)%float *: pixel_delta_v c))%vec, g2)
  /\ (forall (r : ray) (g3 : rng),
        get_ray random_double random_in_unit_disk c i j g = (r, g3) ->
        direction r
          = ((pixel_center c i j
              + ((0.5 + du)%float *: pixel_delta_u c
                 + (0.5 + dv)%float *: pixel_delta_v c)) - origin r)%vec
        /\ ((defocus_angle c <=? 0)%float = true ->
            origin r = center c /\ g3 = g2)).
Proof.
  intros Hu Hv.
  assert (Hs : pixel_sample random_double c i j g
               = ((pixel_center c i j
                   + ((0.5 + du)%float *: pixel_delta_u c
                      + (0.5 + dv)%float *: pixel_delta_v c))%vec, g2)).
  { unfold pixel_sample, pixel_sample_square. now rewrite Hu, Hv. }
  split; [exact Hs |].
  intros r g3. unfold get_ray. rewrite Hs.
  destruct (defocus_angle c <=? 0)%float.
  - intros [= <- <-]. cbn. split; [reflexivity | now intros _].
  - destruct (defocus_disk_sample random_in_unit_disk c g2) as [o g4].
    intros [= <- <-]. cbn. split; [reflexivity | discriminate].
Qed.

End Sampling.

(** One pair of draws in detail: on the two by two image of
    [Scenario.small_camera], with
    both draws equal to [0.75], the point sampled for pixel [(0, 0)] is not
    the corner of that pixel plus [1.25] of each pixel delta, and it lies
    outside the square of pixel [(0, 0)], also when that square is laid at
    the point [pixel_center] that the offset is added to: it is in the
    square of pixel [(1, 1)]. *)
Lemma pixel_sample_misses_its_pixel :
  exists (c : camera) (p : point3d) (g : Scenario.tape),
    initialize Scenario.degrees_to_radians Scenario.tan Scenario.small_camera
      = Ok c
    /\ pixel_sample Scenario.random_double c 0 0 [0.75; 0.75]%float = (p, g)
    /\ p <> (pixel_corner c 0 0
             + ((0.5 + 0.75)%float *: pixel_delta_u c
                + (0.5 + 0.75)%float *: pixel_delta_v c))%vec
    /\ in_footprint c 0 0 p = false
    /\ in_square c (pixel_center c 0 0) p = false
    /\ in_footprint c 1 1 p = true.
Proof.
  eexists _, _, _. split; [vm_compute; reflexivity |].
  split; [vm_compute; reflexivity |].
  split; [| repeat split; vm_compute; reflexivity].
  intros E. apply (f_equal (fun q => (x q <? 0.5)%float)) in E.
  vm_compute in E. discriminate.
Qed.

(** Where [get_ray] samples, for pixel [(1, 0)] of the initialized
    [Scenario.small_camera] and the draws [0.25] and [0.75]. *)
Lemma get_ray_samples_from_center_witness :
  pixel_sample Scenario.random_double Scenario.small_initialized 1 0
    [0.25; 0.75]%float
  = ((pixel_center Scenario.small_initialized 1 0
      + ((0.5 + 0.25)%float *: pixel_delta_u Scenario.small_initialized
         + (0.5 + 0.75)%float *: pixel_delta_v Scenario.small_initialized))%vec,
     []).
Proof.
  apply (get_ray_samples_from_center Scenario.random_double
           Scenario.random_in_unit_disk Scenario.small_initialized 1 0
           [0.25; 0.75]%float [0.75]%float [] 0.25%float 0.75%float);
    reflexivity.
Defined.

(** ** C6: a camera that looks at its own eye *)

Section Degenerate.

Variable degrees_to_radians : float -> float.
Variable tan : float -> float.

(** A [double] minus itself is zero, or no number at all. *)
Lemma sub_self (d : float) : (d - d)%float = 0%float \/ (d - d)%float = nan.
Proof.
  assert (Hs : Prim2SF (d - d) = S754_zero false \/ Prim2SF (d - d) = S754_nan).
  { rewrite FloatAxioms.sub_spec. destruct (Prim2SF d) as [s | s | | s m e]; cbn.
    - destruct s; now left.
    - destruct s; now right.
    - now right.
    - left. unfold SF64sub, SFsub. rewrite Z.sub_diag. reflexivity. }
  destruct Hs as [Hs | Hs]; [left | right]; now apply Prim2SF_inj.
Qed.

(** The normalisation of a vector minus itself has no component that is
    a number. *)
Lemma unit_vector_of_nothing (a : vector3d) :
  unit_vector (a - a) = vec nan nan nan.
Proof.
  unfold vsub.
  destruct (sub_self (x a)) as [-> | ->], (sub_self (y a)) as [-> | ->],
    (sub_self (z a)) as [-> | ->]; reflexivity.
Qed.

(** C6, as the code has it: [render] does not look at the view
    direction.  For a camera whose eye is the point it looks at, with an
    image size and a thread count that [resize] accepts, [initialize]
    returns, the basis vector [w] it has computed has no component that
    is a number, and the spawn loop starts at least one worker on that
    camera. *)
Theorem render_accepts_degenerate_view (c : camera) :
  lookfrom c = lookat c ->
  0 <= Int.mul (image_height c) (image_width c) ->
  0 <= max_threads c ->
  exists c1 : camera,
    render_spawn degrees_to_radians tan c = Ok (c1, spawn_threads c1)
    /\ w c1 = vec nan nan nan
    /\ 1 <= max_threads c1
    /\ (1 <= length (spawn_threads c1))%nat.
Proof.
  intros Heye Himg Hthr. unfold render_spawn.
  destruct (initialize degrees_to_radians tan c) as [c1 | f] eqn:Hinit.
  - exists c1. cbn [bind]. split; [reflexivity |].
    assert (Hw : w c1 = unit_vector (lookfrom c - lookat c)).
    { revert Hinit. unfold initialize.
      destruct (Vector.resize _ black (image c)); cbn [bind]; [| discriminate].
      destruct (Vector.resize _ 0 (render_progress c)); cbn [bind];
        [| discriminate].
      now intros [= <-]. }
    destruct (initialize_vectors _ _ _ _ Hinit) as (_ & _ & _ & _ & Hmax & _).
    assert (Hone : 1 <= max_threads c1).
    { rewrite Hmax. destruct (Z.ltb_spec 0 (max_threads c)); lia. }
    split; [| split; [exact Hone |]].
    + rewrite Hw, <- Heye. apply unit_vector_of_nothing.
    + unfold spawn_threads. rewrite length_fmap, length_int_range. lia.
  - exfalso. revert Hinit. unfold initialize, Vector.resize.
    destruct (Z.ltb_spec (Int.mul (image_height c) (image_width c)) 0);
      [lia |].
    destruct (Z.ltb_spec (max_threads c) 0); [lia |]. discriminate.
Qed.

End Degenerate.

(** C6 on a camera: [render] of [Scenario.degenerate_camera], whose eye is
    the point it looks at, is not refused.  The spawn loop starts a worker
    on rows [0] and [1] with a basis that holds no number, and the render
    of the empty scene runs to its end and leaves an image in which no
    channel of any pixel is a number. *)
Lemma degenerate_view_is_rendered :
  lookfrom Scenario.degenerate_camera = lookat Scenario.degenerate_camera
  /\ exists c1 c2 : camera,
      render_spawn Scenario.degrees_to_radians Scenario.tan
        Scenario.degenerate_camera = Ok (c1, [(0, 0, 2)])
      /\ w c1 = vec nan nan nan
      /\ render Scenario.degrees_to_radians Scenario.tan
           Scenario.random_double Scenario.random_in_unit_disk
           Scenario.hit Scenario.scatter 1 Scenario.Empty
           Scenario.degenerate_camera [] = Ok (c2, [])
      /\ image c2 = replicate 4 (vec nan nan nan).
Proof.
  split; [reflexivity |]. eexists _, _.
  split; [vm_compute; reflexivity |].
  split; [vm_compute; reflexivity |].
  split; vm_compute; reflexivity.
Qed.

Lemma render_accepts_degenerate_view_witness :
  exists c1 : camera,
    render_spawn Scenario.degrees_to_radians Scenario.tan
      Scenario.degenerate_camera = Ok (c1, spawn_threads c1)
    /\ w c1 = vec nan nan nan
    /\ 1 <= max_threads c1
    /\ (1 <= length (spawn_threads c1))%nat.
Proof.
  apply (render_accepts_degenerate_view Scenario.degrees_to_radians
           Scenario.tan Scenario.degenerate_camera).
  - reflexivity.
  - vm_compute. discriminate.
  - vm_compute. discriminate.
Defined.

(** ** C7: a thread count that is not positive *)

Section Threads.

Variable degrees_to_radians : float -> float.
Variable tan : float -> float.

Context {rng hittable hit_record : Type}.
Variable random_double : rng -> float * rng.
Variable random_in_unit_disk : rng -> vector3d * rng.
Variable hit : hittable -> ray -> interval -> option hit_record.
Variable scatter : hit_record -> ray -> rng -> option (color * ray) * rng.

(** With a negative thread count [resize] throws: [render] ends before
    the count is corrected and before any worker is started. *)
Lemma negative_threads_throw (c : camera) :
  0 <= Int.mul (image_height c) (image_width c) ->
  max_threads c < 0 ->
  render_spawn degrees_to_radians tan c = Fault LengthError.
Proof.
  intros Himg Hthr. unfold render_spawn, initialize, Vector.resize.
  destruct (Z.ltb_spec (Int.mul (image_height c) (image_width c)) 0);
    [lia |].
  destruct (Z.ltb_spec (max_threads c) 0); [reflexivity | lia].
Qed.

(** With a thread count of zero the vector of counters is sized before
    the count is corrected: one worker is started and there is no
    counter for it. *)
Lemma zero_threads_no_counter (c c1 : camera) (threads : list (Z * Z * Z)) :
  max_threads c = 0 ->
  Int.in_range (image_height c) ->
  render_spawn degrees_to_radians tan c = Ok (c1, threads) ->
  render_progress c1 = []
  /\ max_threads c1 = 1
  /\ threads = [(0, 0, image_height c)].
Proof.
  intros Hzero Hr Hspawn. unfold render_spawn in Hspawn.
  destruct (initialize degrees_to_radians tan c) as [c' | f] eqn:Hinit;
    cbn [bind] in Hspawn; [| discriminate].
  injection Hspawn as -> <-.
  destruct (initialize_vectors _ _ _ _ Hinit)
    as (_ & Hpr & _ & _ & Hmax & Hh & _).
  rewrite Hzero in Hpr, Hmax. cbn in Hpr, Hmax.
  split; [exact Hpr |]. split; [exact Hmax |].
  unfold spawn_threads, thread_args. rewrite Hmax, Hh.
  cbn. do 2 f_equal.
Qed.

(** A worker without a counter does not get past its first row. *)
Lemma no_counter_no_row (world : hittable) (minRow maxRow : Z)
    (c1 : camera) (g : rng) :
  render_progress c1 = [] ->
  minRow < maxRow ->
  forall s', render_thread random_double random_in_unit_disk hit scatter
               world 0 minRow maxRow (c1, g) <> Ok s'.
Proof.
  intros Hpr Hrows s' Hrun. unfold render_thread, for_int, int_range in Hrun.
  rewrite seqZ_cons in Hrun by lia. cbn [for_each] in Hrun.
  destruct (render_row _ _ _ _ world 0 minRow (c1, g)) as [s1 | f] eqn:Hrow;
    cbn [bind] in Hrun; [| discriminate].
  clear Hrun. unfold render_row in Hrow.
  destruct (for_int 0 _ _ (c1, g)) as [s2 | f] eqn:Hcols;
    cbn [bind] in Hrow; [| discriminate].
  assert (Hk : kept c1 (0, minRow, maxRow) (fst s2)).
  { revert Hcols.
    apply (for_int_invariant
             (fun st => kept c1 (0, minRow, maxRow) (fst st)));
      [| apply kept_refl].
    intros i si si' Hi Hsi.
    apply (for_int_invariant
             (fun st => kept c1 (0, minRow, maxRow) (fst st)));
      [| assumption].
    intros sample sk sk' _ Hsk.
    apply (render_sample_kept random_double random_in_unit_disk hit scatter
             world c1 (0, minRow, maxRow) i minRow sample sk sk');
      [apply elem_of_int_range; lia | | assumption].
    destruct (same_settings_fields _ _ (proj1 Hsi)) as [Hw _]. cbn [fst] in *.
    lia. }
  destruct Hk as (_ & _ & Hlen & _).
  rewrite Hpr in Hlen. cbn [length] in Hlen.
  apply length_zero_iff_nil in Hlen. rewrite Hlen in Hrow.
  discriminate.
Qed.

End Threads.

(** C7 on a camera: [render] of [Scenario.unthreaded_camera], whose thread
    count is [0].  [initialize] sizes the vector of counters to no counter
    at all and then sets the count to [1]; the spawn loop starts worker [0]
    on rows [0] and [1]; its first [render_progress[0] += 1] is outside the
    vector. *)
Theorem zero_threads_counter_out_of_bounds :
  max_threads Scenario.unthreaded_camera = 0
  /\ exists c1 : camera,
      render_spawn Scenario.degrees_to_radians Scenario.tan
        Scenario.unthreaded_camera = Ok (c1, [(0, 0, 2)])
      /\ max_threads c1 = 1
      /\ render_progress c1 = []
      /\ render_thread Scenario.random_double Scenario.random_in_unit_disk
           Scenario.hit Scenario.scatter Scenario.Empty 0 0 2 (c1, [])
         = Fault OutOfBounds
      /\ render Scenario.degrees_to_radians Scenario.tan
           Scenario.random_double Scenario.random_in_unit_disk
           Scenario.hit Scenario.scatter 1 Scenario.Empty
           Scenario.unthreaded_camera [] = Fault OutOfBounds.
Proof.
  split; [reflexivity |]. eexists.
  split; [vm_compute; reflexivity |].
  repeat split; vm_compute; reflexivity.
Qed.

(** ** A render that returns

    On a camera with at least one row and one thread, and sizes that are
    [int]s, no access of a worker is out of bounds and the counters add
    up to [image_height]: [render] returns. *)

Section Returns.

Variable degrees_to_radians : float -> float.
Variable tan : float -> float.

Context {rng hittable hit_record : Type}.
Variable random_double : rng -> float * rng.
Variable random_in_unit_disk : rng -> vector3d * rng.
Variable hit : hittable -> ray -> interval -> option hit_record.
Variable scatter : hit_record -> ray -> rng -> option (color * ray) * rng.

(** A loop whose passes all return returns. *)
Lemma for_int_total {S : Type} (P : Z -> S -> Prop) (body : Z -> S -> result S)
    (hi : Z) (n : nat) :
  forall (lo : Z) (s : S),
    Z.of_nat n = hi - lo ->
    (forall k t, lo <= k < hi -> P k t ->
                 exists t', body k t = Ok t' /\ P (k + 1) t') ->
    P lo s ->
    exists s', for_int lo hi body s = Ok s' /\ P hi s'.
Proof.
  unfold for_int, int_range.
  induction n as [| n IH]; intros lo s Hn Hbody Hs.
  - rewrite seqZ_nil by lia. cbn. exists s. split; [reflexivity |].
    now replace hi with lo by lia.
  - rewrite seqZ_cons by lia. cbn [for_each].
    destruct (Hbody lo s ltac:(lia) Hs) as (s1 & -> & Hs1). cbn [bind].
    replace (Z.pred (hi - lo)) with (hi - Z.succ lo) by lia.
    apply IH; [lia | | assumption].
    intros k t Hk. apply Hbody. lia.
Qed.

Lemma same_settings_all (c1 c2 : camera) :
  same_settings c1 c2 ->
  image_width c2 = image_width c1
  /\ image_height c2 = image_height c1
  /\ samples_per_pixel c2 = samples_per_pixel c1
  /\ max_depth c2 = max_depth c1
  /\ max_threads c2 = max_threads c1.
Proof.
  unfold same_settings, set_render_progress, set_image. cbn.
  intros E. now inversion E.
Qed.

Lemma vector_update_total {A : Type} (i : Z) (f : A -> A) (v : list A) :
  0 <= i < Z.of_nat (length v) ->
  exists a, v !! Z.to_nat i = Some a
            /\ Vector.update i f v = Ok (<[Z.to_nat i := f a]> v).
Proof.
  intros Hi. unfold Vector.update, Vector.get.
  destruct (Z.ltb_spec i 0); [lia |].
  destruct (lookup_lt_is_Some_2 v (Z.to_nat i) ltac:(lia)) as [a Ha].
  exists a. now rewrite Ha.
Qed.

Lemma rows_done_insert (l : list Z) :
  forall (i : nat) (a b : Z),
    l !! i = Some a -> rows_done (<[i := b]> l) = rows_done l - a + b.
Proof.
  induction l as [| h l IH]; intros i a b Hi; [discriminate |].
  change (rows_done (h :: l)) with (h + rows_done l).
  destruct i as [| i].
  - change (rows_done (<[0%nat := b]> (h :: l))) with (b + rows_done l).
    injection Hi as ->. lia.
  - change (rows_done (<[S i := b]> (h :: l)))
      with (h + rows_done (<[i := b]> l)).
    rewrite (IH i a b Hi). lia.
Qed.

Lemma rows_done_bounds (l : list Z) :
  Forall (fun n => 0 <= n) l ->
  0 <= rows_done l
  /\ forall (i : nat) (a : Z), l !! i = Some a -> 0 <= a <= rows_done l.
Proof.
  unfold rows_done.
  induction 1 as [| h l Hh Hl IH]; cbn.
  - split; [lia | intros i a Hi; discriminate].
  - destruct IH as [IH0 IH]. split; [lia |].
    intros [| i] a Hi; cbn in Hi.
    + injection Hi as ->. lia.
    + specialize (IH i a Hi). lia.
Qed.

(** The monitor's sum of the counters is the number of rows done. *)
Lemma foldl_add_rows_done (l : list Z) :
  Forall (fun n => 0 <= n) l ->
  forall a : Z,
    0 <= a -> a + rows_done l <= Int.max_int ->
    foldl Int.add a l = a + rows_done l.
Proof.
  induction 1 as [| h l Hh Hl IH]; intros a Ha Hmax.
  - cbn. lia.
  - pose proof (proj1 (rows_done_bounds l Hl)) as Hpos.
    change (rows_done (h :: l)) with (h + rows_done l) in *.
    cbn [foldl]. unfold Int.add at 2.
    rewrite wrap_id
      by (int_bounds; lia).
    rewrite IH by lia. lia.
Qed.

Lemma render_sample_returns (world : hittable) (c1 : camera) (done : Z)
    (i j sample : Z) (s : camera * rng) :
  ready c1 -> rendering c1 done (fst s) ->
  0 <= i < image_width c1 -> 0 <= j < image_height c1 ->
  exists s', render_sample random_double random_in_unit_disk hit scatter
               world i j sample s = Ok s'
             /\ rendering c1 done (fst s').
Proof.
  intros (HH & H1 & HW & HHW & _ & _ & Hdepth & Hlen1 & _)
         (Hset & Hlen & Hlenp & Hpos & Hdone) Hi Hj.
  destruct s as [c g]. cbn [fst] in *.
  destruct (same_settings_all _ _ Hset) as (Ew & Eh & _ & Ed & _).
  unfold render_sample.
  destruct (get_ray random_double random_in_unit_disk c i j g) as [r g1].
  destruct (ray_color_fuel_returns hit scatter (Z.to_nat (max_depth c))
              r (max_depth c) world g1) as (col & g2 & Hcol).
  { now rewrite Ed. }
  { lia. }
  specialize (Hcol O). rewrite Nat.add_0_r in Hcol.
  unfold ray_color. rewrite Hcol. cbn [bind].
  assert (Hidx : pixel_index c i j = j * image_width c1 + i).
  { unfold pixel_index. rewrite Ew.
    exact (pixel_index_exact c1 HH H1 i j HHW Hj Hi). }
  destruct (vector_update_total (pixel_index c i j)
              (fun p => (p + col)%vec) (image c)) as (a & Ha & ->).
  { rewrite Hidx, Hlen, Hlen1. nia. }
  cbn [bind]. eexists. split; [reflexivity |]. cbn [fst].
  split; [exact Hset |].
  split; [cbn; now rewrite length_insert |].
  split; [assumption |]. split; assumption.
Qed.

Lemma render_row_returns (world : hittable) (c1 : camera) (done : Z)
    (threadId j : Z) (s : camera * rng) :
  ready c1 -> rendering c1 done (fst s) ->
  0 <= threadId < max_threads c1 -> 0 <= j < image_height c1 ->
  done < image_height c1 ->
  exists s', render_row random_double random_in_unit_disk hit scatter
               world threadId j s = Ok s'
             /\ rendering c1 (done + 1) (fst s').
Proof.
  intros Hready Hs Htid Hj Hlt. unfold render_row.
  destruct (same_settings_all _ _ (proj1 Hs)) as (Ew & _ & _ & _ & _).
  destruct (for_int_total (fun _ t => rendering c1 done (fst t))
              (fun i s' =>
                 for_int 0 (samples_per_pixel (fst s'))
                   (render_sample random_double random_in_unit_disk hit
                      scatter world i j) s')
              (image_width (fst s)) (Z.to_nat (image_width (fst s))) 0 s)
    as (s1 & -> & Hs1).
  { destruct Hready as (_ & _ & HW & _). lia. }
  { intros i t Hi Ht.
    destruct (Z.le_gt_cases 0 (samples_per_pixel (fst t))) as [Hspp | Hspp].
    - apply (for_int_total (fun _ t' => rendering c1 done (fst t'))
               _ _ (Z.to_nat (samples_per_pixel (fst t)))); [lia | | assumption].
      intros sample t' _ Ht'. apply render_sample_returns; try assumption.
      lia.
    - exists t. split; [| assumption].
      unfold for_int, int_range. now rewrite seqZ_nil by lia. }
  { assumption. }
  cbn [bind].
  destruct Hready as (HH & H1 & _ & _ & HT & T1 & _ & _ & Hpr1).
  destruct Hs1 as (Hset & Hlen & Hlenp & Hpos & Hdone).
  destruct (vector_update_total threadId (fun n => Int.add n 1)
              (render_progress (fst s1))) as (a & Ha & ->).
  { rewrite Hlenp, Hpr1, length_replicate. lia. }
  cbn [bind]. eexists. split; [reflexivity |]. cbn [fst].
  destruct (proj2 (rows_done_bounds _ Hpos) _ _ Ha) as [Ha0 Ha1].
  assert (Hadd : Int.add a 1 = a + 1).
  { apply wrap_id. int_bounds. lia. }
  split; [exact Hset |]. split; [assumption |].
  split; [cbn; now rewrite length_insert |].
  split; cbn.
  - apply Forall_insert; [assumption | lia].
  - rewrite (rows_done_insert _ _ _ _ Ha). lia.
Qed.

Lemma render_thread_returns (world : hittable) (c1 : camera) (done : Z)
    (threadId minRow maxRow : Z) (s : camera * rng) :
  ready c1 -> rendering c1 done (fst s) ->
  0 <= threadId < max_threads c1 ->
  0 <= minRow <= maxRow -> maxRow <= image_height c1 ->
  done + (maxRow - minRow) <= image_height c1 ->
  exists s', render_thread random_double random_in_unit_disk hit scatter
               world threadId minRow maxRow s = Ok s'
             /\ rendering c1 (done + (maxRow - minRow)) (fst s').
Proof.
  intros Hready Hs Htid Hrows Hmax Hsum. unfold render_thread.
  apply (for_int_total
           (fun j t => rendering c1 (done + (j - minRow)) (fst t))
           _ _ (Z.to_nat (maxRow - minRow))); [lia | |].
  - intros j t Hj Ht.
    replace (done + (j + 1 - minRow)) with (done + (j - minRow) + 1) by lia.
    apply render_row_returns; try assumption; lia.
  - now replace (done + (minRow - minRow)) with done by lia.
Qed.

(** The workers from worker [a] on, one after the other. *)
Lemma run_threads_returns (world : hittable) (c1 : camera) (n : nat) :
  forall (a : Z) (s : camera * rng),
    Z.of_nat n = max_threads c1 - a -> 0 <= a ->
    ready c1 -> rendering c1 (rows_before c1 a) (fst s) ->
    exists s', run_threads random_double random_in_unit_disk hit scatter
                 world (thread_args c1 <$> seqZ a (max_threads c1 - a)) s
               = Ok s'
               /\ rendering c1 (image_height c1) (fst s').
Proof.
  induction n as [| n IH]; intros a s Hn Ha Hready Hs.
  - rewrite seqZ_nil by lia. cbn. exists s. split; [reflexivity |].
    unfold rows_before in Hs. destruct (Z.ltb_spec a (max_threads c1)); [lia |].
    assumption.
  - rewrite seqZ_cons by lia. rewrite fmap_cons.
    pose proof Hready as (HH & H1 & _ & _ & HT & T1 & _).
    rewrite (thread_args_exact c1 HH HT H1 T1 a) by lia.
    cbn [run_threads].
    pose proof (upper_bounds c1 H1 T1 a ltac:(lia)) as Hu.
    pose proof (offset_bounds c1 H1 T1) as Ho.
    set (o := image_height c1 / max_threads c1) in *.
    assert (Hbefore : rows_before c1 a = a * o).
    { unfold rows_before. destruct (Z.ltb_spec a (max_threads c1)); [| lia].
      reflexivity. }
    assert (Hafter : rows_before c1 (Z.succ a) = row_end c1 a).
    { unfold rows_before, row_end. fold o.
      destruct (Z.ltb_spec (Z.succ a) (max_threads c1)),
        (Z.ltb_spec a (max_threads c1 - 1)); lia. }
    rewrite Hbefore in Hs.
    assert (Hlo : 0 <= a * o) by nia.
    destruct (render_thread_returns world c1 (a * o) a (a * o)
                (row_end c1 a) s Hready Hs ltac:(lia) ltac:(lia) ltac:(lia)
                ltac:(lia)) as (s1 & Hrun & Hs1).
    change (if a <? max_threads c1 - 1 then (a + 1) * o else image_height c1)
      with (row_end c1 a).
    rewrite Hrun. cbn [bind].
    replace (Z.pred (max_threads c1 - a))
      with (max_threads c1 - Z.succ a) by lia.
    apply IH; [lia | lia | assumption |].
    rewrite Hafter.
    now replace (a * o + (row_end c1 a - a * o)) with (row_end c1 a) in Hs1
      by lia.
Qed.

(** [initialize] returns on a camera that can be rendered, and leaves it
    ready. *)
Lemma initialize_returns (c : camera) :
  renderable c ->
  exists c1, initialize degrees_to_radians tan c = Ok c1
             /\ ready c1
             /\ image_width c1 = image_width c
             /\ image_height c1 = image_height c
             /\ max_threads c1 = max_threads c.
Proof.
  intros (HH & H1 & HW & HHW & HT & T1 & Hdepth).
  unfold initialize, Vector.resize.
  assert (Hmul : Int.mul (image_height c) (image_width c)
                 = image_height c * image_width c) by now apply wrap_id.
  rewrite Hmul.
  destruct (Z.ltb_spec (image_height c * image_width c) 0); [nia |].
  destruct (Z.ltb_spec (max_threads c) 0); [lia |].
  destruct (Z.ltb_spec 0 (max_threads c)); [| lia].
  cbn [bind]. eexists. split; [reflexivity |].
  split; [| now cbn].
  unfold ready. cbn. unfold Vector.fill.
  rewrite !length_app, !length_take, !length_replicate.
  unfold Int.in_range in *.
  repeat split; try assumption; try lia.
  f_equal. lia.
Qed.

(** On a camera that can be rendered, [render] returns: no worker
    reaches outside a vector, every row is counted, the monitor ends on
    its first pass after the workers, and the counters are cleared. *)
Theorem render_returns (c : camera) (world : hittable) (g : rng) (fuel : nat) :
  renderable c ->
  exists (c3 : camera) (g3 : rng),
    render degrees_to_radians tan random_double random_in_unit_disk
      hit scatter (S fuel) world c g = Ok (c3, g3)
    /\ length (image c3) = Z.to_nat (image_height c * image_width c)
    /\ render_progress c3 = replicate (Z.to_nat (max_threads c)) 0.
Proof.
  intros Hc.
  destruct (initialize_returns c Hc) as (c1 & Hinit & Hready & Ew & Eh & Et).
  unfold render, render_spawn. rewrite Hinit. cbn [bind].
  pose proof Hready as (HH & H1 & _ & _ & HT & T1 & _ & Hlen1 & Hpr1).
  destruct (run_threads_returns world c1 (Z.to_nat (max_threads c1)) 0
              (c1, g)) as ([c2 g2] & Hrun & Hs2).
  { lia. }
  { lia. }
  { assumption. }
  { cbn [fst]. unfold rows_before.
    destruct (Z.ltb_spec 0 (max_threads c1)); [| lia].
    split; [reflexivity |]. split; [reflexivity |]. split; [reflexivity |].
    rewrite Hpr1. split.
    - apply Forall_replicate. lia.
    - clear. induction (Z.to_nat (max_threads c1)) as [| k IHk]; [reflexivity |].
      change (rows_done (replicate (S k) 0)) with (0 + rows_done (replicate k 0)).
      now rewrite IHk. }
  unfold spawn_threads, int_range. rewrite Hrun. cbn [bind].
  cbn [fst] in Hs2. destruct Hs2 as (Hset2 & Hlen2 & Hlenp2 & Hpos2 & Hdone2).
  destruct (same_settings_all _ _ Hset2) as (_ & Eh2 & _).
  destruct (monitor_pass_all_done c2 monitor_start) as (m' & _ & _ & _ & Hloop).
  { now rewrite Eh2. }
  { now rewrite Eh2. }
  { reflexivity. }
  { rewrite foldl_add_rows_done; [rewrite Hdone2, Eh2; lia | assumption | lia |].
    rewrite Hdone2. unfold Int.in_range in HH. lia. }
  unfold print_render_progress. rewrite Hloop by (cbn; lia). cbn [bind].
  eexists _, _. split; [reflexivity |]. cbn.
  split.
  - rewrite Hlen2, Hlen1, Eh, Ew. reflexivity.
  - unfold Vector.fill. rewrite Hlenp2, Hpr1, length_replicate, Et.
    reflexivity.
Qed.

End Returns.

(** * The properties on the cameras of [Scenario] *)

(** C2 in the hall of mirrors. *)
Lemma ray_color_exhausted_is_black_witness :
  ray_color Scenario.hit Scenario.scatter
    (mk_ray (vec 0 0 0) (vec 0 0 (-1))) 0 Scenario.Mirrors [0.25]%float
  = Ok (black, [0.25]%float).
Proof.
  apply ray_color_exhausted_is_black. apply Z.le_refl.
Defined.

(** C3 for a ray that climbs at forty-five degrees in the empty scene. *)
Lemma ray_color_miss_is_sky_blend_witness :
  ray_color Scenario.hit Scenario.scatter
    (mk_ray (vec 0 0 0) (vec 0 1 (-1))) 10 Scenario.Empty []
  = Ok (sky_blend (y (unit_vector (vec 0 1 (-1)))), []).
Proof.
  apply (ray_color_miss_is_sky_blend Scenario.hit Scenario.scatter
           (mk_ray (vec 0 0 0) (vec 0 1 (-1))) 10 Scenario.Empty []).
  - reflexivity.
  - reflexivity.
Defined.

(** C5 in the hall of mirrors, where every ray is reflected: with the
    budget of the header's default the call returns. *)
Lemma ray_color_terminates_witness :
  Int.in_range 10
  /\ exists (col : color) (g' : Scenario.tape),
      ray_color Scenario.hit Scenario.scatter
        (mk_ray (vec 0 0 0) (vec 0 0 (-1))) 10 Scenario.Mirrors [] = Ok (col, g')
      /\ forall fuel : nat,
          (Z.to_nat 10 < fuel)%nat ->
          ray_color_fuel Scenario.hit Scenario.scatter fuel
            (mk_ray (vec 0 0 0) (vec 0 0 (-1))) 10 Scenario.Mirrors []
          = Ok (col, g').
Proof.
  assert (Hr : Int.in_range 10) by (int_literal).
  split; [exact Hr |].
  exact (proj1 (ray_color_terminates Scenario.hit Scenario.scatter
                  (mk_ray (vec 0 0 0) (vec 0 0 (-1))) 10 Scenario.Mirrors []
                  Hr)).
Defined.

(** C9 on an image of three by two pixels: the field says 72 bytes and
    the file has 78. *)
Lemma file_size_field_witness :
  exists file : list Z,
    write_image Scenario.gamma_correction Scenario.three_by_two = Ok file
    /\ le32 2 file = 72
    /\ Z.of_nat (length file) = 78.
Proof.
  destruct (write_image Scenario.gamma_correction Scenario.three_by_two)
    as [file | f] eqn:Hrun; [| vm_compute in Hrun; discriminate].
  exists file. split; [reflexivity |].
  destruct (proj2 (proj2 (file_size_field Scenario.gamma_correction
                            Scenario.three_by_two)) file Hrun)
    as (Hfield & Hlen & _).
  - vm_compute. discriminate.
  - vm_compute. split; discriminate.
  - split; [exact Hfield |]. rewrite Hlen, Hfield. reflexivity.
Defined.

(** C10 on a camera that holds the image and the counters of an earlier
    render. *)
Lemma render_starts_from_black_witness :
  exists (c1 : camera) (threads : list (Z * Z * Z)),
    render_spawn Scenario.degrees_to_radians Scenario.tan
      (set_render_progress [7] (set_image [vec 1 1 1] Scenario.small_camera))
    = Ok (c1, threads)
    /\ (forall (n : nat) (p : color), image c1 !! n = Some p -> p = black)
    /\ (forall (n : nat) (k : Z), render_progress c1 !! n = Some k -> k = 0).
Proof.
  destruct (render_spawn Scenario.degrees_to_radians Scenario.tan
              (set_render_progress [7]
                 (set_image [vec 1 1 1] Scenario.small_camera)))
    as [[c1 threads] | f] eqn:Hspawn; [| vm_compute in Hspawn; discriminate].
  exists c1, threads. split; [reflexivity |].
  destruct (render_starts_from_black Scenario.degrees_to_radians Scenario.tan
              Scenario.random_double Scenario.random_in_unit_disk
              Scenario.hit Scenario.scatter _ c1 threads Hspawn)
    as (Himg & _ & Hpr & _).
  split; assumption.
Defined.

(** * Further properties of the engine *)

(** ** Loops, pass by pass *)

Section LoopsIndexed.

(** What holds of the first index before a loop, and is carried from an
    index to the next by every pass that returns, holds of the bound after
    the loop. *)
Lemma for_int_indexed {S : Type} (P : Z -> S -> Prop)
    (body : Z -> S -> result S) (hi : Z) (n : nat) :
  forall (lo : Z) (s s' : S),
    Z.of_nat n = hi - lo ->
    (forall k t t', lo <= k < hi -> P k t -> body k t = Ok t' -> P (k + 1) t') ->
    P lo s ->
    for_int lo hi body s = Ok s' ->
    P hi s'.
Proof.
  unfold for_int, int_range.
  induction n as [| n IH]; intros lo s s' Hn Hbody Hs.
  - rewrite seqZ_nil by lia. cbn. intros [= <-].
    now replace hi with lo by lia.
  - rewrite seqZ_cons by lia. cbn [for_each].
    destruct (body lo s) as [s1 | f] eqn:Hlo; cbn [bind]; [| discriminate].
    replace (Z.pred (hi - lo)) with (hi - Z.succ lo) by lia.
    apply IH; [lia | |].
    + intros k t t' Hk. apply Hbody. lia.
    + apply (Hbody lo s s1); [lia | assumption | assumption].
Qed.

End LoopsIndexed.

(** ** The counter of a worker *)

Section Counter.

Context {rng hittable hit_record : Type}.
Variable random_double : rng -> float * rng.
Variable random_in_unit_disk : rng -> vector3d * rng.
Variable hit : hittable -> ray -> interval -> option hit_record.
Variable scatter : hit_record -> ray -> rng -> option (color * ray) * rng.

(** The loops over the columns and the samples of a row leave the
    counters alone. *)
Lemma render_sample_progress (world : hittable) (i j sample : Z)
    (s s' : camera * rng) :
  render_sample random_double random_in_unit_disk hit scatter
    world i j sample s = Ok s' ->
  render_progress (fst s') = render_progress (fst s).
Proof.
  destruct s as [c g]. unfold render_sample.
  destruct (get_ray random_double random_in_unit_disk c i j g) as [r g1].
  destruct (ray_color hit scatter r (max_depth c) world g1)
    as [[col g2] | f]; cbn [bind]; [| discriminate].
  destruct (Vector.update _ _ (image c)) as [img | f]; cbn [bind];
    [| discriminate].
  now intros [= <-].
Qed.

Lemma render_columns_progress (world : hittable) (j : Z)
    (s s' : camera * rng) :
  for_int 0 (image_width (fst s))
    (fun i t =>
       for_int 0 (samples_per_pixel (fst t))
         (render_sample random_double random_in_unit_disk hit scatter
            world i j) t) s = Ok s' ->
  render_progress (fst s') = render_progress (fst s).
Proof.
  apply (for_int_invariant
           (fun t => render_progress (fst t) = render_progress (fst s)));
    [| reflexivity].
  intros i t t' _ Ht.
  apply (for_int_invariant
           (fun t0 => render_progress (fst t0) = render_progress (fst s)));
    [| assumption].
  intros sample t0 t0' _ Ht0 Hrun.
  now rewrite (render_sample_progress _ _ _ _ _ _ Hrun).
Qed.

(** A worker that returns has added the number of its rows to its own
    counter, one row at a time, and has left the other counters as they
    were. *)
Theorem render_thread_counts_rows (world : hittable)
    (threadId minRow maxRow : Z) (c0 c1 : camera) (g g1 : rng) (a : Z) :
  minRow <= maxRow ->
  render_progress c0 !! Z.to_nat threadId = Some a ->
  Int.in_range a ->
  Int.in_range (a + (maxRow - minRow)) ->
  render_thread random_double random_in_unit_disk hit scatter
    world threadId minRow maxRow (c0, g) = Ok (c1, g1) ->
  render_progress c1
    = <[Z.to_nat threadId := a + (maxRow - minRow)]> (render_progress c0).
Proof.
  intros Hrows Ha Hra Hrb Hrun. unfold render_thread in Hrun.
  change c1 with (fst (c1, g1)). revert Hrun.
  apply (for_int_indexed
           (fun j t =>
              render_progress (fst t)
              = <[Z.to_nat threadId := a + (j - minRow)]> (render_progress c0))
           _ _ (Z.to_nat (maxRow - minRow))); [lia | |].
  - intros j t t' Hj Ht Hrow. unfold render_row in Hrow.
    destruct (for_int 0 (image_width (fst t)) _ t) as [t1 | f] eqn:Hcols;
      cbn [bind] in Hrow; [| discriminate].
    apply render_columns_progress in Hcols.
    destruct (Vector.update threadId _ (render_progress (fst t1)))
      as [pr | f] eqn:Hup; cbn [bind] in Hrow; [| discriminate].
    injection Hrow as <-. cbn [fst].
    apply vector_update_ok in Hup as (b & Hpos & Hb & ->).
    rewrite Hcols, Ht in Hb |- *.
    rewrite list_lookup_insert_eq in Hb
      by (apply lookup_lt_is_Some; eauto).
    injection Hb as <-. cbn.
    rewrite list_insert_insert_eq. f_equal.
    unfold Int.add. rewrite wrap_id; [lia |]. int_bounds. lia.
  - cbn [fst]. replace (a + (minRow - minRow)) with a by lia.
    symmetry. now apply list_insert_id.
Qed.

End Counter.

(** ** The samples of a pixel *)

Section Samples.

Context {rng hittable hit_record : Type}.
Variable random_double : rng -> float * rng.
Variable random_in_unit_disk : rng -> vector3d * rng.
Variable hit : hittable -> ray -> interval -> option hit_record.
Variable scatter : hit_record -> ray -> rng -> option (color * ray) * rng.

Lemma set_image_same (c : camera) : set_image (image c) c = c.
Proof. now destruct c. Qed.

(** The sample loop on a camera that differs from [c] in its image. *)
Lemma sample_loop_sums (world : hittable) (c : camera) (i j : Z) (n : nat) :
  forall (a : Z) (img : list color) (g : rng) (s' : camera * rng),
    for_each (seqZ a (Z.of_nat n))
      (render_sample random_double random_in_unit_disk hit scatter world i j)
      (set_image img c, g) = Ok s' ->
    exists (cols : list color) (img' : list color),
      sample_colours random_double random_in_unit_disk hit scatter
        world c i j n g = Ok (cols, snd s')
      /\ length cols = n
      /\ fst s' = set_image img' c
      /\ forall p0 : color,
          img !! Z.to_nat (pixel_index c i j) = Some p0 ->
          img' = <[Z.to_nat (pixel_index c i j) := foldl vadd p0 cols]> img.
Proof.
  induction n as [| n IH]; intros a img g s' Hrun.
  - rewrite seqZ_nil in Hrun by lia. cbn in Hrun. injection Hrun as <-.
    exists [], img. cbn. repeat split.
    intros p0 Hp0. symmetry. now apply list_insert_id.
  - rewrite seqZ_cons in Hrun by lia. cbn [for_each] in Hrun.
    unfold render_sample at 1 in Hrun.
    change (get_ray random_double random_in_unit_disk (set_image img c) i j g)
      with (get_ray random_double random_in_unit_disk c i j g) in Hrun.
    change (max_depth (set_image img c)) with (max_depth c) in Hrun.
    change (pixel_index (set_image img c) i j) with (pixel_index c i j) in Hrun.
    change (image (set_image img c)) with img in Hrun.
    cbn [sample_colours].
    destruct (get_ray random_double random_in_unit_disk c i j g) as [r g1].
    destruct (ray_color hit scatter r (max_depth c) world g1)
      as [[col g2] | f]; cbn [bind] in Hrun |- *; [| discriminate].
    destruct (Vector.update (pixel_index c i j) _ img) as [img1 | f] eqn:Hup;
      cbn [bind] in Hrun; [| discriminate].
    apply vector_update_ok in Hup as (a0 & Hpos & Ha0 & ->).
    change (set_image (<[Z.to_nat (pixel_index c i j) := (a0 + col)%vec]> img)
              (set_image img c))
      with (set_image (<[Z.to_nat (pixel_index c i j) := (a0 + col)%vec]> img)
              c) in Hrun.
    replace (Z.pred (Z.of_nat (S n))) with (Z.of_nat n) in Hrun by lia.
    destruct (IH _ _ _ _ Hrun) as (cols & img' & Hcols & Hlen & Hfst & Himg).
    rewrite Hcols. cbn [bind].
    exists (col :: cols), img'. split; [reflexivity |].
    split; [cbn; now rewrite Hlen |]. split; [assumption |].
    intros p0 Hp0. rewrite Ha0 in Hp0. injection Hp0 as <-.
    rewrite (Himg (a0 + col)%vec).
    + now rewrite list_insert_insert_eq.
    + apply list_lookup_insert_eq. now apply lookup_lt_is_Some; eauto.
Qed.

(** The sample loop of a pixel adds the colours of [samples_per_pixel]
    samples, in the order it takes them, to the slot of the pixel, without
    a division along the way, and changes nothing else of the camera. *)
Lemma pixel_accumulates_samples (world : hittable) (c c' : camera)
    (i j : Z) (g g' : rng) :
  for_int 0 (samples_per_pixel c)
    (render_sample random_double random_in_unit_disk hit scatter world i j)
    (c, g) = Ok (c', g') ->
  exists cols : list color,
    sample_colours random_double random_in_unit_disk hit scatter
      world c i j (Z.to_nat (samples_per_pixel c)) g = Ok (cols, g')
    /\ length cols = Z.to_nat (samples_per_pixel c)
    /\ same_settings c c'
    /\ render_progress c' = render_progress c
    /\ forall p0 : color,
        image c !! Z.to_nat (pixel_index c i j) = Some p0 ->
        image c'
        = <[Z.to_nat (pixel_index c i j) := foldl vadd p0 cols]> (image c).
Proof.
  unfold for_int, int_range. intros Hrun.
  rewrite <- (set_image_same c) in Hrun at 2.
  assert (Hseq : seqZ 0 (samples_per_pixel c - 0)
                 = seqZ 0 (Z.of_nat (Z.to_nat (samples_per_pixel c)))).
  { unfold seqZ. rewrite Nat2Z.id. f_equal. f_equal. lia. }
  rewrite Hseq in Hrun.
  destruct (sample_loop_sums _ _ _ _ _ _ _ _ _ Hrun)
    as (cols & img' & Hcols & Hlen & Hfst & Himg).
  cbn [fst snd] in *. subst c'.
  exists cols. split; [assumption |]. split; [assumption |].
  split; [repeat split |]. split; [reflexivity |].
  intros p0 Hp0. cbn. now apply Himg.
Qed.

End Samples.

(** ** The colour along a path of bounces *)

Section RayPath.

Context {rng hittable hit_record : Type}.
Variable hit : hittable -> ray -> interval -> option hit_record.
Variable scatter : hit_record -> ray -> rng -> option (color * ray) * rng.

Lemma ray_color_bounce (r : ray) (depth : Z) (world : hittable) (g : rng)
    rec attenuation scattered g1 :
  0 < depth -> Int.in_range depth ->
  hit world r ray_t = Some rec ->
  scatter rec r g = (Some (attenuation, scattered), g1) ->
  ray_color hit scatter r depth world g
    = let* (c, g2) := ray_color hit scatter scattered (depth - 1) world g1 in
      Ok (cmul attenuation c, g2).
Proof.
  intros Hd Hr Hh Hs. unfold ray_color.
  rewrite (ray_color_fuel_bounce hit scatter _ _ _ _ _ _ _ _ _ Hd Hr Hh Hs).
  replace (Z.to_nat depth) with (S (Z.to_nat (depth - 1))) by lia.
  reflexivity.
Qed.

Lemma ray_color_along (world : hittable) (r r' : ray) (g g' : rng)
    (attenuations : list color) :
  bounces hit scatter world r g attenuations r' g' ->
  forall depth : Z,
    Int.in_range depth ->
    Z.of_nat (length attenuations) <= depth ->
    ray_color hit scatter r depth world g
    = let* (col, g2) :=
        ray_color hit scatter r' (depth - Z.of_nat (length attenuations))
          world g' in
      Ok (foldr cmul col attenuations, g2).
Proof.
  induction 1 as [r g | r r1 r' g g1 g' rec att atts Hh Hs Hb IH];
    intros depth Hr Hlen.
  - cbn [length foldr]. replace (depth - Z.of_nat 0) with depth by lia.
    now destruct (ray_color hit scatter r depth world g) as [[col g2] | f].
  - cbn [length] in Hlen |- *.
    assert (Hd : 0 < depth) by lia.
    rewrite (ray_color_bounce _ _ _ _ _ _ _ _ Hd Hr Hh Hs).
    rewrite IH; [| int_bounds; lia | lia].
    replace (depth - 1 - Z.of_nat (length atts))
      with (depth - Z.of_nat (S (length atts))) by lia.
    now destruct (ray_color hit scatter r' _ world g') as [[col g2] | f].
Qed.

(** A call of [ray_color] whose ray bounces along a path returns the
    product of the attenuations of the path, in the order of the bounces,
    with what ends the path: black when the path uses up the budget or its
    last surface scatters nothing, the sky blend of the last ray when that
    ray leaves the scene with budget left. *)
Theorem ray_color_multiplies_attenuations (world : hittable) (r r' : ray)
    (g g' : rng) (attenuations : list color) (depth : Z) :
  bounces hit scatter world r g attenuations r' g' ->
  Int.in_range depth ->
  Z.of_nat (length attenuations) <= depth ->
  (Z.of_nat (length attenuations) = depth ->
   ray_color hit scatter r depth world g
   = Ok (foldr cmul black attenuations, g'))
  /\ (Z.of_nat (length attenuations) < depth ->
      hit world r' ray_t = None ->
      ray_color hit scatter r depth world g
      = Ok (foldr cmul (sky_blend (y (unit_vector (direction r'))))
              attenuations, g'))
  /\ (Z.of_nat (length attenuations) < depth ->
      forall (rec : hit_record) (g'' : rng),
        hit world r' ray_t = Some rec ->
        scatter rec r' g' = (None, g'') ->
        ray_color hit scatter r depth world g
        = Ok (foldr cmul black attenuations, g'')).
Proof.
  intros Hb Hr Hlen.
  pose proof (ray_color_along _ _ _ _ _ _ Hb depth Hr Hlen) as Heq.
  split; [| split].
  - intros Hd. rewrite Heq. unfold ray_color.
    rewrite ray_color_fuel_exhausted by lia. reflexivity.
  - intros Hd Hh. rewrite Heq. unfold ray_color. cbn [ray_color_fuel].
    destruct (Z.leb_spec (depth - Z.of_nat (length attenuations)) 0); [lia |].
    fold ray_t. rewrite Hh. reflexivity.
  - intros Hd rec g'' Hh Hs. rewrite Heq. unfold ray_color.
    cbn [ray_color_fuel].
    destruct (Z.leb_spec (depth - Z.of_nat (length attenuations)) 0); [lia |].
    fold ray_t. rewrite Hh, Hs. reflexivity.
Qed.

End RayPath.

(** ** The share of each worker *)

Section Shares.

Variable c : camera.

Hypothesis H_int : Int.in_range (image_height c).
Hypothesis T_int : Int.in_range (max_threads c).
Hypothesis H_pos : 1 <= image_height c.
Hypothesis T_pos : 1 <= max_threads c.

(** The spawn loop gives every worker but the last
    [image_height / max_threads] rows and the last worker the remainder of
    the division on top of that; with more workers than rows every worker
    but the last gets no row and the last one renders the whole image. *)
Theorem worker_shares (k : Z) :
  0 <= k < max_threads c ->
  Z.of_nat (length (thread_rows (thread_args c k)))
  = (if k <? max_threads c - 1
     then image_height c / max_threads c
     else image_height c / max_threads c
          + image_height c mod max_threads c)
  /\ (image_height c < max_threads c ->
      thread_rows (thread_args c k)
      = if k <? max_threads c - 1 then [] else int_range 0 (image_height c)).
Proof.
  intros Hk.
  rewrite (thread_args_exact c H_int T_int H_pos T_pos k Hk).
  pose proof (offset_bounds c H_pos T_pos) as (Ho & Hlo & Hhi).
  pose proof (Z.div_mod (image_height c) (max_threads c) ltac:(lia)) as Hdm.
  cbn [thread_rows]. rewrite length_int_range.
  set (o := image_height c / max_threads c) in *.
  split.
  - destruct (Z.ltb_spec k (max_threads c - 1)); nia.
  - intros Hlt.
    assert (Hz : o = 0) by (apply Z.div_small; lia).
    rewrite Hz.
    destruct (Z.ltb_spec k (max_threads c - 1)).
    + unfold int_range. apply seqZ_nil. lia.
    + now replace (k * 0) with 0 by lia.
Qed.

End Shares.

(** ** What the monitor prints *)

Section MonitorLog.




End MonitorLog.

(** ** An image with no row *)

Section NoRow.

Variables degrees_to_radians tan : float -> float.
Context {rng hittable hit_record : Type}.
Variable random_double : rng -> float * rng.
Variable random_in_unit_disk : rng -> vector3d * rng.
Variable hit : hittable -> ray -> interval -> option hit_record.
Variable scatter : hit_record -> ray -> rng -> option (color * ray) * rng.

Lemma thread_args_no_row (c : camera) (i : Z) :
  image_height c = 0 -> thread_args c i = (i, 0, 0).
Proof.
  intros Hh. unfold thread_args. rewrite Hh.
  assert (Hdiv : Int.div 0 (max_threads c) = 0).
  { unfold Int.div. now destruct (max_threads c). }
  rewrite Hdiv.
  assert (Hmul : Int.mul i 0 = 0).
  { unfold Int.mul. now rewrite Z.mul_0_r. }
  rewrite Hmul. now destruct (i <? Int.sub (max_threads c) 1).
Qed.

Lemma run_threads_no_row (world : hittable) (c : camera) (ks : list Z)
    (s : camera * rng) :
  image_height c = 0 ->
  run_threads random_double random_in_unit_disk hit scatter world
    (thread_args c <$> ks) s = Ok s.
Proof.
  intros Hh. induction ks as [| k ks IH]; [reflexivity |].
  cbn [fmap list_fmap]. rewrite (thread_args_no_row c k Hh).
  cbn [run_threads]. unfold render_thread, for_int, int_range.
  rewrite seqZ_nil by lia. cbn [for_each bind]. exact IH.
Qed.

Lemma foldl_add_zeros (n : nat) : foldl Int.add 0 (replicate n 0) = 0.
Proof. induction n as [| n IH]; [reflexivity | exact IH]. Qed.

(** A render of an image with no row does not return: the workers have
    nothing to do, and the first percentage of the monitor is
    [0 / 0 * 100], a NaN, whose conversion to [int] is undefined. *)
Theorem render_no_row_is_undefined (world : hittable) (c : camera) (g : rng)
    (fuel : nat) :
  image_height c = 0 ->
  0 <= max_threads c ->
  render degrees_to_radians tan random_double random_in_unit_disk hit scatter
    (S fuel) world c g = Fault BadConversion.
Proof.
  intros Hh Ht. unfold render, render_spawn.
  destruct (initialize degrees_to_radians tan c) as [c1 | f] eqn:Hinit.
  - apply initialize_vectors in Hinit
      as (_ & Hpr & _ & _ & _ & Hh1 & _).
    rewrite Hh in Hh1. cbn [bind]. unfold spawn_threads.
    rewrite (run_threads_no_row world c1 _ (c1, g) Hh1). cbn [bind].
    unfold print_render_progress. cbn [monitor_loop snd monitor_start percent].
    unfold monitor_pass. cbn [rawProgress].
    rewrite Hpr, foldl_add_zeros, Hh1. reflexivity.
  - exfalso. revert Hinit. unfold initialize.
    rewrite Hh. unfold Int.mul. rewrite Z.mul_0_l.
    unfold Vector.resize.
    change (Int.wrap 0 <? 0) with false. cbn [bind].
    destruct (Z.ltb_spec (max_threads c) 0); [lia | discriminate].
Qed.

End NoRow.

(** ** A second call of [initialize] *)

Section Again.

Variables degrees_to_radians tan : float -> float.



End Again.

(** ** The bytes of the bitmap *)

Section BitmapLayout.

Variable gamma_correction : color -> Z -> color.

Lemma uchar_of_double_range (d : float) (n : Z) :
  uchar_of_double d = Ok n -> 0 <= n <= 255.
Proof.
  unfold uchar_of_double.
  destruct (int_of_double d) as [m | f]; cbn [bind]; [| discriminate].
  destruct (Z.leb_spec 0 m); cbn [andb]; [| discriminate].
  destruct (Z.leb_spec m 255); [| discriminate].
  intros [= <-]. lia.
Qed.

Lemma bitmap_bytes_lookup (spp : Z) (pixels : list color) :
  forall data : list Z,
    bitmap_bytes gamma_correction spp pixels = Ok data ->
    length data = (3 * length pixels)%nat
    /\ forall (n : nat) (p : color),
        pixels !! n = Some p ->
        exists blue green red : Z,
          uchar_of_double (z (gamma_correction p spp) * 255)%float = Ok blue
          /\ uchar_of_double (y (gamma_correction p spp) * 255)%float
             = Ok green
          /\ uchar_of_double (x (gamma_correction p spp) * 255)%float = Ok red
          /\ data !! (3 * n)%nat = Some blue
          /\ data !! (3 * n + 1)%nat = Some green
          /\ data !! (3 * n + 2)%nat = Some red.
Proof.
  induction pixels as [| pixel rest IH]; intros data; cbn [bitmap_bytes].
  - intros [= <-]. split; [reflexivity |].
    intros n p Hn. now rewrite lookup_nil in Hn.
  - destruct (uchar_of_double (z (gamma_correction pixel spp) * 255))
      as [blue | f] eqn:Hb; cbn [bind]; [| discriminate].
    destruct (uchar_of_double (y (gamma_correction pixel spp) * 255))
      as [green | f] eqn:Hg; cbn [bind]; [| discriminate].
    destruct (uchar_of_double (x (gamma_correction pixel spp) * 255))
      as [red | f] eqn:Hr; cbn [bind]; [| discriminate].
    destruct (bitmap_bytes gamma_correction spp rest) as [tail | f];
      cbn [bind]; [| discriminate].
    intros [= <-]. destruct (IH tail eq_refl) as (Hlen & Hlook).
    split; [cbn [length]; lia |].
    intros [| n] p Hn.
    + injection Hn as <-. exists blue, green, red. now repeat split.
    + destruct (Hlook n p Hn) as (b & g0 & r0 & Hb' & Hg' & Hr' & H0 & H1 & H2).
      exists b, g0, r0.
      replace (3 * S n)%nat with (S (S (S (3 * n)))) by lia.
      now repeat split.
Qed.

(** The bytes that [get_bitmap_data] returns: three for each pixel of
    [image], in the order of the pixels, the blue byte first, then the
    green, then the red one, each the conversion of a gamma-corrected
    component times [255] and each in [0, 255]. *)
Theorem get_bitmap_data_layout (c : camera) (data : list Z) :
  get_bitmap_data gamma_correction c = Ok data ->
  length data = (3 * length (image c))%nat
  /\ Forall (fun b => 0 <= b <= 255) data
  /\ forall (n : nat) (p : color),
      image c !! n = Some p ->
      exists blue green red : Z,
        uchar_of_double
          (z (gamma_correction p (samples_per_pixel c)) * 255)%float = Ok blue
        /\ uchar_of_double
             (y (gamma_correction p (samples_per_pixel c)) * 255)%float
           = Ok green
        /\ uchar_of_double
             (x (gamma_correction p (samples_per_pixel c)) * 255)%float
           = Ok red
        /\ data !! (3 * n)%nat = Some blue
        /\ data !! (3 * n + 1)%nat = Some green
        /\ data !! (3 * n + 2)%nat = Some red.
Proof.
  intros Hdata. unfold get_bitmap_data in Hdata.
  destruct (bitmap_bytes_lookup _ _ _ Hdata) as (Hlen & Hlook).
  split; [exact Hlen |]. split; [| exact Hlook].
  (* every byte is one of the three of some pixel *)
  apply Forall_lookup. intros m b Hm.
  pose proof (lookup_lt_Some _ _ _ Hm) as Hlt. rewrite Hlen in Hlt.
  destruct (lookup_lt_is_Some_2 (image c) (m / 3)) as [p Hp].
  { apply Nat.Div0.div_lt_upper_bound. lia. }
  destruct (Hlook _ _ Hp) as (b0 & b1 & b2 & E0 & E1 & E2 & L0 & L1 & L2).
  pose proof (Nat.div_mod_eq m 3) as Hdiv.
  pose proof (Nat.mod_upper_bound m 3 ltac:(lia)) as Hmod.
  destruct (m mod 3)%nat as [| [| [| k]]] eqn:Ek; [| | | lia].
  - rewrite Nat.add_0_r in Hdiv. rewrite <- Hdiv, Hm in L0.
    injection L0 as ->. eauto using uchar_of_double_range.
  - rewrite <- Hdiv, Hm in L1.
    injection L1 as ->. eauto using uchar_of_double_range.
  - rewrite <- Hdiv, Hm in L2.
    injection L2 as ->. eauto using uchar_of_double_range.
Qed.

Lemma le32_store_int_apart (pos pos' : nat) (n : Z) (bytes : list Z) :
  (pos' + 3 < pos \/ pos + 3 < pos')%nat ->
  le32 pos' (store_int pos n bytes) = le32 pos' bytes.
Proof.
  intros Hapart. unfold le32, store_int.
  rewrite !list_lookup_total_alt.
  now rewrite !list_lookup_insert_ne by lia.
Qed.

Lemma lookup_store_int_apart (pos k : nat) (n : Z) (bytes : list Z) :
  (k < pos \/ pos + 3 < k)%nat ->
  store_int pos n bytes !! k = bytes !! k.
Proof.
  intros Hapart. unfold store_int.
  now rewrite !list_lookup_insert_ne by lia.
Qed.

(** The two headers that [write_image] writes: fourteen and forty bytes,
    the letters [BM], a data offset of [54], an info header size of [40],
    the width and the height as their values modulo [2^32] (the values
    themselves when they are not negative), one colour plane, [24] bits
    per pixel, and zero in the application data and in the twenty-four
    bytes from the compression field on. *)
Theorem bitmap_headers (c : camera) :
  length (bmp_header c) = 14%nat
  /\ length (bmp_info c) = 40%nat
  /\ bmp_header c !! 0%nat = Some 66
  /\ bmp_header c !! 1%nat = Some 77
  /\ le32 6 (bmp_header c) = 0
  /\ le32 10 (bmp_header c) = 54
  /\ le32 0 (bmp_info c) = 40
  /\ le32 4 (bmp_info c) = image_width c mod 2 ^ 32
  /\ le32 8 (bmp_info c) = image_height c mod 2 ^ 32
  /\ (0 <= image_width c -> Int.in_range (image_width c) ->
      le32 4 (bmp_info c) = image_width c)
  /\ (0 <= image_height c -> Int.in_range (image_height c) ->
      le32 8 (bmp_info c) = image_height c)
  /\ bmp_info c !! 12%nat = Some 1
  /\ bmp_info c !! 13%nat = Some 0
  /\ bmp_info c !! 14%nat = Some 24
  /\ bmp_info c !! 15%nat = Some 0
  /\ drop 16 (bmp_info c) = replicate 24 0.
Proof.
  assert (Hw : le32 4 (bmp_info c) = image_width c mod 2 ^ 32).
  { unfold bmp_info. rewrite le32_store_int_apart by lia.
    apply le32_store_int. cbn. lia. }
  assert (Hh : le32 8 (bmp_info c) = image_height c mod 2 ^ 32).
  { unfold bmp_info. apply le32_store_int.
    unfold store_int. rewrite !length_insert. cbn. lia. }
  split; [unfold bmp_header, store_int; now rewrite !length_insert |].
  split; [unfold bmp_info, store_int; now rewrite !length_insert |].
  split; [unfold bmp_header; now rewrite lookup_store_int_apart by lia |].
  split; [unfold bmp_header; now rewrite lookup_store_int_apart by lia |].
  split; [unfold bmp_header; now rewrite le32_store_int_apart by lia |].
  split; [unfold bmp_header; now rewrite le32_store_int_apart by lia |].
  split; [unfold bmp_info; now rewrite !le32_store_int_apart by lia |].
  split; [exact Hw |]. split; [exact Hh |].
  split; [intros H0 Hr; rewrite Hw; apply Z.mod_small; int_bounds; lia |].
  split; [intros H0 Hr; rewrite Hh; apply Z.mod_small; int_bounds; lia |].
  split; [unfold bmp_info; now rewrite !lookup_store_int_apart by lia |].
  split; [unfold bmp_info; now rewrite !lookup_store_int_apart by lia |].
  split; [unfold bmp_info; now rewrite !lookup_store_int_apart by lia |].
  split; [unfold bmp_info; now rewrite !lookup_store_int_apart by lia |].
  reflexivity.
Qed.

End BitmapLayout.

(** ** The rows of the file *)

Section FileRows.

Variable gamma_correction : color -> Z -> color.
Variable c : camera.

Hypothesis W_pos : 0 <= image_width c.
Hypothesis H_pos : 1 <= image_height c.
Hypothesis H_int : Int.in_range (image_height c).
Hypothesis size_int : Int.in_range (3 * image_width c * image_height c).

(** The offset of the row that pass [i] of the row loop writes. *)
Lemma row_offset_exact (i : Z) :
  0 <= i < image_height c ->
  Int.mul
    (Int.mul (image_width c) (Int.sub (Int.sub (image_height c) i) 1)) 3
  = 3 * image_width c * (image_height c - 1 - i).
Proof.
  intros Hi. int_bounds. unfold Int.sub, Int.mul.
  rewrite (wrap_id (image_height c - i)) by (int_bounds; lia).
  rewrite (wrap_id (image_height c - i - 1)) by (int_bounds; lia).
  rewrite (wrap_id (image_width c * _)) by (int_bounds; nia).
  rewrite wrap_id by (int_bounds; nia).
  lia.
Qed.

Lemma row_padding_exact :
  row_padding c = (4 - (3 * image_width c) mod 4) mod 4
  /\ (3 * image_width c + row_padding c) mod 4 = 0.
Proof.
  assert (Hpad : row_padding c = (4 - (3 * image_width c) mod 4) mod 4).
  { unfold row_padding, Int.rem, Int.sub, Int.mul. int_bounds.
    assert (Hrow : image_width c * 3 <= 3 * image_width c * image_height c)
      by nia.
    rewrite (wrap_id (image_width c * 3)) by (int_bounds; lia).
    rewrite (Z.rem_mod_nonneg (image_width c * 3) 4) by lia.
    pose proof (Z.mod_pos_bound (image_width c * 3) 4 ltac:(lia)) as Hm.
    rewrite (wrap_id (_ mod 4)) by (int_bounds; lia).
    rewrite (wrap_id (4 - _)) by (int_bounds; lia).
    rewrite (Z.rem_mod_nonneg (4 - _) 4) by lia.
    pose proof (Z.mod_pos_bound (4 - (image_width c * 3) mod 4) 4
                  ltac:(lia)) as Hm'.
    rewrite wrap_id by (int_bounds; lia).
    now rewrite (Z.mul_comm (image_width c) 3). }
  split; [exact Hpad |]. rewrite Hpad.
  rewrite Zplus_mod_idemp_r.
  pose proof (Z.div_mod (3 * image_width c) 4 ltac:(lia)) as Hdm.
  replace (3 * image_width c + (4 - (3 * image_width c) mod 4))
    with ((1 + (3 * image_width c) / 4) * 4) by lia.
  apply Z.mod_mul. lia.
Qed.

(** What the passes for the rows [a], [a + 1], ... leave behind what the
    file held before them. *)
Lemma write_rows_lookup (data : list Z) (n : nat) :
  forall (a : Z) (file file' : list Z),
    for_each (seqZ a (Z.of_nat n)) (write_row c data) file = Ok file' ->
    0 <= a -> a + Z.of_nat n <= image_height c ->
    forall r q : Z,
      a <= r < a + Z.of_nat n ->
      (0 <= q < 3 * image_width c ->
       file' !! (length file
                 + Z.to_nat ((r - a) * (3 * image_width c + row_padding c)
                             + q))%nat
       = data !! Z.to_nat (3 * image_width c * (image_height c - 1 - r) + q))
      /\ (0 <= q < row_padding c ->
          file' !! (length file
                    + Z.to_nat ((r - a) * (3 * image_width c + row_padding c)
                                + 3 * image_width c + q))%nat
          = Some 0).
Proof.
  pose proof (row_padding_bounds c) as Hp.
  set (stride := 3 * image_width c + row_padding c).
  induction n as [| n IH]; intros a file file' Hrun Ha Hend r q Hr; [lia |].
  rewrite seqZ_cons in Hrun by lia. cbn [for_each] in Hrun.
  unfold write_row at 1 in Hrun.
  rewrite row_offset_exact in Hrun by lia.
  destruct (read_block _ _ data) as [row | f] eqn:Hrow; cbn [bind] in Hrun;
    [| discriminate].
  replace (Z.pred (Z.of_nat (S n))) with (Z.of_nat n) in Hrun by lia.
  pose proof (read_block_length _ _ _ _ Hrow) as [_ Hlen].
  set (pad := replicate (Z.to_nat (row_padding c)) 0) in *.
  assert (Hlen1 : length (file ++ row ++ pad)
                  = (length file + Z.to_nat stride)%nat).
  { rewrite !length_app. unfold pad. rewrite length_replicate.
    unfold stride. lia. }
  destruct (Z.eq_dec r a) as [-> | Hne].
  - destruct (write_rows_append _ _ _ _ _ Hrun) as (rows & -> & _).
    replace ((a - a) * stride) with 0 by lia. rewrite !Z.add_0_l.
    split; intros Hq.
    + rewrite lookup_app_l by (rewrite Hlen1; unfold stride; lia).
      rewrite lookup_app_r by lia.
      rewrite lookup_app_l by lia.
      replace (length file + Z.to_nat q - length file)%nat
        with (Z.to_nat q) by lia.
      revert Hrow. unfold read_block.
      destruct (Z.leb_spec 0 (3 * image_width c * (image_height c - 1 - a)));
        cbn [andb]; [| discriminate].
      destruct (Z.leb_spec 0 (3 * image_width c)); cbn [andb];
        [| discriminate].
      destruct (Z.leb_spec
                  (3 * image_width c * (image_height c - 1 - a)
                   + 3 * image_width c) (Z.of_nat (length data)));
        [| discriminate].
      intros [= <-].
      rewrite lookup_take, lookup_drop.
      destruct (decide (Z.to_nat q < Z.to_nat (3 * image_width c))%nat);
        [| lia].
      f_equal. lia.
    + rewrite lookup_app_l by (rewrite Hlen1; unfold stride; lia).
      rewrite lookup_app_r by lia.
      rewrite lookup_app_r by lia.
      unfold pad. apply lookup_replicate_2. lia.
  - destruct (IH _ _ _ Hrun ltac:(lia) ltac:(lia) r q ltac:(lia))
      as [Hdata Hzero].
    assert (Hprev : 0 <= (r - Z.succ a) * stride) by (unfold stride; nia).
    assert (Hsplit : (r - a) * stride = (r - Z.succ a) * stride + stride)
      by lia.
    assert (Hs : 0 <= stride) by (unfold stride; lia).
    rewrite Hlen1 in Hdata, Hzero.
    split; intros Hq.
    + rewrite <- (Hdata Hq). f_equal. rewrite Hsplit. lia.
    + rewrite <- (Hzero Hq). f_equal. rewrite Hsplit. lia.
Qed.

(** The file that [write_image] writes holds the rows of the image from
    the last one to the first, each followed by [row_padding] zero bytes
    so that a row takes a multiple of four bytes: the pixel [(i, j)] of
    the image stands, as its blue, green and red byte, at offset
    [54 + (image_height - 1 - j) * stride + 3 * i]. *)
Theorem write_image_layout (file : list Z) :
  write_image gamma_correction c = Ok file ->
  (3 * image_width c + row_padding c) mod 4 = 0
  /\ (forall (i j : Z) (p : color),
        0 <= i < image_width c -> 0 <= j < image_height c ->
        image c !! Z.to_nat (j * image_width c + i) = Some p ->
        exists blue green red : Z,
          uchar_of_double
            (z (gamma_correction p (samples_per_pixel c)) * 255)%float
          = Ok blue
          /\ uchar_of_double
               (y (gamma_correction p (samples_per_pixel c)) * 255)%float
             = Ok green
          /\ uchar_of_double
               (x (gamma_correction p (samples_per_pixel c)) * 255)%float
             = Ok red
          /\ file !! Z.to_nat
                       (54 + (image_height c - 1 - j)
                             * (3 * image_width c + row_padding c)
                        + 3 * i) = Some blue
          /\ file !! Z.to_nat
                       (54 + (image_height c - 1 - j)
                             * (3 * image_width c + row_padding c)
                        + 3 * i + 1) = Some green
          /\ file !! Z.to_nat
                       (54 + (image_height c - 1 - j)
                             * (3 * image_width c + row_padding c)
                        + 3 * i + 2) = Some red)
  /\ (forall r q : Z,
        0 <= r < image_height c -> 0 <= q < row_padding c ->
        file !! Z.to_nat
                  (54 + r * (3 * image_width c + row_padding c)
                   + 3 * image_width c + q) = Some 0).
Proof.
  intros Hrun. split; [apply row_padding_exact |].
  pose proof (row_padding_bounds c) as Hp.
  unfold write_image in Hrun.
  destruct (get_bitmap_data gamma_correction c) as [data | f] eqn:Hdata;
    cbn [bind] in Hrun; [| discriminate].
  destruct (bitmap_bytes_lookup gamma_correction _ _ data Hdata)
    as (_ & Hpix).
  unfold for_int, int_range in Hrun.
  replace (image_height c - 0) with (Z.of_nat (Z.to_nat (image_height c)))
    in Hrun by lia.
  pose proof (write_rows_lookup data _ _ _ _ Hrun ltac:(lia) ltac:(lia))
    as Hrows.
  assert (Hlen : length (bmp_header c ++ bmp_info c) = 54%nat).
  { rewrite length_app. unfold bmp_header, bmp_info, store_int.
    now rewrite !length_insert. }
  rewrite Hlen in Hrows.
  set (stride := 3 * image_width c + row_padding c) in *.
  assert (Hs : 0 <= stride) by (unfold stride; lia).
  split.
  - intros i j p Hi Hj Hp0.
    destruct (Hpix _ _ Hp0) as (b & g0 & r0 & Hb & Hg & Hr & H0 & H1 & H2).
    exists b, g0, r0. split; [exact Hb |]. split; [exact Hg |].
    split; [exact Hr |].
    assert (Hrow : 0 <= (image_height c - 1 - j) * stride) by nia.
    assert (Hidx : forall k : Z, 0 <= k < 3 ->
              file !! Z.to_nat (54 + (image_height c - 1 - j) * stride
                                + 3 * i + k)
              = data !! (3 * Z.to_nat (j * image_width c + i)
                         + Z.to_nat k)%nat).
    { intros k Hk.
      destruct (Hrows (image_height c - 1 - j) (3 * i + k) ltac:(lia))
        as [Hd _].
      rewrite Z.sub_0_r in Hd.
      replace (Z.to_nat (54 + (image_height c - 1 - j) * stride + 3 * i + k))
        with (54 + Z.to_nat ((image_height c - 1 - j) * stride
                             + (3 * i + k)))%nat by lia.
      rewrite Hd by lia. f_equal. nia. }
    split; [| split].
    + rewrite <- (Z.add_0_r (_ + 3 * i)), (Hidx 0), <- H0 by lia.
      f_equal. lia.
    + rewrite (Hidx 1), <- H1 by lia. f_equal.
    + rewrite (Hidx 2), <- H2 by lia. f_equal.
  - intros r q Hr Hq.
    destruct (Hrows r q ltac:(lia)) as [_ Hz].
    rewrite Z.sub_0_r in Hz. rewrite <- (Hz Hq). f_equal.
    assert (0 <= r * stride) by nia. lia.
Qed.

(** With enough data every pass of the row loop finds its row. *)
Lemma write_image_returns (data : list Z) :
  get_bitmap_data gamma_correction c = Ok data ->
  image_width c * image_height c <= Z.of_nat (length (image c)) ->
  exists file : list Z, write_image gamma_correction c = Ok file.
Proof.
  intros Hdata Hpix.
  destruct (bitmap_bytes_lookup gamma_correction _ _ data Hdata)
    as (Hlen & _).
  unfold write_image. rewrite Hdata. cbn [bind].
  destruct (for_int_total (fun _ _ => True) (write_row c data)
              (image_height c) (Z.to_nat (image_height c)) 0
              (bmp_header c ++ bmp_info c)) as (file & Hrun & _);
    [lia | | exact I | now exists file].
  intros k t Hk _. unfold write_row.
  rewrite row_offset_exact by lia. unfold read_block.
  destruct (Z.leb_spec 0 (3 * image_width c * (image_height c - 1 - k)));
    [| nia].
  destruct (Z.leb_spec 0 (3 * image_width c)); [| lia].
  destruct (Z.leb_spec
              (3 * image_width c * (image_height c - 1 - k)
               + 3 * image_width c) (Z.of_nat (length data))); [| nia].
  cbn [andb bind]. eexists. split; [reflexivity | exact I].
Qed.

(** What becomes of [write_image] once the bitmap data is made.  On a
    file that cannot be opened the first [fwrite] is given the null
    pointer.  On a file that is opened, every [fwrite] reads inside the
    data when [image] holds [image_width * image_height] pixels, and the
    first [fwrite] of the row loop, which reads the last row, reaches
    past the end of the data when [image] holds fewer, as it does before
    the first call of [render]. *)
Theorem write_image_needs_pixels (data : list Z) :
  get_bitmap_data gamma_correction c = Ok data ->
  write_image_file gamma_correction false c = Fault NullStream
  /\ (image_width c * image_height c <= Z.of_nat (length (image c)) ->
      exists file : list Z,
        write_image_file gamma_correction true c = Ok file)
  /\ (Z.of_nat (length (image c)) < image_width c * image_height c ->
      write_image_file gamma_correction true c = Fault OutOfBounds).
Proof.
  intros Hdata. unfold write_image_file.
  split; [now rewrite Hdata |].
  split; [now apply (write_image_returns data) |].
  (* the first pass reads the last row of the image *)
  intros Hshort.
  destruct (bitmap_bytes_lookup gamma_correction _ _ data Hdata)
    as (Hlen & _).
  unfold write_image. rewrite Hdata. cbn [bind].
  unfold for_int, int_range.
  rewrite seqZ_cons by lia. cbn [for_each].
  unfold write_row at 1.
  rewrite row_offset_exact by lia. unfold read_block.
  destruct (Z.leb_spec
              (3 * image_width c * (image_height c - 1 - 0)
               + 3 * image_width c) (Z.of_nat (length data))) as [Hle | _].
  - exfalso. nia.
  - now rewrite andb_false_r.
Qed.

End FileRows.

(** ** What [render] leaves in the image *)

Section Painting.

Variables degrees_to_radians tan : float -> float.
Context {rng hittable hit_record : Type}.
Variable random_double : rng -> float * rng.
Variable random_in_unit_disk : rng -> vector3d * rng.
Variable hit : hittable -> ray -> interval -> option hit_record.
Variable scatter : hit_record -> ray -> rng -> option (color * ray) * rng.
Variable world : hittable.

Let sample_colours' :=
  sample_colours random_double random_in_unit_disk hit scatter world.
Let painted' := painted random_double random_in_unit_disk hit scatter world.
Let sampled' := sampled random_double random_in_unit_disk hit scatter world.

(** The samples depend on the settings of the camera only. *)
Lemma sample_colours_settings (c1 c2 : camera) (i j : Z) (n : nat) :
  same_settings c1 c2 ->
  forall g : rng, sample_colours' c2 i j n g = sample_colours' c1 i j n g.
Proof.
  assert (Hstrip : forall (c : camera) (g : rng),
            sample_colours' c i j n g
            = sample_colours' (set_render_progress [] (set_image [] c))
                i j n g).
  { intros c. unfold sample_colours'.
    induction n as [| k IH]; intros g; [reflexivity |].
    cbn [sample_colours].
    change (get_ray random_double random_in_unit_disk
              (set_render_progress [] (set_image [] c)) i j g)
      with (get_ray random_double random_in_unit_disk c i j g).
    destruct (get_ray random_double random_in_unit_disk c i j g) as [r g1].
    change (max_depth (set_render_progress [] (set_image [] c)))
      with (max_depth c).
    destruct (ray_color hit scatter r (max_depth c) world g1)
      as [[col g2] | f]; cbn [bind]; [| reflexivity].
    now rewrite IH. }
  intros Hset g. rewrite (Hstrip c2), (Hstrip c1).
  unfold same_settings in Hset. now rewrite Hset.
Qed.

Lemma same_settings_trans (c1 c2 c3 : camera) :
  same_settings c1 c2 -> same_settings c2 c3 -> same_settings c1 c3.
Proof. unfold same_settings. congruence. Qed.

Variable c1 : camera.

Hypothesis W_pos : 0 <= image_width c1.
Hypothesis H_int : Int.in_range (image_height c1).
Hypothesis H_pos : 1 <= image_height c1.
Hypothesis size_int : Int.in_range (image_height c1 * image_width c1).

(** The sample loop of pixel [(i, j)] paints its slot. *)
Lemma paint_pixel (i j : Z) (s s' : camera * rng) :
  0 <= i < image_width c1 -> 0 <= j < image_height c1 ->
  painted' c1 (j * image_width c1 + i) (fst s) ->
  for_int 0 (samples_per_pixel (fst s))
    (render_sample random_double random_in_unit_disk hit scatter world i j) s
  = Ok s' ->
  painted' c1 (j * image_width c1 + i + 1) (fst s').
Proof.
  intros Hi Hj (Hset & Hdone & Htodo) Hrun.
  destruct s as [c g], s' as [c' g']. cbn [fst] in *.
  destruct (same_settings_all _ _ Hset) as (Ew & Eh & Es & _).
  destruct (pixel_accumulates_samples _ _ _ _ _ _ _ _ _ _ _ Hrun)
    as (cols & Hcols & Hlen & Hset' & _ & Himg).
  assert (Hidx : pixel_index c i j = j * image_width c1 + i).
  { rewrite <- Ew. apply pixel_index_exact; rewrite ?Ew, ?Eh; assumption. }
  rewrite Hidx in Himg.
  assert (Hslot : 0 <= j * image_width c1 + i
                  < image_height c1 * image_width c1) by nia.
  pose proof (Htodo (j * image_width c1 + i) ltac:(lia)) as Hblack.
  specialize (Himg black Hblack).
  split; [now apply (same_settings_trans _ c) |]. split.
  - intros i' j' Hi' Hj' Hlt.
    destruct (Z.eq_dec (j' * image_width c1 + i') (j * image_width c1 + i))
      as [Heq | Hne].
    + assert (j' = j) by nia. assert (i' = i) by nia. subst i' j'.
      exists g, g', cols.
      change (sample_colours' c1 i j (Z.to_nat (samples_per_pixel c1)) g
              = Ok (cols, g')
              /\ length cols = Z.to_nat (samples_per_pixel c1)
              /\ image c' !! Z.to_nat (j * image_width c1 + i)
                 = Some (foldl vadd black cols)).
      rewrite <- (sample_colours_settings c1 c i j _ Hset), <- Es.
      split; [exact Hcols |]. split; [exact Hlen |].
      rewrite Himg. apply list_lookup_insert_eq.
      apply lookup_lt_is_Some. rewrite Hblack. eauto.
    + destruct (Hdone i' j' Hi' Hj' ltac:(lia)) as (g0 & g1 & cs & Hc & Hl & Hs).
      exists g0, g1, cs. split; [exact Hc |]. split; [exact Hl |].
      rewrite Himg, list_lookup_insert_ne by nia. exact Hs.
  - intros m Hm. rewrite Himg, list_lookup_insert_ne by lia.
    apply Htodo. lia.
Qed.

(** A pass of the row loop paints the slots of its row. *)
Lemma paint_row (threadId j : Z) (s s' : camera * rng) :
  0 <= j < image_height c1 ->
  painted' c1 (j * image_width c1) (fst s) ->
  render_row random_double random_in_unit_disk hit scatter
    world threadId j s = Ok s' ->
  painted' c1 ((j + 1) * image_width c1) (fst s').
Proof.
  intros Hj Hs Hrow. unfold render_row in Hrow.
  destruct (for_int 0 (image_width (fst s)) _ s) as [s1 | f] eqn:Hcols;
    cbn [bind] in Hrow; [| discriminate].
  destruct (Vector.update threadId _ (render_progress (fst s1)))
    as [pr | f]; cbn [bind] in Hrow; [| discriminate].
  injection Hrow as <-. cbn [fst].
  assert (Ew : image_width (fst s) = image_width c1).
  { destruct Hs as (Hset & _). now destruct (same_settings_all _ _ Hset). }
  rewrite Ew in Hcols.
  assert (Hs1 : painted' c1 (j * image_width c1 + image_width c1) (fst s1)).
  { revert Hcols.
    apply (for_int_indexed
             (fun i t => painted' c1 (j * image_width c1 + i) (fst t))
             _ _ (Z.to_nat (image_width c1))); [lia | |].
    - intros i t t' Hi Ht Hrun.
      replace (j * image_width c1 + (i + 1))
        with (j * image_width c1 + i + 1) by lia.
      now apply (paint_pixel i j t t').
    - now rewrite Z.add_0_r. }
  replace ((j + 1) * image_width c1)
    with (j * image_width c1 + image_width c1) by lia.
  destruct Hs1 as (Hset & Hdone & Htodo).
  split; [| split; assumption].
  unfold same_settings in *. rewrite Hset. now destruct (fst s1).
Qed.

(** A worker paints the slots of its rows. *)
Lemma paint_rows (threadId minRow maxRow : Z) (s s' : camera * rng) :
  0 <= minRow <= maxRow -> maxRow <= image_height c1 ->
  painted' c1 (minRow * image_width c1) (fst s) ->
  render_thread random_double random_in_unit_disk hit scatter
    world threadId minRow maxRow s = Ok s' ->
  painted' c1 (maxRow * image_width c1) (fst s').
Proof.
  intros Hrows Hmax Hs. unfold render_thread.
  apply (for_int_indexed
           (fun j t => painted' c1 (j * image_width c1) (fst t))
           _ _ (Z.to_nat (maxRow - minRow))); [lia | | assumption].
  intros j t t' Hj Ht Hrow.
  apply (paint_row threadId j t t'); [lia | assumption | assumption].
Qed.

Hypothesis T_int : Int.in_range (max_threads c1).
Hypothesis T_pos : 1 <= max_threads c1.

(** The workers from worker [a] on, one after the other, paint the rest
    of the image. *)
Lemma paint_threads (n : nat) :
  forall (a : Z) (s s' : camera * rng),
    Z.of_nat n = max_threads c1 - a -> 0 <= a ->
    painted' c1 (rows_before c1 a * image_width c1) (fst s) ->
    run_threads random_double random_in_unit_disk hit scatter
      world (thread_args c1 <$> seqZ a (max_threads c1 - a)) s = Ok s' ->
    painted' c1 (image_height c1 * image_width c1) (fst s').
Proof.
  induction n as [| n IH]; intros a s s' Hn Ha Hs.
  - rewrite seqZ_nil by lia. cbn. intros [= <-].
    unfold rows_before in Hs.
    destruct (Z.ltb_spec a (max_threads c1)); [lia | assumption].
  - rewrite seqZ_cons by lia. rewrite fmap_cons.
    rewrite (thread_args_exact c1 H_int T_int H_pos T_pos a) by lia.
    cbn [run_threads].
    pose proof (upper_bounds c1 H_pos T_pos a ltac:(lia)) as Hu.
    pose proof (offset_bounds c1 H_pos T_pos) as Ho.
    set (o := image_height c1 / max_threads c1) in *.
    assert (Hbefore : rows_before c1 a = a * o).
    { unfold rows_before. destruct (Z.ltb_spec a (max_threads c1)); [| lia].
      reflexivity. }
    assert (Hafter : rows_before c1 (Z.succ a) = row_end c1 a).
    { unfold rows_before, row_end. fold o.
      destruct (Z.ltb_spec (Z.succ a) (max_threads c1)),
        (Z.ltb_spec a (max_threads c1 - 1)); lia. }
    rewrite Hbefore in Hs.
    assert (Hlo : 0 <= a * o) by nia.
    change (if a <? max_threads c1 - 1 then (a + 1) * o else image_height c1)
      with (row_end c1 a).
    destruct (render_thread random_double random_in_unit_disk hit scatter
                world a (a * o) (row_end c1 a) s) as [s1 | f] eqn:Hrun;
      cbn [bind]; [| discriminate].
    replace (Z.pred (max_threads c1 - a))
      with (max_threads c1 - Z.succ a) by lia.
    apply IH; [lia | lia |].
    rewrite Hafter.
    apply (paint_rows a (a * o) (row_end c1 a) s s1); try assumption; lia.
Qed.

End Painting.

Section Rendered.

Variables degrees_to_radians tan : float -> float.
Context {rng hittable hit_record : Type}.
Variable random_double : rng -> float * rng.
Variable random_in_unit_disk : rng -> vector3d * rng.
Variable hit : hittable -> ray -> interval -> option hit_record.
Variable scatter : hit_record -> ray -> rng -> option (color * ray) * rng.

(** The camera that [render] hands back is painted all over, with the
    geometry that [initialize] has computed. *)
Lemma render_painted (c c3 : camera) (world : hittable) (g g3 : rng)
    (fuel : nat) :
  renderable c ->
  render degrees_to_radians tan random_double random_in_unit_disk
    hit scatter fuel world c g = Ok (c3, g3) ->
  exists c1 : camera,
    image_width c1 = image_width c
    /\ image_height c1 = image_height c
    /\ painted random_double random_in_unit_disk hit scatter world
         c1 (image_height c1 * image_width c1) c3.
Proof.
  intros Hc Hrender.
  destruct (initialize_returns degrees_to_radians tan c Hc)
    as (c1 & Hinit & Hready & Ew & Eh & Et).
  pose proof Hready as (HH & H1 & HW & HHW & HT & T1 & _).
  unfold render, render_spawn in Hrender. rewrite Hinit in Hrender.
  cbn [bind] in Hrender.
  destruct (run_threads random_double random_in_unit_disk hit scatter world
              (spawn_threads c1) (c1, g)) as [[c2 g2] | f] eqn:Hrun;
    cbn [bind] in Hrender; [| discriminate].
  destruct (print_render_progress fuel c2) as [[c3' out] | f] eqn:Hprint;
    cbn [bind] in Hrender; [| discriminate].
  injection Hrender as -> _.
  apply print_render_progress_resets in Hprint.
  assert (Hstart : painted random_double random_in_unit_disk hit scatter
                     world c1 (rows_before c1 0 * image_width c1) c1).
  { unfold rows_before. destruct (Z.ltb_spec 0 (max_threads c1)); [| lia].
    split; [reflexivity |]. split; [intros i' j' Hi' Hj' Hlt; nia |].
    intros m Hm.
    destruct (initialize_vectors _ _ _ _ Hinit) as (Himg & _).
    rewrite Himg. apply lookup_replicate_2.
    destruct Hc as (_ & _ & _ & Hr & _).
    unfold Int.mul. rewrite (wrap_id _ Hr). rewrite <- Eh, <- Ew. lia. }
  unfold spawn_threads, int_range in Hrun.
  pose proof (paint_threads random_double random_in_unit_disk hit scatter
                world c1 HW HH H1 HHW HT T1 (Z.to_nat (max_threads c1)) 0
                (c1, g) (c2, g2) ltac:(lia) ltac:(lia) Hstart Hrun)
    as (Hset & Hdone & Htodo).
  cbn [fst] in *.
  exists c1. split; [exact Ew |]. split; [exact Eh |].
  rewrite Hprint. split; [| split; assumption].
  unfold same_settings in *. rewrite Hset. now destruct c2.
Qed.

(** When [render] returns on a camera that can be rendered, with the
    workers run one after the other, every slot [j * image_width + i] of
    the image holds the sum, from black on, of the colours that
    [ray_color] gives to [samples_per_pixel] rays of [get_ray (i, j)]:
    no pixel is left out, none is painted twice, and nothing is divided
    or clamped on the way. *)
Theorem render_sums_samples (c c3 : camera) (world : hittable) (g g3 : rng)
    (fuel : nat) :
  renderable c ->
  render degrees_to_radians tan random_double random_in_unit_disk
    hit scatter fuel world c g = Ok (c3, g3) ->
  forall i j : Z,
    0 <= i < image_width c -> 0 <= j < image_height c ->
    sampled random_double random_in_unit_disk hit scatter world
      c3 (image c3) i j.
Proof.
  intros Hc Hrender i j Hi Hj.
  destruct (render_painted c c3 world g g3 fuel Hc Hrender)
    as (c1 & Ew & Eh & Hset & Hdone & _).
  destruct Hc as (_ & _ & HW & _).
  destruct (same_settings_all _ _ Hset) as (Ew3 & _ & Es3 & _).
  (* the slot is painted, with the geometry of [c1] *)
  destruct (Hdone i j ltac:(lia) ltac:(lia) ltac:(nia))
    as (g0 & g1 & cols & Hcols & Hlen & Hslot).
  (* which is the geometry of [c3] *)
  exists g0, g1, cols. rewrite Ew3, Es3.
  rewrite (sample_colours_settings random_double random_in_unit_disk hit
             scatter world c1 c3 i j _ Hset).
  split; [exact Hcols |]. split; [exact Hlen |]. exact Hslot.
Qed.

Variable gamma_correction : color -> Z -> color.

(** The camera that [render] hands back can be written: on a file that
    is opened, [write_image] finds in [image] every pixel it reads, and
    writes the file whenever the components of the pixels convert to
    bytes. *)
Theorem write_image_after_render (c c3 : camera) (world : hittable)
    (g g3 : rng) (fuel : nat) (data : list Z) :
  renderable c ->
  Int.in_range (3 * image_width c * image_height c) ->
  render degrees_to_radians tan random_double random_in_unit_disk
    hit scatter fuel world c g = Ok (c3, g3) ->
  get_bitmap_data gamma_correction c3 = Ok data ->
  exists file : list Z,
    write_image_file gamma_correction true c3 = Ok file.
Proof.
  intros Hc Hsize Hrender Hdata. unfold write_image_file.
  destruct (render_painted c c3 world g g3 fuel Hc Hrender)
    as (c1 & Ew & Eh & Hset & Hdone & _).
  destruct Hc as (HH & H1 & HW & _).
  destruct (same_settings_all _ _ Hset) as (Ew3 & Eh3 & _).
  assert (HW3 : 0 <= image_width c3) by (rewrite Ew3, Ew; exact HW).
  assert (H13 : 1 <= image_height c3) by (rewrite Eh3, Eh; exact H1).
  assert (HH3 : Int.in_range (image_height c3))
    by (rewrite Eh3, Eh; exact HH).
  assert (Hsize3 : Int.in_range (3 * image_width c3 * image_height c3))
    by (rewrite Ew3, Eh3, Ew, Eh; exact Hsize).
  apply (write_image_returns gamma_correction c3 HW3 H13 HH3 Hsize3
           data Hdata).
  rewrite Ew3, Eh3.
  destruct (Z.eq_dec (image_width c1) 0) as [-> | Hne]; [lia |].
  (* the last slot of the image is there *)
  destruct (Hdone (image_width c1 - 1) (image_height c1 - 1)
              ltac:(lia) ltac:(lia) ltac:(nia))
    as (_ & _ & cols & _ & _ & Hslot).
  apply lookup_lt_Some in Hslot. nia.
Qed.

End Rendered.

(** ** Rounding, and the percentages of the monitors

    The quotient and the product of [percent = (double)(rawProgress) /
    image_height * 100] are rounded to nearest; in the range of the
    [int]s a rounding adds at most one part in [2^52] to what it
    rounds. *)

Section RoundingBound.

Lemma digits2_pos_upper (p : positive) :
  Z.pos p < 2 ^ Z.pos (digits2_pos p).
Proof.
  induction p as [p IH | p IH |]; cbn [digits2_pos].
  - rewrite Pos2Z.inj_succ, Z.pow_succ_r by lia. lia.
  - rewrite Pos2Z.inj_succ, Z.pow_succ_r by lia. lia.
  - cbn. lia.
Qed.

Lemma Zdigits2_bounds (m : Z) :
  0 < m -> 2 ^ (Zdigits2 m - 1) <= m < 2 ^ Zdigits2 m.
Proof.
  destruct m as [| p | p]; try lia. intros _. cbn [Zdigits2].
  split; [apply digits2_pos_lower | apply digits2_pos_upper].
Qed.

(** The number of digits of a number between two powers of two. *)
Lemma Zdigits2_between (m k : Z) :
  0 < k -> 2 ^ (k - 1) <= m < 2 ^ k -> Zdigits2 m = k.
Proof.
  intros Hk [Hlo Hhi].
  assert (Hm : 0 < m) by (pose proof (Z.pow_pos_nonneg 2 (k - 1)); lia).
  destruct (Zdigits2_bounds m Hm) as [Hdl Hdu].
  assert (Hd : 0 < Zdigits2 m) by (destruct m; cbn; lia).
  destruct (Z.lt_trichotomy (Zdigits2 m) k) as [Hlt | [Heq | Hgt]];
    [| assumption |].
  - assert (2 ^ Zdigits2 m <= 2 ^ (k - 1)) by (apply Z.pow_le_mono_r; lia).
    lia.
  - assert (2 ^ k <= 2 ^ (Zdigits2 m - 1)) by (apply Z.pow_le_mono_r; lia).
    lia.
Qed.

Lemma shr_m_shr_1 (mrs : shr_record) :
  0 <= shr_m mrs -> shr_m (shr_1 mrs) = shr_m mrs / 2.
Proof.
  destruct mrs as [m r s]. cbn [shr_m]. intros Hm.
  destruct m as [| [p | p |] | p]; cbn [shr_1 shr_m]; try lia;
    try reflexivity.
  - apply Z.div_unique with 1; lia.
  - apply Z.div_unique with 0; lia.
Qed.

Lemma shr_m_iter_pos (p : positive) :
  forall mrs : shr_record,
    0 <= shr_m mrs ->
    shr_m (SpecFloat.iter_pos shr_1 p mrs) = shr_m mrs / 2 ^ Z.pos p.
Proof.
  assert (Hhalf : forall mrs, 0 <= shr_m mrs -> 0 <= shr_m (shr_1 mrs)).
  { intros mrs Hm. rewrite shr_m_shr_1 by assumption.
    apply Z.div_pos; lia. }
  assert (Hpow : forall q : positive, 0 < 2 ^ Z.pos q)
    by (intros q; apply Z.pow_pos_nonneg; lia).
  induction p as [p IH | p IH |]; intros mrs Hm; cbn [SpecFloat.iter_pos].
  - pose proof (Hhalf mrs Hm) as H1.
    assert (H2 : 0 <= shr_m (SpecFloat.iter_pos shr_1 p (shr_1 mrs))).
    { rewrite IH by assumption. apply Z.div_pos; [assumption | apply Hpow]. }
    rewrite (IH _ H2), (IH _ H1), shr_m_shr_1 by assumption.
    rewrite !Z.div_div by (try apply Hpow; lia).
    f_equal.
    replace (Z.pos p~1) with (1 + Z.pos p + Z.pos p) by lia.
    rewrite !Z.pow_add_r by lia. lia.
  - assert (H2 : 0 <= shr_m (SpecFloat.iter_pos shr_1 p mrs)).
    { rewrite IH by assumption. apply Z.div_pos; [assumption | apply Hpow]. }
    rewrite (IH _ H2), (IH _ Hm).
    rewrite !Z.div_div by (try apply Hpow; lia).
    f_equal.
    replace (Z.pos p~0) with (Z.pos p + Z.pos p) by lia.
    rewrite !Z.pow_add_r by lia. lia.
  - now rewrite shr_m_shr_1.
Qed.

Lemma shr_value (mrs : shr_record) (e n : Z) :
  0 <= shr_m mrs -> 0 <= n ->
  shr_m (fst (shr mrs e n)) = shr_m mrs / 2 ^ n
  /\ snd (shr mrs e n) = e + n.
Proof.
  intros Hm Hn. destruct n as [| p | p]; try lia; cbn [shr fst snd].
  - rewrite Z.div_1_r. split; [reflexivity | lia].
  - split; [now apply shr_m_iter_pos | reflexivity].
Qed.

Lemma shr_m_of_loc (m : Z) (l : location) :
  shr_m (shr_record_of_loc m l) = m.
Proof. now destruct l as [| []]. Qed.

Lemma round_nearest_even_bounds (m : Z) (l : location) :
  m <= round_nearest_even m l <= m + 1.
Proof.
  destruct l as [| []]; cbn [round_nearest_even]; try lia.
  destruct (Z.even m); lia.
Qed.

(** Rounding to nearest in the normal range: the result is finite and
    exceeds what is rounded by at most one part in [2^52]. *)
Lemma binary_round_aux_bound (s : bool) (mx ex : Z) (lx : location) :
  0 < mx ->
  53 <= Zdigits2 mx ->
  - 1074 <= ex ->
  ex + Zdigits2 mx <= 1023 ->
  exists (m : positive) (e : Z),
    binary_round_aux prec emax s mx ex lx = S754_finite s m e
    /\ ex <= e <= ex + Zdigits2 mx - 52
    /\ Z.pos m <= 2 ^ 53
    /\ Z.pos m * 2 ^ (e - ex) * 2 ^ 52 <= mx * (2 ^ 52 + 1).
Proof.
  intros Hmx Hd Hex Hmax.
  destruct (Zdigits2_bounds mx Hmx) as [Hlo Hhi].
  set (d := Zdigits2 mx) in *.
  assert (Hpow : forall k, 0 <= k -> 0 < 2 ^ k)
    by (intros k Hk; apply Z.pow_pos_nonneg; lia).
  unfold binary_round_aux, shr_fexp. fold d.
  assert (Hn0 : fexp prec emax (d + ex) - ex = d - 53)
    by (unfold fexp, emin, prec, emax; lia).
  rewrite Hn0.
  destruct (shr_value (shr_record_of_loc mx lx) ex (d - 53))
    as [Hm1 He1]; [rewrite shr_m_of_loc; lia | lia |].
  destruct (shr (shr_record_of_loc mx lx) ex (d - 53)) as [mrs1 e1].
  cbn [fst snd] in Hm1, He1. rewrite shr_m_of_loc in Hm1. subst e1.
  set (m1 := shr_m mrs1) in *.
  set (P := 2 ^ (d - 53)) in *.
  assert (HP : 0 < P) by (apply Hpow; lia).
  assert (Hd1 : 2 ^ (d - 1) = P * 2 ^ 52).
  { unfold P. rewrite <- Z.pow_add_r by lia. f_equal. lia. }
  assert (Hd2 : 2 ^ d = P * 2 ^ 53).
  { unfold P. rewrite <- Z.pow_add_r by lia. f_equal. lia. }
  assert (Hm1lo : 2 ^ 52 <= m1).
  { rewrite Hm1. apply Z.div_le_lower_bound; lia. }
  assert (Hm1hi : m1 < 2 ^ 53).
  { rewrite Hm1. apply Z.div_lt_upper_bound; lia. }
  assert (Hm1mul : m1 * P <= mx).
  { rewrite Hm1, Z.mul_comm. apply Z.mul_div_le. assumption. }
  pose proof (round_nearest_even_bounds m1 (loc_of_shr_record mrs1)) as Hm2.
  set (m2 := round_nearest_even m1 (loc_of_shr_record mrs1)) in *.
  assert (Hm2pos : 0 < m2) by lia.
  destruct (Zdigits2_bounds m2 Hm2pos) as [Hlo2 Hhi2].
  set (d2 := Zdigits2 m2) in *.
  assert (Hd2lo : 53 <= d2).
  { destruct (Z.le_gt_cases 53 d2) as [| Hgt]; [assumption |].
    assert (2 ^ d2 <= 2 ^ 52) by (apply Z.pow_le_mono_r; lia). lia. }
  assert (Hd2hi : d2 <= 54).
  { destruct (Z.le_gt_cases d2 54) as [| Hgt]; [assumption |].
    assert (2 ^ 54 <= 2 ^ (d2 - 1)) by (apply Z.pow_le_mono_r; lia). lia. }
  assert (Hn2 : fexp prec emax (d2 + (ex + (d - 53))) - (ex + (d - 53))
                = d2 - 53)
    by (unfold fexp, emin, prec, emax; lia).
  rewrite Hn2.
  destruct (shr_value (shr_record_of_loc m2 loc_Exact) (ex + (d - 53))
              (d2 - 53)) as [Hm3 He3]; [rewrite shr_m_of_loc; lia | lia |].
  destruct (shr (shr_record_of_loc m2 loc_Exact) (ex + (d - 53)) (d2 - 53))
    as [mrs3 e3].
  cbn [fst snd] in Hm3, He3. rewrite shr_m_of_loc in Hm3. subst e3.
  set (Q := 2 ^ (d2 - 53)) in *.
  assert (HQ : 1 <= Q <= 2).
  { unfold Q. destruct (Z.eq_dec d2 53) as [-> | Hne].
    - cbn. lia.
    - replace d2 with 54 by lia. cbn. lia. }
  assert (Hm3lo : 2 ^ 51 <= shr_m mrs3).
  { rewrite Hm3. apply Z.div_le_lower_bound; [lia |].
    change (2 ^ 52) with (2 * 2 ^ 51) in Hm1lo. nia. }
  assert (Hm3mul : shr_m mrs3 * Q <= m2).
  { rewrite Hm3, Z.mul_comm. apply Z.mul_div_le. lia. }
  destruct (shr_m mrs3) as [| m | m] eqn:Em3; try lia.
  assert (Hle : (ex + (d - 53) + (d2 - 53) <=? emax - prec) = true)
    by (apply Z.leb_le; unfold emax, prec; lia).
  rewrite Hle. exists m, (ex + (d - 53) + (d2 - 53)).
  split; [reflexivity |]. split; [lia |]. split.
  - assert (Z.pos m * 1 <= Z.pos m * Q) by (apply Z.mul_le_mono_nonneg_l; lia).
    lia.
  - replace (ex + (d - 53) + (d2 - 53) - ex) with ((d - 53) + (d2 - 53))
      by lia.
    rewrite Z.pow_add_r by lia. fold P Q.
    assert (H1 : Z.pos m * Q * P <= m2 * P)
      by (apply Z.mul_le_mono_nonneg_r; lia).
    assert (H2 : m2 * P <= (m1 + 1) * P)
      by (apply Z.mul_le_mono_nonneg_r; lia).
    assert (H3 : (m1 + 1) * 2 ^ 52 <= m1 * (2 ^ 52 + 1)) by lia.
    assert (H4 : (m1 + 1) * 2 ^ 52 * P <= m1 * (2 ^ 52 + 1) * P)
      by (apply Z.mul_le_mono_nonneg_r; lia).
    assert (H5 : m1 * P * (2 ^ 52 + 1) <= mx * (2 ^ 52 + 1))
      by (apply Z.mul_le_mono_nonneg_r; lia).
    assert (H6 : Z.pos m * Q * P * 2 ^ 52 <= (m1 + 1) * P * 2 ^ 52)
      by (apply Z.mul_le_mono_nonneg_r; lia).
    lia.
Qed.

End RoundingBound.

Section Percentages.

Lemma pos_iter_xO (p k : positive) :
  Z.pos (Pos.iter xO p k) = Z.pos p * 2 ^ Z.pos k.
Proof.
  induction k as [| k IH] using Pos.peano_ind.
  - cbn. lia.
  - rewrite Pos.iter_succ, Pos2Z.inj_xO, IH, Pos2Z.inj_succ,
      Z.pow_succ_r by lia. lia.
Qed.

(** [(double) n] is [n], written with fifty-three digits. *)
Lemma double_of_int_exact (n : Z) :
  1 <= n <= Int.max_int ->
  exists (m : positive) (e : Z),
    Prim2SF (double_of_int n) = S754_finite false m e
    /\ Zdigits2 (Z.pos m) = 53
    /\ e = Zdigits2 n - 53
    /\ - 52 <= e <= 0
    /\ Z.pos m = n * 2 ^ (- e).
Proof.
  unfold Int.max_int. intros Hn. unfold double_of_int.
  destruct (Z.ltb_spec n 0); [lia |].
  rewrite of_uint63_spec, Uint63.of_Z_spec.
  assert (HwB : wB = 2 ^ 63) by reflexivity.
  rewrite Z.mod_small by (rewrite HwB; lia).
  destruct n as [| p | p]; try lia.
  pose proof (digits2_pos_lower p) as Hd.
  cbn [Zdigits2].
  set (d := digits2_pos p) in *.
  assert (Hd52 : Z.pos d <= 52).
  { destruct (Z.le_gt_cases (Z.pos d) 52) as [| Hgt]; [assumption |].
    assert (2 ^ 52 <= 2 ^ (Z.pos d - 1)) by (apply Z.pow_le_mono_r; lia).
    lia. }
  unfold binary_normalize, binary_round. fold d.
  assert (Hf : fexp prec emax (Z.pos d + 0) = Z.pos d - 53).
  { unfold fexp, emin, prec, emax. lia. }
  rewrite Hf. unfold shl_align.
  destruct (Z.pos d - 53 - 0) as [| k | k] eqn:Hk; try lia.
  unfold binary_round_aux, shr_fexp.
  assert (Hdig : Zdigits2 (Z.pos (Pos.iter xO p k)) = 53).
  { cbn [Zdigits2]. rewrite digits2_pos_iter_xO. fold d. lia. }
  rewrite Hdig.
  assert (Hf2 : fexp prec emax (53 + (Z.pos d - 53)) - (Z.pos d - 53) = 0).
  { unfold fexp, emin, prec, emax. lia. }
  rewrite Hf2.
  cbn [shr shr_record_of_loc shr_m loc_of_shr_record round_nearest_even].
  rewrite Hdig, Hf2. cbn [shr shr_m].
  assert (Hle : (Z.pos d - 53 <=? emax - prec) = true).
  { apply Z.leb_le. unfold emax, prec. lia. }
  rewrite Hle. exists (Pos.iter xO p k), (Z.pos d - 53).
  split; [reflexivity |]. split; [exact Hdig |]. split; [reflexivity |].
  split; [lia |]. rewrite pos_iter_xO. f_equal. f_equal. lia.
Qed.

Lemma Zdigits2_mono (a b : Z) :
  0 < a -> a <= b -> Zdigits2 a <= Zdigits2 b.
Proof.
  intros Ha Hab.
  destruct (Zdigits2_bounds a Ha) as [Hla _].
  destruct (Zdigits2_bounds b ltac:(lia)) as [_ Hub].
  destruct (Z.le_gt_cases (Zdigits2 a) (Zdigits2 b)) as [| Hgt];
    [assumption |].
  assert (2 ^ Zdigits2 b <= 2 ^ (Zdigits2 a - 1)).
  { apply Z.pow_le_mono_r; [lia |]. lia. }
  lia.
Qed.

(** The quotient of two [int]s [a < b], as a [double], is at most [a / b]
    and one part in [2^52]. *)
Lemma quotient_bound (a b : Z) :
  1 <= a -> a < b -> b <= Int.max_int ->
  exists (m : positive) (e : Z),
    Prim2SF (double_of_int a / double_of_int b) = S754_finite false m e
    /\ - 105 <= e <= 0
    /\ Z.pos m <= 2 ^ 53
    /\ Z.pos m * 2 ^ (e + 105) * b * 2 ^ 52 <= a * 2 ^ 105 * (2 ^ 52 + 1).
Proof.
  intros Ha Hab Hb.
  destruct (double_of_int_exact a ltac:(lia))
    as (ma & ea & Hfa & Hda & Eea & Hea & Hma).
  destruct (double_of_int_exact b ltac:(lia))
    as (mb & eb & Hfb & Hdb & Eeb & Heb & Hmb).
  assert (Hle : ea <= eb).
  { subst ea eb. pose proof (Zdigits2_mono a b ltac:(lia) ltac:(lia)). lia. }
  assert (Hpow : forall k, 0 <= k -> 0 < 2 ^ k)
    by (intros k Hk; apply Z.pow_pos_nonneg; lia).
  rewrite FloatAxioms.div_spec, Hfa, Hfb.
  unfold SF64div, SFdiv, SFdiv_core_binary. rewrite Hda, Hdb.
  assert (He' : Z.min (fexp prec emax (53 + ea - (53 + eb))) (ea - eb)
                = ea - eb - 53)
    by (unfold fexp, emin, prec, emax; lia).
  rewrite He'.
  replace (ea - eb - (ea - eb - 53)) with 53 by lia.
  cbv iota beta.
  rewrite Z.shiftl_mul_pow2 by lia.
  assert (Hpair : forall x y, Z.div_eucl x y = (x / y, x mod y)).
  { intros x y. unfold Z.div, Z.modulo. now destruct (Z.div_eucl x y). }
  rewrite Hpair.
  set (q := Z.pos ma * 2 ^ 53 / Z.pos mb).
  destruct (Zdigits2_bounds (Z.pos ma) ltac:(lia)) as [Hlma Huma].
  destruct (Zdigits2_bounds (Z.pos mb) ltac:(lia)) as [Hlmb Humb].
  rewrite Hda in Hlma, Huma. rewrite Hdb in Hlmb, Humb.
  change (2 ^ (53 - 1)) with (2 ^ 52) in *.
  assert (Hqmul : q * Z.pos mb <= Z.pos ma * 2 ^ 53).
  { unfold q. rewrite Z.mul_comm. apply Z.mul_div_le. lia. }
  assert (Hqlo : 2 ^ 52 <= q).
  { unfold q. apply Z.div_le_lower_bound; [lia |]. nia. }
  assert (Hqhi : q < 2 ^ 54).
  { unfold q. apply Z.div_lt_upper_bound; [lia |].
    change (2 ^ 54) with (2 * 2 ^ 53). nia. }
  assert (Hdq : 53 <= Zdigits2 q <= 54).
  { destruct (Zdigits2_bounds q ltac:(lia)) as [Hlq Huq]. split.
    - destruct (Z.le_gt_cases 53 (Zdigits2 q)) as [| Hgt]; [assumption |].
      assert (2 ^ Zdigits2 q <= 2 ^ 52).
      { apply Z.pow_le_mono_r; lia. }
      lia.
    - destruct (Z.le_gt_cases (Zdigits2 q) 54) as [| Hgt]; [assumption |].
      assert (2 ^ 54 <= 2 ^ (Zdigits2 q - 1)).
      { apply Z.pow_le_mono_r; lia. }
      lia. }
  destruct (binary_round_aux_bound (xorb false false) q (ea - eb - 53)
              (new_location (Z.pos mb) (Z.pos ma * 2 ^ 53 mod Z.pos mb)))
    as (m & e & Hres & He & Hm & Hbound); try lia.
  exists m, e. split; [exact Hres |]. split; [lia |]. split; [exact Hm |].
  (* q * b <= a * 2 ^ (eb - ea + 53) *)
  set (A := 2 ^ (- ea)) in *. set (B := 2 ^ (- eb)) in *.
  assert (HA : A = B * 2 ^ (eb - ea)).
  { unfold A, B. rewrite <- Z.pow_add_r by lia. f_equal. lia. }
  assert (HB : 0 < B) by (apply Hpow; lia).
  assert (Hqb : q * b <= a * 2 ^ (eb - ea) * 2 ^ 53).
  { rewrite Hma, Hmb, HA in Hqmul.
    apply (Z.mul_le_mono_pos_r _ _ B HB). lia. }
  set (S := 2 ^ (ea - eb - 53 + 105)).
  assert (HS : 0 < S) by (apply Hpow; lia).
  assert (HS2 : 2 ^ (eb - ea) * 2 ^ 53 * S = 2 ^ 105).
  { unfold S. rewrite <- !Z.pow_add_r by lia. f_equal. lia. }
  assert (He2 : 2 ^ (e + 105) = 2 ^ (e - (ea - eb - 53)) * S).
  { unfold S. rewrite <- Z.pow_add_r by lia. f_equal. lia. }
  rewrite He2.
  set (R := Z.pos m * 2 ^ (e - (ea - eb - 53))) in *.
  assert (HR : 0 <= R) by (unfold R; pose proof (Hpow (e - (ea - eb - 53))); nia).
  assert (H1 : R * 2 ^ 52 * (b * S) <= q * (2 ^ 52 + 1) * (b * S))
    by (apply Z.mul_le_mono_nonneg_r; nia).
  assert (H2 : q * b * S <= a * 2 ^ (eb - ea) * 2 ^ 53 * S)
    by (apply Z.mul_le_mono_nonneg_r; lia).
  assert (H3 : a * 2 ^ (eb - ea) * 2 ^ 53 * S = a * 2 ^ 105)
    by (rewrite <- HS2; ring).
  assert (H4 : q * b * S * (2 ^ 52 + 1) <= a * 2 ^ 105 * (2 ^ 52 + 1))
    by (apply Z.mul_le_mono_nonneg_r; lia).
  replace (Z.pos m * (2 ^ (e - (ea - eb - 53)) * S) * b * 2 ^ 52)
    with (R * 2 ^ 52 * (b * S)) by (unfold R; ring).
  replace (q * (2 ^ 52 + 1) * (b * S)) with (q * b * S * (2 ^ 52 + 1)) in H1
    by ring.
  lia.
Qed.

(** Fewer than all the rows are less than a hundred per cent. *)
Lemma percent_of_some (a b : Z) :
  1 <= a -> a < b -> b <= Int.max_int ->
  exists p : Z,
    int_of_double (double_of_int a / double_of_int b * 100)%float = Ok p
    /\ 0 <= p < 100.
Proof.
  intros Ha Hab Hb.
  destruct (quotient_bound a b Ha Hab Hb)
    as (mr & er & Hr & Her & Hmr & Hbr).
  assert (Hpow : forall k, 0 <= k -> 0 < 2 ^ k)
    by (intros k Hk; apply Z.pow_pos_nonneg; lia).
  unfold int_of_double.
  rewrite FloatAxioms.mul_spec, Hr.
  change (Prim2SF 100) with (S754_finite false 7036874417766400 (-46)).
  unfold SF64mul, SFmul. cbn [xorb].
  rewrite Pos2Z.inj_mul.
  set (m100 := Z.pos 7036874417766400).
  assert (Hm100 : m100 = 100 * 2 ^ 46) by reflexivity.
  assert (Hprod : 2 ^ 52 <= Z.pos mr * m100 < 2 ^ 107).
  { change (2 ^ 107) with (2 ^ 53 * (2 * 2 ^ 53)).
    assert (2 ^ 52 <= m100 < 2 * 2 ^ 53) by (rewrite Hm100; lia). nia. }
  assert (Hdp : 53 <= Zdigits2 (Z.pos mr * m100) <= 107).
  { destruct (Zdigits2_bounds (Z.pos mr * m100) ltac:(lia)) as [Hl Hu]. split.
    - destruct (Z.le_gt_cases 53 (Zdigits2 (Z.pos mr * m100))) as [| Hgt];
        [assumption |].
      assert (2 ^ Zdigits2 (Z.pos mr * m100) <= 2 ^ 52).
      { apply Z.pow_le_mono_r; lia. }
      lia.
    - destruct (Z.le_gt_cases (Zdigits2 (Z.pos mr * m100)) 107) as [| Hgt];
        [assumption |].
      assert (2 ^ 107 <= 2 ^ (Zdigits2 (Z.pos mr * m100) - 1)).
      { apply Z.pow_le_mono_r; lia. }
      lia. }
  destruct (binary_round_aux_bound false (Z.pos mr * m100) (er + -46)
              loc_Exact) as (mp & ep & Hres & Hep & Hmp & Hbp); try lia.
  rewrite Hres.
  (* the percentage, scaled by [2 ^ 151], is below a hundred *)
  set (X := Z.pos mp * 2 ^ (ep + 151)).
  assert (HX : X < 100 * 2 ^ 151).
  { set (T := 2 ^ (er + 105)) in *.
    assert (HT : 0 < T) by (apply Hpow; lia).
    assert (EX : X = Z.pos mp * 2 ^ (ep - (er + -46)) * T).
    { unfold X, T. rewrite <- Z.mul_assoc, <- Z.pow_add_r by lia.
      f_equal. f_equal. lia. }
    set (Y := Z.pos mp * 2 ^ (ep - (er + -46))) in *.
    assert (H1 : Y * 2 ^ 52 * T <= Z.pos mr * m100 * (2 ^ 52 + 1) * T)
      by (apply Z.mul_le_mono_nonneg_r; lia).
    assert (H2 : Z.pos mr * T * b * 2 ^ 52 * (m100 * (2 ^ 52 + 1))
                 <= a * 2 ^ 105 * (2 ^ 52 + 1) * (m100 * (2 ^ 52 + 1)))
      by (apply Z.mul_le_mono_nonneg_r; lia).
    assert (H3 : Y * 2 ^ 52 * T * (b * 2 ^ 52)
                 <= Z.pos mr * m100 * (2 ^ 52 + 1) * T * (b * 2 ^ 52))
      by (apply Z.mul_le_mono_nonneg_r; lia).
    assert (H4 : X * 2 ^ 104 * b
                 <= a * 2 ^ 105 * (2 ^ 52 + 1) * (m100 * (2 ^ 52 + 1))).
    { replace (X * 2 ^ 104 * b) with (Y * 2 ^ 52 * T * (b * 2 ^ 52))
        by (rewrite EX; change (2 ^ 104) with (2 ^ 52 * 2 ^ 52); ring).
      replace (Z.pos mr * m100 * (2 ^ 52 + 1) * T * (b * 2 ^ 52))
        with (Z.pos mr * T * b * 2 ^ 52 * (m100 * (2 ^ 52 + 1))) in H3
        by ring.
      lia. }
    destruct (Z.lt_ge_cases X (100 * 2 ^ 151)) as [| Hge]; [assumption |].
    exfalso.
    assert (H5 : 100 * 2 ^ 151 * (2 ^ 104 * b) <= X * (2 ^ 104 * b))
      by (apply Z.mul_le_mono_nonneg_r; lia).
    assert (H6 : a * (2 ^ 105 * (2 ^ 52 + 1) * (m100 * (2 ^ 52 + 1)))
                 <= (b - 1) * (2 ^ 105 * (2 ^ 52 + 1) * (m100 * (2 ^ 52 + 1))))
      by (apply Z.mul_le_mono_nonneg_r; lia).
    unfold Int.max_int in Hb. rewrite Hm100 in *. lia. }
  assert (Hmag : 0 <= (if 0 <=? ep then Z.shiftl (Z.pos mp) ep
                       else Z.shiftr (Z.pos mp) (- ep)) < 100).
  { destruct (Z.leb_spec 0 ep).
    - rewrite Z.shiftl_mul_pow2 by lia.
      pose proof (Hpow ep ltac:(lia)).
      unfold X in HX. rewrite Z.pow_add_r in HX by lia. nia.
    - rewrite Z.shiftr_div_pow2 by lia.
      pose proof (Hpow (- ep) ltac:(lia)) as Hp1.
      pose proof (Hpow (ep + 151) ltac:(lia)) as Hp2.
      split; [apply Z.div_pos; lia |].
      apply Z.div_lt_upper_bound; [lia |].
      assert (E : 2 ^ 151 = 2 ^ (- ep) * 2 ^ (ep + 151)).
      { rewrite <- Z.pow_add_r by lia. f_equal. lia. }
      unfold X in HX. rewrite E in HX. nia. }
  set (mag := if 0 <=? ep then Z.shiftl (Z.pos mp) ep
              else Z.shiftr (Z.pos mp) (- ep)) in *.
  exists mag. split; [| exact Hmag].
  destruct (Z.leb_spec Int.min_int mag); [| unfold Int.min_int in *; lia].
  destruct (Z.leb_spec mag Int.max_int); [| unfold Int.max_int in *; lia].
  reflexivity.
Qed.

End Percentages.

(** ** The earlier, one-thread class *)

Section SequentialFacts.

Variables degrees_to_radians tan : float -> float.
Context {rng hittable hit_record : Type}.
Variable random_double : rng -> float * rng.
Variable hit : hittable -> ray -> interval -> option hit_record.
Variable scatter : hit_record -> ray -> rng -> option (color * ray) * rng.

(** No row out of [n] is zero per cent. *)
Lemma percent_of_none (n : Z) :
  1 <= n <= Int.max_int ->
  int_of_double (double_of_int 0 / double_of_int n * 100)%float = Ok 0.
Proof.
  intros Hn. destruct (double_of_int_finite n Hn) as (m & e & Hfin).
  assert (Hz : (double_of_int 0 / double_of_int n)%float = 0%float).
  { apply Prim2SF_inj. rewrite FloatAxioms.div_spec, Hfin. reflexivity. }
  rewrite Hz. reflexivity.
Qed.

Lemma sequential_render_pixel_output (world : hittable)
    (c : Sequential.camera) (j i : Z) (s s' : Sequential.output * rng) :
  Sequential.render_pixel random_double hit scatter world c j i s = Ok s' ->
  Sequential.ppm_size (fst s') = Sequential.ppm_size (fst s)
  /\ Sequential.clog (fst s') = Sequential.clog (fst s)
  /\ exists pixel_color : color,
      Sequential.cout (fst s')
      = Sequential.cout (fst s)
        ++ [(pixel_color, Sequential.samples_per_pixel c)].
Proof.
  destruct s as [out g]. unfold Sequential.render_pixel.
  destruct (for_int 0 _ _ (black, g)) as [[pixel_color g1] | f];
    cbn [bind]; [| discriminate].
  intros [= <-]. cbn. repeat split. now exists pixel_color.
Qed.

(** A loop whose passes all return returns, whatever its bounds. *)
Lemma for_int_returns {S : Type} (body : Z -> S -> result S) (lo hi : Z)
    (s : S) :
  (forall k t, lo <= k < hi -> exists t', body k t = Ok t') ->
  exists s', for_int lo hi body s = Ok s'.
Proof.
  intros Hbody. destruct (Z.le_gt_cases hi lo) as [Hle | Hgt].
  - exists s. unfold for_int, int_range. now rewrite seqZ_nil by lia.
  - destruct (for_int_total (fun _ _ => True) body hi (Z.to_nat (hi - lo))
                lo s) as (s' & Hrun & _); [lia | | exact I | now exists s'].
    intros k t Hk _. destruct (Hbody k t Hk) as [t' Ht']. now exists t'.
Qed.

Lemma sequential_render_pixel_returns (world : hittable)
    (c : Sequential.camera) (j i : Z) (s : Sequential.output * rng) :
  Int.in_range (Sequential.max_depth c) ->
  exists s', Sequential.render_pixel random_double hit scatter world c j i s
             = Ok s'.
Proof.
  intros Hdepth. destruct s as [out g]. unfold Sequential.render_pixel.
  destruct (for_int_returns
              (Sequential.render_sample random_double hit scatter world c i j)
              0 (Sequential.samples_per_pixel c) (black, g))
    as ([pixel_color g1] & ->); [| cbn [bind]; eauto].
  intros sample [pc g0] _. unfold Sequential.render_sample.
  destruct (Sequential.get_ray random_double c i j g0) as [r g1].
  destruct (ray_color_fuel_returns hit scatter
              (Z.to_nat (Sequential.max_depth c)) r (Sequential.max_depth c)
              world g1 Hdepth ltac:(lia)) as (col & g2 & Hcol).
  specialize (Hcol O). rewrite Nat.add_0_r in Hcol.
  unfold ray_color. rewrite Hcol. cbn [bind]. eauto.
Qed.

(** On an image of a single row the one-thread [render] returns, as on
    any other, but what it prints as the percentage of that row is the
    conversion to [int] of [0 / 0 * 100], a NaN: a value that the
    language leaves open, and no percentage.  The row is rendered all
    the same, one call of [write_color] for each of its pixels. *)
Theorem sequential_render_single_row (world : hittable)
    (c : Sequential.camera) (g : rng) :
  Sequential.image_height c = 1 ->
  0 <= Sequential.image_width c ->
  Int.in_range (Sequential.max_depth c) ->
  exists (out : Sequential.output) (g' : rng),
    Sequential.render degrees_to_radians tan random_double hit scatter
      world c g = Ok (out, g')
    /\ Sequential.clog out = [Fault BadConversion]
    /\ Z.of_nat (length (Sequential.cout out)) = Sequential.image_width c.
Proof.
  intros Hh HW Hdepth. unfold Sequential.render.
  set (c1 := Sequential.initialize degrees_to_radians tan c).
  change (Sequential.image_height c1) with (Sequential.image_height c).
  change (Sequential.image_width c1) with (Sequential.image_width c).
  rewrite Hh. unfold for_int at 1, int_range.
  change (seqZ 0 (1 - 0)) with [0]. cbn [for_each].
  unfold Sequential.render_row.
  change (Sequential.image_height c1) with (Sequential.image_height c).
  change (Sequential.image_width c1) with (Sequential.image_width c).
  rewrite Hh.
  change (int_of_double (double_of_int 0 / double_of_int (Int.sub 1 1) * 100))
    with (@Fault Z BadConversion).
  cbn [Sequential.ppm_size Sequential.cout Sequential.clog app].
  destruct (for_int_total
              (fun i (t : Sequential.output * rng) =>
                 Sequential.clog (fst t) = [Fault BadConversion]
                 /\ Z.of_nat (length (Sequential.cout (fst t))) = i)
              (Sequential.render_pixel random_double hit scatter world c1 0)
              (Sequential.image_width c)
              (Z.to_nat (Sequential.image_width c)) 0
              ({| Sequential.ppm_size := (Sequential.image_width c, 1);
                  Sequential.cout := [];
                  Sequential.clog := [Fault BadConversion] |}, g))
    as ([out g'] & Hrun & Hclog & Hcout); [lia | | now split |].
  - intros i t Hi [Hl Hc].
    destruct (sequential_render_pixel_returns world c1 0 i t Hdepth)
      as [t' Ht'].
    exists t'. split; [exact Ht' |].
    apply sequential_render_pixel_output in Ht' as (_ & Hl' & col & Hc').
    rewrite Hl', Hc', length_app. cbn [length]. split; [exact Hl | lia].
  - rewrite Hrun. cbn [bind]. exists out, g'. now repeat split.
Qed.

(** When the one-thread [render] returns on an image of at least two
    rows, it has written the size of the image, one call of [write_color]
    for every pixel, each with [samples_per_pixel], and one percentage
    for every row, the first of them [0] and the last [100]. *)
Theorem sequential_render_output (world : hittable) (c : Sequential.camera)
    (g g' : rng) (out : Sequential.output) :
  2 <= Sequential.image_height c ->
  Int.in_range (Sequential.image_height c) ->
  0 <= Sequential.image_width c ->
  Sequential.render degrees_to_radians tan random_double hit scatter
    world c g = Ok (out, g') ->
  Sequential.ppm_size out
  = (Sequential.image_width c, Sequential.image_height c)
  /\ Z.of_nat (length (Sequential.cout out))
     = Sequential.image_height c * Sequential.image_width c
  /\ Forall (fun call => snd call = Sequential.samples_per_pixel c)
       (Sequential.cout out)
  /\ Z.of_nat (length (Sequential.clog out)) = Sequential.image_height c
  /\ Forall (fun printed => exists p : Z, printed = Ok p /\ 0 <= p <= 100)
       (Sequential.clog out)
  /\ Sequential.clog out !! 0%nat = Some (Ok 0)
  /\ last (Sequential.clog out) = Some (Ok 100).
Proof.
  intros H2 Hr HW. unfold Sequential.render.
  set (c1 := Sequential.initialize degrees_to_radians tan c).
  change (Sequential.image_height c1) with (Sequential.image_height c).
  change (Sequential.image_width c1) with (Sequential.image_width c).
  set (H := Sequential.image_height c) in *.
  set (W := Sequential.image_width c) in *.
  set (percentage := fun j : Z =>
         int_of_double (double_of_int j / double_of_int (H - 1) * 100)%float).
  intros Hrun.
  assert (Hsub : Int.sub H 1 = H - 1).
  { apply wrap_id. int_bounds. lia. }
  assert (Hpct : forall j, 0 <= j < H ->
            exists p : Z, percentage j = Ok p /\ 0 <= p <= 100).
  { intros j Hj. unfold percentage.
    destruct (Z.eq_dec j 0) as [-> | Hj0].
    - exists 0. split; [apply percent_of_none; int_bounds; lia | lia].
    - destruct (Z.eq_dec j (H - 1)) as [-> | Hj1].
      + exists 100. split; [apply percent_of_all; int_bounds; lia | lia].
      + destruct (percent_of_some j (H - 1)) as (p & Hp & Hp100);
          [lia | lia | int_bounds; lia |].
        exists p. split; [exact Hp | lia]. }
  assert (Hend : let o := fst (out, g') in
            Sequential.ppm_size o = (W, H)
            /\ Z.of_nat (length (Sequential.cout o)) = H * W
            /\ Forall (fun call => snd call = Sequential.samples_per_pixel c)
                 (Sequential.cout o)
            /\ Z.of_nat (length (Sequential.clog o)) = H
            /\ Forall
                 (fun printed => exists p : Z, printed = Ok p /\ 0 <= p <= 100)
                 (Sequential.clog o)
            /\ (0 < H ->
                Sequential.clog o !! 0%nat = Some (percentage 0)
                /\ last (Sequential.clog o) = Some (percentage (H - 1)))).
  { revert Hrun.
    apply (for_int_indexed
             (fun j t =>
                Sequential.ppm_size (fst t) = (W, H)
                /\ Z.of_nat (length (Sequential.cout (fst t))) = j * W
                /\ Forall
                     (fun call => snd call = Sequential.samples_per_pixel c)
                     (Sequential.cout (fst t))
                /\ Z.of_nat (length (Sequential.clog (fst t))) = j
                /\ Forall
                     (fun printed =>
                        exists p : Z, printed = Ok p /\ 0 <= p <= 100)
                     (Sequential.clog (fst t))
                /\ (0 < j ->
                    Sequential.clog (fst t) !! 0%nat = Some (percentage 0)
                    /\ last (Sequential.clog (fst t))
                       = Some (percentage (j - 1))))
             _ _ (Z.to_nat H)); [lia | |].
    - intros j [o g0] t' Hj (Hsize & Hcout & Hall & Hclog & Hdef & Hlog) Hrow.
      cbn [fst] in *. unfold Sequential.render_row in Hrow.
      change (Sequential.image_height c1) with H in Hrow.
      change (Sequential.image_width c1) with W in Hrow.
      rewrite Hsub in Hrow. fold (percentage j) in Hrow.
      assert (Hin : Sequential.ppm_size (fst t') = (W, H)
                    /\ Z.of_nat (length (Sequential.cout (fst t')))
                       = j * W + W
                    /\ Forall
                         (fun call =>
                            snd call = Sequential.samples_per_pixel c)
                         (Sequential.cout (fst t'))
                    /\ Sequential.clog (fst t')
                       = Sequential.clog o ++ [percentage j]).
      { revert Hrow.
        apply (for_int_indexed
                 (fun i t =>
                    Sequential.ppm_size (fst t) = (W, H)
                    /\ Z.of_nat (length (Sequential.cout (fst t)))
                       = j * W + i
                    /\ Forall
                         (fun call =>
                            snd call = Sequential.samples_per_pixel c)
                         (Sequential.cout (fst t))
                    /\ Sequential.clog (fst t)
                       = Sequential.clog o ++ [percentage j])
                 _ _ (Z.to_nat W)); [lia | |].
        - intros i t t1 Hi (Hs1 & Hc1 & Ha1 & Hl1) Hpix.
          apply sequential_render_pixel_output in Hpix
            as (Hs2 & Hl2 & col & Hc2).
          rewrite Hs2, Hl2, Hc2. split; [assumption |].
          split; [rewrite length_app; cbn [length]; lia |].
          split; [| assumption].
          apply Forall_app. split; [assumption |]. now apply Forall_singleton.
        - cbn [fst Sequential.ppm_size Sequential.cout Sequential.clog].
          split; [assumption |]. split; [lia |]. split; [assumption |].
          reflexivity. }
      destruct Hin as (Hs1 & Hc1 & Ha1 & Hl1).
      split; [assumption |]. split; [lia |]. split; [assumption |].
      rewrite Hl1. split; [rewrite length_app; cbn [length]; lia |].
      split.
      { apply Forall_app. split; [assumption |].
        apply Forall_singleton. apply Hpct. lia. }
      intros _. split.
      + destruct (Z.eq_dec j 0) as [-> | Hne].
        * destruct (Sequential.clog o) as [| q l]; [| cbn in Hclog; lia].
          reflexivity.
        * rewrite lookup_app_l by lia.
          now destruct (Hlog ltac:(lia)).
      + rewrite last_snoc. now replace (j + 1 - 1) with j by lia.
    - cbn. repeat split; try lia; constructor. }
  cbn [fst] in Hend.
  destruct Hend as (Hsize & Hcout & Hall & Hclog & Hdef & Hlog).
  destruct (Hlog ltac:(lia)) as (Hfirst & Hlast).
  unfold percentage in Hfirst, Hlast.
  rewrite percent_of_none in Hfirst by (int_bounds; lia).
  rewrite percent_of_all in Hlast by (int_bounds; lia).
  repeat split; assumption.
Qed.

End SequentialFacts.

(** ** The monitor without the workers *)

Section MonitorWaits.

Lemma monitor_loop_waits (c : camera) (fuel : nat) :
  1 <= image_height c <= Int.max_int ->
  foldl Int.add 0 (render_progress c) = 0 ->
  forall m : monitor,
    percent m < 100 -> rawProgress m = 0 ->
    monitor_loop fuel (c, m) = Fault OutOfFuel.
Proof.
  intros Hh Hsum.
  induction fuel as [| fuel IH]; intros m Hlt Hraw; cbn [monitor_loop snd].
  - now destruct (Z.ltb_spec (percent m) 100); [| lia].
  - destruct (Z.ltb_spec (percent m) 100); [| lia].
    unfold monitor_pass. rewrite Hraw, Hsum.
    rewrite percent_of_none by assumption. cbn [bind].
    destruct (0 =? lastPercent m); cbn [bind]; apply IH; cbn; lia.
Qed.

(** As long as no worker has counted a row, [print_render_progress]
    polls without an end: every pass computes zero per cent, so that no
    number of passes makes it return. *)
Theorem print_render_progress_waits (c : camera) (fuel : nat) :
  1 <= image_height c ->
  Int.in_range (image_height c) ->
  foldl Int.add 0 (render_progress c) = 0 ->
  print_render_progress fuel c = Fault OutOfFuel.
Proof.
  intros H1 Hr Hsum. unfold print_render_progress.
  rewrite monitor_loop_waits; [reflexivity | | assumption | | reflexivity].
  - int_bounds. lia.
  - cbn. lia.
Qed.

End MonitorWaits.

(** ** C8: what the monitoring loop reads, and when it ends *)

Section MonitorStops.

(** A pass that finds fewer rows than the image has does not end the
    loop. *)
Lemma monitor_pass_below (c : camera) (m : monitor) :
  Int.in_range (image_height c) ->
  1 <= image_height c ->
  rawProgress m = 0 ->
  0 <= foldl Int.add 0 (render_progress c) < image_height c ->
  exists m' : monitor,
    monitor_pass (c, m) = Ok (c, m')
    /\ 0 <= percent m' < 100
    /\ rawProgress m' = 0.
Proof.
  intros [_ Hmax] Hpos Hraw Hsum. unfold monitor_pass. rewrite Hraw.
  set (raw := foldl Int.add 0 (render_progress c)) in *.
  assert (Hpct : exists p, int_of_double
                             (double_of_int raw
                              / double_of_int (image_height c) * 100)%float
                           = Ok p /\ 0 <= p < 100).
  { destruct (Z.eq_dec raw 0) as [-> | Hne].
    - exists 0. split; [apply percent_of_none; lia | lia].
    - apply percent_of_some; lia. }
  destruct Hpct as (p & -> & Hp). cbn [bind].
  destruct (p =? lastPercent m); eexists; (split; [reflexivity |]);
    cbn [percent rawProgress]; split; lia || reflexivity.
Qed.

(** As long as the counters stay below the number of rows, the loop does
    not return. *)
Lemma monitor_loop_below (c : camera) (fuel : nat) :
  Int.in_range (image_height c) ->
  1 <= image_height c ->
  0 <= foldl Int.add 0 (render_progress c) < image_height c ->
  forall m : monitor,
    percent m < 100 -> rawProgress m = 0 ->
    monitor_loop fuel (c, m) = Fault OutOfFuel.
Proof.
  intros Hr Hpos Hsum.
  induction fuel as [| fuel IH]; intros m Hlt Hraw; cbn [monitor_loop snd].
  - now destruct (Z.ltb_spec (percent m) 100); [| lia].
  - destruct (Z.ltb_spec (percent m) 100); [| lia].
    destruct (monitor_pass_below c m Hr Hpos Hraw Hsum)
      as (m' & -> & Hp & Hraw').
    cbn [bind]. apply IH; [lia | assumption].
Qed.

(** C8: a pass of the monitoring loop hands the camera back as it found
    it, counters and image included, and so does the loop.  In a render of
    an image of at least one row, a pass that finds the sum of the
    counters equal to [image_height] sets [percent] to [100], which ends
    the loop; a pass that finds the sum below [image_height] sets
    [percent] to a number below [100], which does not, and as long as the
    counters stay there no number of passes ends the loop. *)
Theorem monitor_reads_and_stops :
  (forall (c c' : camera) (m m' : monitor),
      monitor_pass (c, m) = Ok (c', m') -> c' = c)
  /\ (forall (fuel : nat) (c c' : camera) (m m' : monitor),
        monitor_loop fuel (c, m) = Ok (c', m') -> c' = c)
  /\ (forall (c : camera) (m : monitor),
        Int.in_range (image_height c) ->
        1 <= image_height c ->
        rawProgress m = 0 ->
        foldl Int.add 0 (render_progress c) = image_height c ->
        exists m' : monitor,
          monitor_pass (c, m) = Ok (c, m')
          /\ percent m' = 100
          /\ (forall fuel : nat, monitor_loop fuel (c, m') = Ok (c, m'))
          /\ (percent m < 100 ->
              forall fuel : nat, monitor_loop (S fuel) (c, m) = Ok (c, m')))
  /\ (forall (c : camera) (m : monitor),
        Int.in_range (image_height c) ->
        1 <= image_height c ->
        rawProgress m = 0 ->
        0 <= foldl Int.add 0 (render_progress c) < image_height c ->
        exists m' : monitor,
          monitor_pass (c, m) = Ok (c, m')
          /\ 0 <= percent m' < 100
          /\ (forall fuel : nat,
                monitor_loop fuel (c, m') = Fault OutOfFuel)
          /\ (percent m < 100 ->
              forall fuel : nat, monitor_loop fuel (c, m) = Fault OutOfFuel)).
Proof.
  split; [| split; [| split]].
  - intros c c' m m' Hp. now apply monitor_pass_camera in Hp.
  - intros fuel c c' m m'. apply monitor_loop_camera.
  - intros c m. apply monitor_pass_all_done.
  - intros c m Hr Hpos Hraw Hsum.
    destruct (monitor_pass_below c m Hr Hpos Hraw Hsum)
      as (m' & Hpass & Hp & Hraw').
    exists m'. split; [exact Hpass |]. split; [exact Hp |]. split.
    + intros fuel. apply monitor_loop_below; try assumption. lia.
    + intros Hlt fuel. now apply monitor_loop_below.
Qed.

End MonitorStops.

(** ** C1: the slots that a worker writes *)

Section Writes.

Context {rng hittable hit_record : Type}.
Variable random_double : rng -> float * rng.
Variable random_in_unit_disk : rng -> vector3d * rng.
Variable hit : hittable -> ray -> interval -> option hit_record.
Variable scatter : hit_record -> ray -> rng -> option (color * ray) * rng.
Variable world : hittable.


Variable c0 : camera.

Hypothesis W_pos : 0 <= image_width c0.
Hypothesis H_int : Int.in_range (image_height c0).
Hypothesis H_pos : 1 <= image_height c0.
Hypothesis size_int : Int.in_range (image_height c0 * image_width c0).
Hypothesis samples : 1 <= samples_per_pixel c0.





End Writes.


(** * The further properties on the cameras of [Scenario] *)

(** A closed conjunction of comparisons of literals. *)
Ltac closed_bounds := repeat split; vm_compute; discriminate.

(** [render] returns on [Scenario.small_camera]. *)
Lemma render_returns_witness :
  renderable Scenario.small_camera
  /\ exists (c3 : camera) (g3 : Scenario.tape),
      render Scenario.degrees_to_radians Scenario.tan Scenario.random_double
        Scenario.random_in_unit_disk Scenario.hit Scenario.scatter 1
        Scenario.Empty Scenario.small_camera [] = Ok (c3, g3)
      /\ length (image c3) = 4%nat
      /\ render_progress c3 = [0].
Proof.
  assert (Hc : renderable Scenario.small_camera) by closed_bounds.
  split; [exact Hc |].
  exact (render_returns Scenario.degrees_to_radians Scenario.tan
           Scenario.random_double Scenario.random_in_unit_disk Scenario.hit
           Scenario.scatter Scenario.small_camera Scenario.Empty [] 0%nat Hc).
Defined.

(** The last pixel of the image of [Scenario.small_camera] holds the
    colour of its one sample. *)
Lemma render_sums_samples_witness :
  exists (c3 : camera) (g3 : Scenario.tape),
    render Scenario.degrees_to_radians Scenario.tan Scenario.random_double
      Scenario.random_in_unit_disk Scenario.hit Scenario.scatter 1
      Scenario.Empty Scenario.small_camera [] = Ok (c3, g3)
    /\ sampled Scenario.random_double Scenario.random_in_unit_disk
         Scenario.hit Scenario.scatter Scenario.Empty c3 (image c3) 1 1.
Proof.
  destruct (render Scenario.degrees_to_radians Scenario.tan
              Scenario.random_double Scenario.random_in_unit_disk
              Scenario.hit Scenario.scatter 1 Scenario.Empty
              Scenario.small_camera []) as [[c3 g3] | f] eqn:Hrun;
    [| vm_compute in Hrun; discriminate].
  exists c3, g3. split; [reflexivity |].
  apply (render_sums_samples Scenario.degrees_to_radians Scenario.tan
           Scenario.random_double Scenario.random_in_unit_disk Scenario.hit
           Scenario.scatter Scenario.small_camera c3 Scenario.Empty [] g3
           1%nat ltac:(closed_bounds) Hrun 1 1); closed_bounds.
Defined.

(** The first worker of [Scenario.two_workers] has counted its two
    rows. *)
Lemma render_thread_counts_rows_witness :
  render_progress Scenario.two_workers_first_done
  = <[Z.to_nat 0 := 0 + (2 - 0)]>
      (render_progress Scenario.two_workers_initialized).
Proof.
  apply (render_thread_counts_rows Scenario.random_double
           Scenario.random_in_unit_disk Scenario.hit Scenario.scatter
           Scenario.Empty 0 0 2 Scenario.two_workers_initialized
           Scenario.two_workers_first_done [] [] 0).
  - vm_compute. discriminate.
  - reflexivity.
  - int_literal.
  - int_literal.
  - vm_compute. reflexivity.
Defined.

(** Of the five rows of [Scenario.two_workers] the last worker gets
    three. *)
Lemma worker_shares_witness :
  Z.of_nat
    (length (thread_rows (thread_args Scenario.two_workers_initialized 1)))
  = 3.
Proof.
  exact (proj1 (worker_shares Scenario.two_workers_initialized
                  ltac:(int_literal) ltac:(int_literal)
                  ltac:(vm_compute; discriminate)
                  ltac:(vm_compute; discriminate) 1
                  ltac:(closed_bounds))).
Defined.

(** Two reflections in the hall of mirrors use up a budget of two. *)
Lemma ray_color_multiplies_attenuations_witness :
  ray_color Scenario.hit Scenario.scatter
    (mk_ray (vec 0 0 0) (vec 0 0 (-1))) 2 Scenario.Mirrors []
  = Ok (foldr cmul black [vec 1 1 1; vec 1 1 1], []).
Proof.
  assert (Hpath : bounces Scenario.hit Scenario.scatter Scenario.Mirrors
                    (mk_ray (vec 0 0 0) (vec 0 0 (-1))) []
                    [vec 1 1 1; vec 1 1 1]
                    (mk_ray (vec 0 0 0) (- - vec 0 0 (-1))%vec) []).
  { apply (bounces_more Scenario.hit Scenario.scatter Scenario.Mirrors
             _ (mk_ray (vec 0 0 0) (- vec 0 0 (-1))%vec) _ _ [] _
             Scenario.Mirrors); [reflexivity | reflexivity |].
    apply (bounces_more Scenario.hit Scenario.scatter Scenario.Mirrors
             _ (mk_ray (vec 0 0 0) (- - vec 0 0 (-1))%vec) _ _ [] _
             Scenario.Mirrors); [reflexivity | reflexivity |].
    apply bounces_done. }
  apply (proj1 (ray_color_multiplies_attenuations Scenario.hit
                  Scenario.scatter Scenario.Mirrors _ _ _ _ _ 2 Hpath
                  ltac:(int_literal) ltac:(vm_compute; discriminate))).
  reflexivity.
Defined.


(** [Scenario.no_row_camera] cannot be rendered. *)
Lemma render_no_row_is_undefined_witness :
  render Scenario.degrees_to_radians Scenario.tan Scenario.random_double
    Scenario.random_in_unit_disk Scenario.hit Scenario.scatter 1
    Scenario.Empty Scenario.no_row_camera [] = Fault BadConversion.
Proof.
  apply (render_no_row_is_undefined Scenario.degrees_to_radians Scenario.tan
           Scenario.random_double Scenario.random_in_unit_disk Scenario.hit
           Scenario.scatter Scenario.Empty Scenario.no_row_camera [] 0%nat).
  - reflexivity.
  - vm_compute. discriminate.
Defined.


(** The six white pixels of [Scenario.three_by_two] give eighteen bytes,
    the first three of them for the first pixel. *)
Lemma get_bitmap_data_layout_witness :
  exists data : list Z,
    get_bitmap_data Scenario.gamma_correction Scenario.three_by_two = Ok data
    /\ length data = 18%nat
    /\ exists blue green red : Z,
        data !! 0%nat = Some blue /\ data !! 1%nat = Some green
        /\ data !! 2%nat = Some red.
Proof.
  destruct (get_bitmap_data Scenario.gamma_correction Scenario.three_by_two)
    as [data | f] eqn:Hrun; [| vm_compute in Hrun; discriminate].
  exists data. split; [reflexivity |].
  destruct (get_bitmap_data_layout Scenario.gamma_correction
              Scenario.three_by_two data Hrun) as (Hlen & _ & Hpix).
  split; [exact Hlen |].
  destruct (Hpix 0%nat (vec 1 1 1) eq_refl)
    as (b & g & r & _ & _ & _ & Hb & Hg & Hr).
  exists b, g, r. repeat split; assumption.
Defined.

(** The info header of [Scenario.three_by_two] says three by two. *)
Lemma bitmap_headers_witness :
  le32 4 (bmp_info Scenario.three_by_two) = 3
  /\ le32 8 (bmp_info Scenario.three_by_two) = 2.
Proof.
  destruct (bitmap_headers Scenario.three_by_two)
    as (_ & _ & _ & _ & _ & _ & _ & _ & _ & Hw & Hh & _).
  split.
  - apply Hw; [vm_compute; discriminate | int_literal].
  - apply Hh; [vm_compute; discriminate | int_literal].
Defined.

(** In the file of [Scenario.three_by_two], whose rows take twelve bytes,
    the pixel [(1, 0)] of the first row of the image stands in the last
    row of the file, at offset 69. *)
Lemma write_image_layout_witness :
  exists (file : list Z) (blue green red : Z),
    write_image Scenario.gamma_correction Scenario.three_by_two = Ok file
    /\ file !! 69%nat = Some blue
    /\ file !! 70%nat = Some green
    /\ file !! 71%nat = Some red.
Proof.
  destruct (write_image Scenario.gamma_correction Scenario.three_by_two)
    as [file | f] eqn:Hrun; [| vm_compute in Hrun; discriminate].
  destruct (write_image_layout Scenario.gamma_correction
              Scenario.three_by_two ltac:(vm_compute; discriminate)
              ltac:(vm_compute; discriminate) ltac:(int_literal)
              ltac:(int_literal) file Hrun) as (_ & Hpix & _).
  destruct (Hpix 1 0 (vec 1 1 1) ltac:(closed_bounds) ltac:(closed_bounds)
              eq_refl) as (b & g & r & _ & _ & _ & Hb & Hg & Hr).
  exists file, b, g, r. split; [reflexivity |].
  repeat split; assumption.
Defined.

(** [Scenario.three_by_two] holds the six pixels that [write_image]
    reads; [Scenario.small_camera], which has not been rendered, holds
    none of its four. *)
Lemma write_image_needs_pixels_witness :
  write_image_file Scenario.gamma_correction false Scenario.three_by_two
  = Fault NullStream
  /\ (exists file : list Z,
        write_image_file Scenario.gamma_correction true Scenario.three_by_two
        = Ok file)
  /\ write_image_file Scenario.gamma_correction true Scenario.small_camera
     = Fault OutOfBounds.
Proof.
  destruct (get_bitmap_data Scenario.gamma_correction Scenario.three_by_two)
    as [data | f] eqn:Hdata; [| vm_compute in Hdata; discriminate].
  destruct (write_image_needs_pixels Scenario.gamma_correction
              Scenario.three_by_two ltac:(vm_compute; discriminate)
              ltac:(vm_compute; discriminate) ltac:(int_literal)
              ltac:(int_literal) data Hdata) as (Hnull & Hfile & _).
  split; [exact Hnull |]. split; [apply Hfile; vm_compute; discriminate |].
  apply (write_image_needs_pixels Scenario.gamma_correction
           Scenario.small_camera ltac:(vm_compute; discriminate)
           ltac:(vm_compute; discriminate) ltac:(int_literal)
           ltac:(int_literal) [] eq_refl).
  reflexivity.
Defined.

(** The one-thread class on a single row of two pixels. *)
Lemma sequential_render_single_row_witness :
  exists (out : Sequential.output) (g' : Scenario.tape),
    Sequential.render Scenario.degrees_to_radians Scenario.tan
      Scenario.random_double Scenario.hit Scenario.scatter Scenario.Empty
      Scenario.single_row_camera [] = Ok (out, g')
    /\ Sequential.clog out = [Fault BadConversion]
    /\ Z.of_nat (length (Sequential.cout out)) = 2.
Proof.
  apply (sequential_render_single_row Scenario.degrees_to_radians
           Scenario.tan Scenario.random_double Scenario.hit Scenario.scatter
           Scenario.Empty Scenario.single_row_camera []).
  - reflexivity.
  - vm_compute. discriminate.
  - int_literal.
Defined.

(** The one-thread class on two rows of two pixels. *)
Lemma sequential_render_output_witness :
  exists (out : Sequential.output) (g' : Scenario.tape),
    Sequential.render Scenario.degrees_to_radians Scenario.tan
      Scenario.random_double Scenario.hit Scenario.scatter Scenario.Empty
      Scenario.sequential_camera [] = Ok (out, g')
    /\ Z.of_nat (length (Sequential.cout out)) = 4
    /\ Forall (fun printed => exists p : Z, printed = Ok p /\ 0 <= p <= 100)
         (Sequential.clog out)
    /\ Sequential.clog out !! 0%nat = Some (Ok 0)
    /\ last (Sequential.clog out) = Some (Ok 100).
Proof.
  destruct (Sequential.render Scenario.degrees_to_radians Scenario.tan
              Scenario.random_double Scenario.hit Scenario.scatter
              Scenario.Empty Scenario.sequential_camera [])
    as [[out g'] | f] eqn:Hrun; [| vm_compute in Hrun; discriminate].
  exists out, g'. split; [reflexivity |].
  destruct (sequential_render_output Scenario.degrees_to_radians Scenario.tan
              Scenario.random_double Scenario.hit Scenario.scatter
              Scenario.Empty Scenario.sequential_camera [] g' out
              ltac:(vm_compute; discriminate) ltac:(int_literal)
              ltac:(vm_compute; discriminate) Hrun)
    as (_ & Hcout & _ & _ & Hdef & Hfirst & Hlast).
  repeat split; assumption.
Defined.

(** The image of [Scenario.small_camera], rendered, can be written. *)
Lemma write_image_after_render_witness :
  render Scenario.degrees_to_radians Scenario.tan Scenario.random_double
    Scenario.random_in_unit_disk Scenario.hit Scenario.scatter 1
    Scenario.Empty Scenario.small_camera [] = Ok (Scenario.small_finished, [])
  /\ exists file : list Z,
      write_image_file Scenario.gamma_correction true Scenario.small_finished
      = Ok file.
Proof.
  assert (Hrun : render Scenario.degrees_to_radians Scenario.tan
                   Scenario.random_double Scenario.random_in_unit_disk
                   Scenario.hit Scenario.scatter 1 Scenario.Empty
                   Scenario.small_camera []
                 = Ok (Scenario.small_finished, []))
    by (vm_compute; reflexivity).
  split; [exact Hrun |].
  destruct (get_bitmap_data Scenario.gamma_correction Scenario.small_finished)
    as [data | f] eqn:Hdata; [| vm_compute in Hdata; discriminate].
  exact (write_image_after_render Scenario.degrees_to_radians Scenario.tan
           Scenario.random_double Scenario.random_in_unit_disk Scenario.hit
           Scenario.scatter Scenario.gamma_correction Scenario.small_camera
           Scenario.small_finished Scenario.Empty [] [] 1%nat data
           ltac:(closed_bounds) ltac:(int_literal) Hrun Hdata).
Defined.

(** The monitor on [Scenario.small_initialized], before its worker has
    run. *)
Lemma print_render_progress_waits_witness :
  print_render_progress 1000 Scenario.small_initialized = Fault OutOfFuel.
Proof.
  apply (print_render_progress_waits Scenario.small_initialized 1000).
  - vm_compute. discriminate.
  - int_literal.
  - reflexivity.
Defined.

(** C8 on a finished and on a half-finished render: the counters that the
    worker of [Scenario.small_camera] leaves when it has rendered its two
    rows of the empty scene end the loop at the first pass; the counters
    of [Scenario.two_workers] when the first worker has rendered its two
    rows of five, and the second none, do not. *)
Lemma monitor_reads_and_stops_witness :
  initialize Scenario.degrees_to_radians Scenario.tan Scenario.small_camera
    = Ok Scenario.small_initialized
  /\ run_threads Scenario.random_double Scenario.random_in_unit_disk
       Scenario.hit Scenario.scatter Scenario.Empty
       (spawn_threads Scenario.small_initialized)
       (Scenario.small_initialized, []) = Ok (Scenario.small_rendered, [])
  /\ render_thread Scenario.random_double Scenario.random_in_unit_disk
       Scenario.hit Scenario.scatter Scenario.Empty 0 0 2
       (Scenario.two_workers_initialized, [])
     = Ok (Scenario.two_workers_first_done, [])
  /\ (render_progress Scenario.small_rendered = [2]
   /\ exists m' : monitor,
       monitor_pass (Scenario.small_rendered, monitor_start)
         = Ok (Scenario.small_rendered, m')
       /\ percent m' = 100
       /\ (forall fuel : nat,
             monitor_loop (S fuel) (Scenario.small_rendered, monitor_start)
             = Ok (Scenario.small_rendered, m')))
  /\ (render_progress Scenario.two_workers_first_done = [2; 0]
      /\ exists m' : monitor,
          monitor_pass (Scenario.two_workers_first_done, monitor_start)
            = Ok (Scenario.two_workers_first_done, m')
          /\ 0 <= percent m' < 100
          /\ (forall fuel : nat,
                monitor_loop fuel
                  (Scenario.two_workers_first_done, monitor_start)
                = Fault OutOfFuel)).
Proof.
  destruct monitor_reads_and_stops as (_ & _ & Hdone & Hbelow).
  split; [vm_compute; reflexivity |].
  split; [vm_compute; reflexivity |].
  split; [vm_compute; reflexivity |].
  split.
  - split; [reflexivity |].
    destruct (Hdone Scenario.small_rendered monitor_start)
      as (m' & Hpass & Hpct & _ & Hloop).
    + int_literal.
    + vm_compute. discriminate.
    + reflexivity.
    + vm_compute. reflexivity.
    + exists m'. split; [exact Hpass |]. split; [exact Hpct |].
      apply Hloop. vm_compute. reflexivity.
  - split; [reflexivity |].
    destruct (Hbelow Scenario.two_workers_first_done monitor_start)
      as (m' & Hpass & Hpct & _ & Hloop).
    + int_literal.
    + vm_compute. discriminate.
    + reflexivity.
    + vm_compute. split; [discriminate | reflexivity].
    + exists m'. split; [exact Hpass |]. split; [exact Hpct |].
      apply Hloop. vm_compute. reflexivity.
Defined.

(** C8 as it was claimed, on an image of no row: the counters of
    [Scenario.no_row_initialized] sum to [image_height], which is [0],
    from the start, and the loop does not end: its pass converts
    [0 / 0 * 100], a NaN, to [int]. *)
Lemma monitor_no_row_never_stops :
  image_height Scenario.no_row_initialized = 0
  /\ foldl Int.add 0 (render_progress Scenario.no_row_initialized)
     = image_height Scenario.no_row_initialized
  /\ monitor_pass (Scenario.no_row_initialized, monitor_start)
     = Fault BadConversion
  /\ (forall fuel : nat,
        print_render_progress (S fuel) Scenario.no_row_initialized
        = Fault BadConversion)
  /\ render Scenario.degrees_to_radians Scenario.tan Scenario.random_double
       Scenario.random_in_unit_disk Scenario.hit Scenario.scatter 1
       Scenario.Empty Scenario.no_row_camera [] = Fault BadConversion.
Proof.
  split; [reflexivity |]. split; [reflexivity |].
  split; [vm_compute; reflexivity |].
  split; [intros fuel; reflexivity |].
  vm_compute. reflexivity.
Qed.



(** C4 on the two by two image of [Scenario.small_camera].  The offset
    [(0.5 + u, 0.5 + v)] is added to [pixel_center], which is the centre
    of the pixel already, so that the sample lies between one and two
    pixels to the right of and below the corner of its pixel: for the
    draws [0.25], [0.5], [0.75] and [0.9375] the point sampled for pixel
    [(0, 0)] is outside the footprint of pixel [(0, 0)] and inside that of
    pixel [(1, 1)], and the point sampled for pixel [(1, 1)], the last of
    the image, is inside the footprint that a pixel [(2, 2)] would have,
    off the image.  The ray of [get_ray] goes through that point. *)
Theorem get_ray_misses_its_pixel :
  initialize Scenario.degrees_to_radians Scenario.tan Scenario.small_camera
  = Ok Scenario.small_initialized
  /\ Forall
       (fun d : float =>
          sample_lands Scenario.small_initialized 0 0 0 0 d d = false
          /\ sample_lands Scenario.small_initialized 0 0 1 1 d d = true
          /\ sample_lands Scenario.small_initialized 1 1 1 1 d d = false
          /\ sample_lands Scenario.small_initialized 1 1 2 2 d d = true
          /\ get_ray Scenario.random_double Scenario.random_in_unit_disk
               Scenario.small_initialized 0 0 [d; d]
             = (mk_ray (center Scenario.small_initialized)
                  (fst (pixel_sample Scenario.random_double
                          Scenario.small_initialized 0 0 [d; d])
                   - center Scenario.small_initialized)%vec, []))
       [0.25; 0.5; 0.75; 0.9375]%float
  /\ sample_lands Scenario.small_initialized 0 0 0 0 0.25 0.75 = false
  /\ sample_lands Scenario.small_initialized 0 0 1 1 0.25 0.75 = true
  /\ fst (pixel_sample Scenario.random_double Scenario.small_initialized 0 0
            [0.75; 0.75]%float)
     <> (pixel_corner Scenario.small_initialized 0 0
         + ((0.5 + 0.75)%float *: pixel_delta_u Scenario.small_initialized
            + (0.5 + 0.75)%float
              *: pixel_delta_v Scenario.small_initialized))%vec.
Proof.
  split; [vm_compute; reflexivity |].
  split; [repeat constructor; vm_compute; reflexivity |].
  split; [vm_compute; reflexivity |]. split; [vm_compute; reflexivity |].
  intros E. apply (f_equal (fun q => (x q <? 0.5)%float)) in E.
  vm_compute in E. discriminate.
Qed.
